(** * Trajectory preprocessing: a shallow embedding of
      [src/data_preprocessing.py] and [src/merge_processed.py]

    Modelling conventions.

    - A pandas [float64] cell is a value of [f64]: an exact rational, one of
      the two infinities, or NaN, which pandas also uses for "missing".  The
      special values follow IEEE 754; the rounding and overflow of finite
      results and the sign of zero are not modelled.
    - A [datetime64[ns]] cell is an integer count of nanoseconds ([TStamp]) or
      [TNaT]; a [timedelta64[ns]] is an integer count of nanoseconds too.
    - A [DataFrame] is the list of its column names and the list of its rows.
      A row holds its [time] cell, a map from the names of the numeric
      columns to their cells, and a map from the names of the text columns to
      theirs.  The columns the code computes with ([latitude], [longitude],
      [baro_altitude], [velocity], [heading] and the derived ones) are
      numeric, [icao24] is text.  Row positions play the role of the
      [RangeIndex] that [reset_index(drop=True)] installs.
    - [sort_values] is modelled by a stable sort: rows with equal keys keep
      their order.  pandas' default quicksort gives the same rows in some
      order inside each group of equal keys.
    - [pd.to_datetime(_, unit="s", errors="coerce")] takes a count of seconds
      to the nearest count of nanoseconds; an infinite count makes the call
      raise, [errors="coerce"] notwithstanding.
    - [preprocess_file] receives what [os.path.getsize] and [pd.read_csv]
      give for the path; it returns a table, returns [None] after a warning
      (the file is skipped), or raises.
    - The folder [data/] is a map from paths to the tables saved there, and
      the console is the list of the lines printed by the two batch
      functions. *)

From Stdlib Require Import ZArith QArith Qround Lia.
From stdpp Require Import gmap strings list fin_maps pretty sorting.

(* ===================================================================== *)
(** ** float64 values *)
(* ===================================================================== *)

Inductive f64 : Type :=
| Fin (q : Q)
| PInf
| NInf
| NaN.

#[global] Instance f64_inhabited : Inhabited f64 := populate NaN.

Module F64.

Definition zero : f64 := Fin (0 # 1).
Definition one : f64 := Fin (1 # 1).
Definition of_Z (z : Z) : f64 := Fin (z # 1).

Definition is_nan (x : f64) : bool :=
  match x with NaN => true | _ => false end.

Definition is_inf (x : f64) : bool :=
  match x with PInf | NInf => true | _ => false end.

Definition is_finite (x : f64) : bool :=
  match x with Fin _ => true | _ => false end.

(** [x == 0] in numpy: true on a finite zero only. *)
Definition is_zero (x : f64) : bool :=
  match x with Fin q => (Qnum q =? 0)%Z | _ => false end.

Definition q_neg (q : Q) : bool := (Qnum q <? 0)%Z.

Definition neg (x : f64) : f64 :=
  match x with
  | Fin q => Fin (Qred (- q))
  | PInf => NInf
  | NInf => PInf
  | NaN => NaN
  end.

Definition add (x y : f64) : f64 :=
  match x, y with
  | NaN, _ | _, NaN => NaN
  | PInf, NInf | NInf, PInf => NaN
  | PInf, _ | _, PInf => PInf
  | NInf, _ | _, NInf => NInf
  | Fin a, Fin b => Fin (Qred (a + b))
  end.

Definition sub (x y : f64) : f64 := add x (neg y).

Definition signed_inf (negative : bool) : f64 :=
  if negative then NInf else PInf.

Definition mul (x y : f64) : f64 :=
  match x, y with
  | NaN, _ | _, NaN => NaN
  | Fin a, Fin b => Fin (Qred (a * b))
  | Fin a, PInf | PInf, Fin a =>
      if (Qnum a =? 0)%Z then NaN else signed_inf (q_neg a)
  | Fin a, NInf | NInf, Fin a =>
      if (Qnum a =? 0)%Z then NaN else signed_inf (negb (q_neg a))
  | PInf, PInf | NInf, NInf => PInf
  | PInf, NInf | NInf, PInf => NInf
  end.

Definition div (x y : f64) : f64 :=
  match x, y with
  | NaN, _ | _, NaN => NaN
  | Fin a, Fin b =>
      if (Qnum b =? 0)%Z
      then (if (Qnum a =? 0)%Z then NaN else signed_inf (q_neg a))
      else Fin (Qred (a / b))
  | Fin _, (PInf | NInf) => zero
  | PInf, Fin b => signed_inf (q_neg b)
  | NInf, Fin b => signed_inf (negb (q_neg b))
  | (PInf | NInf), (PInf | NInf) => NaN
  end.

(** Equality as [drop_duplicates] sees it: numeric equality, and two
    missing values are equal. *)
Definition eqb (x y : f64) : bool :=
  match x, y with
  | Fin a, Fin b => Qeq_bool a b
  | PInf, PInf | NInf, NInf | NaN, NaN => true
  | _, _ => false
  end.

Definition leb (x y : f64) : bool :=
  match x, y with
  | NaN, _ | _, NaN => false
  | NInf, _ | _, PInf => true
  | Fin a, Fin b => Qle_bool a b
  | _, _ => false
  end.

End F64.

(* ===================================================================== *)
(** ** Series operations and the two helpers *)
(* ===================================================================== *)

(** [s.fillna(v)] *)
Definition fillna (v : f64) (s : list f64) : list f64 :=
  map (fun x => if F64.is_nan x then v else x) s.

(** [s.replace(0, v)] *)
Definition replace_zero (v : f64) (s : list f64) : list f64 :=
  map (fun x => if F64.is_zero x then v else x) s.

(** [s.replace([np.inf, -np.inf], v)] *)
Definition replace_inf (v : f64) (s : list f64) : list f64 :=
  map (fun x => if F64.is_inf x then v else x) s.

(** [a / b] on two series carrying a [RangeIndex]: positions present in one
    operand only come out as NaN. *)
Fixpoint series_div (a b : list f64) : list f64 :=
  match a, b with
  | x :: a', y :: b' => F64.div x y :: series_div a' b'
  | [], _ => map (fun _ => NaN) b
  | _, [] => map (fun _ => NaN) a
  end.

(** [s * k] for a scalar [k] *)
Definition series_scale (k : f64) (s : list f64) : list f64 :=
  map (fun x => F64.mul x k) s.

(** [s.diff()]: NaN in front, then each value minus its predecessor. *)
Fixpoint diff_from (prev : f64) (s : list f64) : list f64 :=
  match s with
  | [] => []
  | x :: s' => F64.sub x prev :: diff_from x s'
  end.

Definition series_diff (s : list f64) : list f64 :=
  match s with
  | [] => []
  | x :: s' => NaN :: diff_from x s'
  end.

(** [safe_diff(series)] for a series argument ([series.diff().fillna(0)]).
    The [None] branch of the source is never taken by [preprocess_file]. *)
Definition safe_diff (series : list f64) : list f64 :=
  fillna F64.zero (series_diff series).

(** [safe_div(numerator, denominator)] *)
Definition safe_div (numerator denominator : list f64) : list f64 :=
  let denominator := replace_zero NaN denominator in
  fillna F64.zero (replace_inf F64.zero (series_div numerator denominator)).

(* ===================================================================== *)
(** ** Gap filling: [interpolate(method="linear")], [bfill], [ffill] *)
(* ===================================================================== *)

(** [np.interp] between the valid neighbours [ya] (at distance [k] to the
    left) and [yb] ([n] positions right of [ya]).  With [method="linear"]
    pandas hands numpy the row positions as abscissae, so the timestamps play
    no part.  The two fallbacks are numpy's, for a NaN caused by infinite
    ordinates. *)
Definition np_interp (ya yb : f64) (k n : nat) : f64 :=
  let slope := F64.div (F64.sub yb ya) (F64.of_Z (Z.of_nat n)) in
  let r := F64.add (F64.mul slope (F64.of_Z (Z.of_nat k))) ya in
  if F64.is_nan r then
    let r' := F64.add (F64.mul slope (F64.of_Z (Z.of_nat k - Z.of_nat n))) yb in
    if F64.is_nan r' && F64.eqb ya yb then ya else r'
  else r.

(** Distance to, and value of, the first valid entry of [s]. *)
Fixpoint next_valid (s : list f64) : option (nat * f64) :=
  match s with
  | [] => None
  | y :: s' =>
      if F64.is_nan y
      then match next_valid s' with
           | Some (m, v) => Some (S m, v)
           | None => None
           end
      else Some (0%nat, y)
  end.

(** [prev] is the last valid value seen and the distance from it to the
    head of [s].  Leading gaps stay NaN (the default
    [limit_direction="forward"]); gaps after the last valid value take that
    value, which is how [np.interp] extends to the right. *)
Fixpoint interpolate_from (prev : option (f64 * nat)) (s : list f64) : list f64 :=
  match s with
  | [] => []
  | y :: s' =>
      if F64.is_nan y then
        match prev with
        | None => NaN :: interpolate_from None s'
        | Some (ya, k) =>
            match next_valid s' with
            | None => ya
            | Some (m, yb) => np_interp ya yb k (k + S m)
            end :: interpolate_from (Some (ya, S k)) s'
        end
      else y :: interpolate_from (Some (y, 1%nat)) s'
  end.

(** [s.interpolate(method="linear")] *)
Definition interpolate_linear (s : list f64) : list f64 :=
  interpolate_from None s.

(** [s.fillna(method="bfill")]: a gap takes the next valid value. *)
Fixpoint bfill (s : list f64) : list f64 :=
  match s with
  | [] => []
  | y :: s' =>
      let t := bfill s' in
      (if F64.is_nan y then hd NaN t else y) :: t
  end.

Fixpoint ffill_from (prev : f64) (s : list f64) : list f64 :=
  match s with
  | [] => []
  | y :: s' =>
      let v := if F64.is_nan y then prev else y in
      v :: ffill_from v s'
  end.

(** [s.fillna(method="ffill")]: a gap takes the last valid value. *)
Definition ffill (s : list f64) : list f64 := ffill_from NaN s.

(** The chain applied to each numeric column in step 3. *)
Definition fill_gaps (s : list f64) : list f64 :=
  ffill (bfill (interpolate_linear s)).

(* ===================================================================== *)
(** ** Paths *)
(* ===================================================================== *)

Fixpoint is_prefix (p s : string) : bool :=
  match p, s with
  | EmptyString, _ => true
  | String a p', String b s' => if Ascii.eqb a b then is_prefix p' s' else false
  | String _ _, EmptyString => false
  end.

(** [needle in hay] *)
Fixpoint contains (needle hay : string) : bool :=
  is_prefix needle hay ||
  match hay with
  | EmptyString => false
  | String _ hay' => contains needle hay'
  end.

(** [os.path.basename] on a POSIX path *)
Fixpoint basename (p : string) : string :=
  match p with
  | EmptyString => EmptyString
  | String _ p' => if contains "/" p then basename p' else p
  end.

Fixpoint drop_prefix (p s : string) : option string :=
  match p, s with
  | EmptyString, _ => Some s
  | String a p', String b s' => if Ascii.eqb a b then drop_prefix p' s' else None
  | String _ _, EmptyString => None
  end.

Fixpoint is_suffix (suf s : string) : bool :=
  String.eqb suf s ||
  match s with
  | EmptyString => false
  | String _ s' => is_suffix suf s'
  end.

(** [os.path.join(d, name)] for a relative [name] and a non-empty [d]
    without a trailing separator. *)
Definition path_join (d name : string) : string := d +:+ "/" +:+ name.

(** Does [p] match [os.path.join(d, "*.csv")]?  The star matches within one
    directory level and not a leading dot. *)
Definition matches_csv_glob (d p : string) : bool :=
  match drop_prefix (d +:+ "/") p with
  | None => false
  | Some name =>
      negb (contains "/" name) && negb (is_prefix "." name) && is_suffix ".csv" name
  end.

Definition RAW_DIR : string := path_join (path_join ".." "data") "raw".
Definition PROCESSED_DIR : string := path_join (path_join ".." "data") "processed".
Definition OUTPUT_CSV : string := path_join PROCESSED_DIR "processed_file.csv".

(* ===================================================================== *)
(** ** Tables *)
(* ===================================================================== *)

(** A cell of the [time] column: a number as [read_csv] parsed it (NaN when
    the field was empty), text that is not a number, or, once
    [pd.to_datetime] has run, a timestamp in nanoseconds or NaT. *)
Inductive tcell : Type :=
| TNum (x : f64)
| TText (s : string)
| TStamp (ns : Z)
| TNaT.

(** A row: the [time] cell, the cells of the numeric columns and the cells of
    the text columns.  A name without an entry is a missing value (NaN). *)
Record row : Type := Row {
  time : tcell;
  num : gmap string f64;
  txt : gmap string string
}.

Record DataFrame : Type := Frame {
  columns : list string;
  rows : list row
}.

Definition has_col (c : string) (df : DataFrame) : bool :=
  bool_decide (c ∈ columns df).

Definition add_col (c : string) (cols : list string) : list string :=
  if bool_decide (c ∈ cols) then cols else cols ++ [c].

Definition numv (c : string) (r : row) : f64 := default NaN (num r !! c).

Definition set_numv (c : string) (v : f64) (r : row) : row :=
  Row (time r) (<[c := v]> (num r)) (txt r).

Definition set_txtv (c : string) (v : option string) (r : row) : row :=
  Row (time r) (num r)
      (match v with Some s => <[c := s]> (txt r) | None => delete c (txt r) end).

Definition set_time (t : tcell) (r : row) : row := Row t (num r) (txt r).

(** [df[c]] for a numeric column *)
Definition num_col (c : string) (df : DataFrame) : list f64 :=
  map (numv c) (rows df).

(** [df["time"]] *)
Definition time_col (df : DataFrame) : list tcell := map time (rows df).

(** [df[c] = series]: the series is aligned on the row positions. *)
Definition assign_num (c : string) (series : list f64) (df : DataFrame) : DataFrame :=
  Frame (add_col c (columns df))
        (zip_with (fun r v => set_numv c v r) (rows df)
                  (resize (length (rows df)) NaN series)).

(** [df[c] = v] for a scalar number *)
Definition assign_num_const (c : string) (v : f64) (df : DataFrame) : DataFrame :=
  Frame (add_col c (columns df)) (map (set_numv c v) (rows df)).

(** [df[c] = v] for a scalar string, or for a missing value *)
Definition assign_txt_const (c : string) (v : option string) (df : DataFrame) : DataFrame :=
  Frame (add_col c (columns df)) (map (set_txtv c v) (rows df)).

(** [df["time"] = f(df["time"])] for an elementwise [f] *)
Definition map_time (f : tcell -> tcell) (df : DataFrame) : DataFrame :=
  Frame (columns df) (map (fun r => set_time (f (time r)) r) (rows df)).

Definition tcell_isna (t : tcell) : bool :=
  match t with
  | TNum x => F64.is_nan x
  | TNaT => true
  | _ => false
  end.

(** Is the cell of column [c] missing in [r]?  ([c] is [time] or numeric.) *)
Definition isna_at (r : row) (c : string) : bool :=
  if String.eqb c "time" then tcell_isna (time r) else F64.is_nan (numv c r).

(** [df.dropna(subset=cols)] *)
Definition dropna (subset : list string) (df : DataFrame) : DataFrame :=
  Frame (columns df)
        (filter (fun r => forallb (fun c => negb (isna_at r c)) subset = true) (rows df)).

Definition tcell_eqb (a b : tcell) : bool :=
  match a, b with
  | TNum x, TNum y => F64.eqb x y
  | TText s, TText s' => String.eqb s s'
  | TStamp x, TStamp y => (x =? y)%Z
  | TNaT, TNaT => true
  | _, _ => false
  end.

(** Two rows are duplicates when every column holds equal cells. *)
Definition row_eqb (cols : list string) (r1 r2 : row) : bool :=
  tcell_eqb (time r1) (time r2) &&
  forallb (fun c => F64.eqb (numv c r1) (numv c r2) &&
                    bool_decide (txt r1 !! c = txt r2 !! c)) cols.

(** [drop_duplicates()] keeps the first of each group of equal rows. *)
Fixpoint dedup (cols : list string) (l : list row) : list row :=
  match l with
  | [] => []
  | r :: l' => r :: filter (fun r' => row_eqb cols r r' = false) (dedup cols l')
  end.

Definition drop_duplicates (df : DataFrame) : DataFrame :=
  Frame (columns df) (dedup (columns df) (rows df)).

(** Sort key of a datetime cell; NaT sorts last. *)
Definition time_leb (a b : tcell) : bool :=
  match a, b with
  | TStamp x, TStamp y => (x <=? y)%Z
  | _, TStamp _ => false
  | _, _ => true
  end.

Fixpoint insert_by_time (r : row) (l : list row) : list row :=
  match l with
  | [] => [r]
  | x :: l' => if time_leb (time r) (time x) then r :: l else x :: insert_by_time r l'
  end.

(** [df.sort_values("time")]; rows with equal timestamps keep their order. *)
Definition sort_by_time (l : list row) : list row := foldr insert_by_time [] l.

Definition sort_values_time (df : DataFrame) : DataFrame :=
  Frame (columns df) (sort_by_time (rows df)).

(* ===================================================================== *)
(** ** [preprocess_file] *)
(* ===================================================================== *)

Definition essential_cols : list string :=
  ["time"; "latitude"; "longitude"; "baro_altitude"].

Definition numeric_cols : list string :=
  ["latitude"; "longitude"; "baro_altitude"; "velocity"].

Definition DEG_TO_M : f64 := F64.of_Z 111000.

Definition INT64_MAX : Z := 2 ^ 63 - 1.

Definition int64_ok (z : Z) : bool :=
  (- INT64_MAX - 1 <=? z)%Z && (z <=? INT64_MAX)%Z.

(** The integer nearest to a rational, a half going to the even neighbour:
    the conversion rounds the fraction of a second to nine decimals. *)
Definition Qnearest (q : Q) : Z :=
  let d := Z.pos (Qden q) in
  let below := (Qnum q / d)%Z in
  match (2 * (Qnum q mod d) ?= d)%Z with
  | Lt => below
  | Gt => (below + 1)%Z
  | Eq => if Z.even below then below else (below + 1)%Z
  end.

(** Does [pd.to_datetime(_, unit="s", errors="coerce")] raise on this cell?
    The cast of an infinite count of seconds to an integer raises an
    [OverflowError] that [errors="coerce"] does not catch. *)
Definition to_datetime_raises (t : tcell) : bool :=
  match t with
  | TNum x => F64.is_inf x
  | _ => false
  end.

(** [pd.to_datetime(_, unit="s", errors="coerce")] on one cell, when the
    call does not raise: a number of seconds inside the [datetime64[ns]]
    range becomes a timestamp; anything else that is not already a timestamp
    becomes NaT.  (A count less than a second beyond the range, which the
    int64 arithmetic of the conversion wraps around, is not told apart from
    the counts farther out.) *)
Definition to_datetime_s (t : tcell) : tcell :=
  match t with
  | TNum (Fin q) =>
      let ns := Qnearest (q * (1000000000 # 1)) in
      if (- INT64_MAX <=? ns)%Z && (ns <=? INT64_MAX)%Z then TStamp ns else TNaT
  | TNum _ => TNaT
  | TText _ => TNaT
  | TStamp ns => TStamp ns
  | TNaT => TNaT
  end.

(** [a - b] on two datetime cells: a [timedelta64[ns]] ([None] inside is
    NaT); the outer [None] is the [OverflowError] of the checked int64
    subtraction. *)
Definition stamp_sub (a b : tcell) : option (option Z) :=
  match a, b with
  | TStamp x, TStamp y => if int64_ok (x - y) then Some (Some (x - y)%Z) else None
  | _, _ => Some None
  end.

Fixpoint time_diff_from (prev : tcell) (s : list tcell) : option (list (option Z)) :=
  match s with
  | [] => Some []
  | t :: s' =>
      d ← stamp_sub t prev;
      ds ← time_diff_from t s';
      Some (d :: ds)
  end.

(** [df["time"].diff()] *)
Definition time_diff (s : list tcell) : option (list (option Z)) :=
  match s with
  | [] => Some []
  | t :: s' => ds ← time_diff_from t s'; Some (None :: ds)
  end.

(** [.dt.total_seconds()] on one timedelta *)
Definition total_seconds (d : option Z) : f64 :=
  match d with
  | Some ns => Fin (Qred (ns # 1000000000))
  | None => NaN
  end.

Inductive skip_reason : Type :=
| EmptyFile
| MissingColumns (missing : list string)
| NoUsableRows.

Inductive exn : Type :=
| ParserError
| OverflowError
| IndexError.

(** What a call of [preprocess_file] does: return the table, print a warning
    and return [None], or raise. *)
Inductive outcome : Type :=
| Table (df : DataFrame)
| Skip (why : skip_reason)
| Raise (e : exn).

(** A path of the raw folder with what [os.path.getsize] and [pd.read_csv]
    give for it ([csv = None]: [read_csv] raises). *)
Record raw_file : Type := RawFile {
  path : string;
  size : Z;
  csv : option DataFrame
}.

(** STEP 2 after the test for an empty table: parse the timestamps, drop
    the rows whose timestamp did not parse, sort, drop duplicates. *)
Definition parse_sort_dedup (df : DataFrame) : DataFrame :=
  let df := map_time to_datetime_s df in
  let df := dropna ["time"] df in
  drop_duplicates (sort_values_time df).

(** STEP 3, the body of the loop for one column *)
Definition fill_column (df : DataFrame) (col : string) : DataFrame :=
  if has_col col df
  then assign_num col (fill_gaps (num_col col df)) df
  else assign_num_const col F64.zero df.

Definition fill_numeric_cols (df : DataFrame) : DataFrame :=
  foldl fill_column df numeric_cols.

(** [df[c] = f(df)]: one assignment of a computed numeric column *)
Definition with_column (c : string) (f : DataFrame -> list f64) (df : DataFrame)
  : DataFrame :=
  assign_num c (f df) df.

(** STEP 4 up to the accelerations, given the time differences: the
    assignments of the source, in order. *)
Definition feature_steps (deltas : list (option Z)) : list (DataFrame -> DataFrame) :=
  [ with_column "delta_time" (fun _ => fillna F64.one (map total_seconds deltas));
    with_column "delta_time" (fun df => replace_zero F64.one (num_col "delta_time" df));
    with_column "delta_lat" (fun df => safe_diff (num_col "latitude" df));
    with_column "delta_lon" (fun df => safe_diff (num_col "longitude" df));
    with_column "delta_altitude" (fun df => safe_diff (num_col "baro_altitude" df));
    with_column "delta_velocity" (fun df => safe_diff (num_col "velocity" df));
    with_column "vx" (fun df =>
      safe_div (series_scale DEG_TO_M (num_col "delta_lon" df)) (num_col "delta_time" df));
    with_column "vy" (fun df =>
      safe_div (series_scale DEG_TO_M (num_col "delta_lat" df)) (num_col "delta_time" df));
    with_column "v_vertical" (fun df =>
      safe_div (num_col "delta_altitude" df) (num_col "delta_time" df));
    with_column "ax" (fun df =>
      safe_div (safe_diff (num_col "vx" df)) (num_col "delta_time" df));
    with_column "ay" (fun df =>
      safe_div (safe_diff (num_col "vy" df)) (num_col "delta_time" df));
    with_column "a_vertical" (fun df =>
      safe_div (safe_diff (num_col "v_vertical" df)) (num_col "delta_time" df)) ].

Definition add_features (deltas : list (option Z)) (df : DataFrame) : DataFrame :=
  foldl (fun df step => step df) df (feature_steps deltas).

(** Heading change *)
Definition add_delta_heading (df : DataFrame) : DataFrame :=
  if has_col "heading" df
  then assign_num "delta_heading" (safe_diff (num_col "heading" df)) df
  else assign_num_const "delta_heading" F64.zero df.

(** ICAO24 handling; [.iloc[0]] raises on a table without rows. *)
Definition set_icao24 (df : DataFrame) : outcome :=
  if has_col "icao24" df then
    match rows df with
    | [] => Raise IndexError
    | r :: _ => Table (assign_txt_const "icao24" (txt r !! "icao24") df)
    end
  else Table (assign_txt_const "icao24" (Some "unknown") df).

Definition derive (df : DataFrame) : outcome :=
  match time_diff (time_col df) with
  | None => Raise OverflowError
  | Some deltas => set_icao24 (add_delta_heading (add_features deltas df))
  end.

(** Does the conversion of the [time] column raise?  It runs on the rows
    that [dropna(subset=essential_cols)] kept. *)
Definition to_datetime_overflows (df : DataFrame) : bool :=
  existsb (fun r => to_datetime_raises (time r)) (rows (dropna essential_cols df)).

(** STEP 1 to STEP 3 on the parsed table, for a [time] column whose
    conversion does not raise *)
Definition clean (df : DataFrame) : DataFrame + skip_reason :=
  let missing := filter (fun c => c ∉ columns df) essential_cols in
  if bool_decide (missing ≠ []) then inr (MissingColumns missing) else
  let df := if has_col "velocity" df then df
            else assign_num_const "velocity" F64.zero df in
  let df := dropna essential_cols df in
  if bool_decide (rows df = []) then inr NoUsableRows else
  inl (fill_numeric_cols (parse_sort_dedup df)).

Definition preprocess_file (f : raw_file) : outcome :=
  if (size f <? 10)%Z then Skip EmptyFile else
  match csv f with
  | None => Raise ParserError
  | Some df =>
      match clean df with
      | inr why => Skip why
      | inl cleaned =>
          if to_datetime_overflows df then Raise OverflowError else derive cleaned
      end
  end.

(* ===================================================================== *)
(** ** [preprocess_all] *)
(* ===================================================================== *)

(** The lines the two scripts print at the batch level.  The warning that
    [preprocess_file] prints before it returns [None] is the [skip_reason]. *)
Inductive log_entry : Type :=
| InfoFound (n : nat)
| Warning (why : skip_reason)
| InfoSkipped (filename : string)
| InfoSaved (output : string)
| ErrorNoProcessed
| InfoFoundProcessed (n : nat)
| InfoLoaded (filepath flight_id : string)
| InfoMerged (output : string)
| InfoParquet (output : string)
| WarningParquet.

(** The files under [data/] with the tables they hold, and the console. *)
Record world : Type := World {
  disk : gmap string DataFrame;
  console : list log_entry
}.

Definition print (e : log_entry) (w : world) : world :=
  World (disk w) (console w ++ [e]).

(** [df.to_csv(p, index=False)] *)
Definition to_csv (p : string) (df : DataFrame) (w : world) : world :=
  World (<[p := df]> (disk w)) (console w).

(** The [for] loop of [preprocess_all].  Nothing in it catches an
    exception: one raised by [preprocess_file] leaves the loop and the
    function ([Some e] in the result). *)
Fixpoint process_files (files : list raw_file) (w : world) : world * option exn :=
  match files with
  | [] => (w, None)
  | filepath :: rest =>
      match preprocess_file filepath with
      | Raise e => (w, Some e)
      | Skip why =>
          process_files rest
            (print (InfoSkipped (basename (path filepath))) (print (Warning why) w))
      | Table df =>
          process_files rest (print (InfoSaved OUTPUT_CSV) (to_csv OUTPUT_CSV df w))
      end
  end.

(** [files] is what [glob.glob(os.path.join(RAW_DIR, "*.csv"))] finds. *)
Definition preprocess_all (files : list raw_file) (w : world) : world * option exn :=
  process_files files (print (InfoFound (length files)) w).

(* ===================================================================== *)
(** ** [merge_processed.py] *)
(* ===================================================================== *)

Module Merge.

Definition PROCESSED_DIR : string := path_join (path_join ".." "data") "processed".
Definition OUTPUT_CSV : string := path_join PROCESSED_DIR "merged_dataset.csv".
Definition OUTPUT_PARQUET : string := path_join PROCESSED_DIR "merged_dataset.parquet".

Definition digit (n : nat) : string :=
  String (Ascii.ascii_of_nat (48 + n mod 10)) EmptyString.

(** [f"flight_{idx+1:03d}"] *)
Definition flight_id (idx : nat) : string :=
  let k := S idx in
  "flight_" +:+
  (if (k <? 1000)%nat
   then digit (k / 100) +:+ digit (k / 10) +:+ digit k
   else pretty k).

(** [glob.glob(os.path.join(PROCESSED_DIR, "*.csv"))] *)
Definition glob_processed (w : world) : list string :=
  filter (fun p => matches_csv_glob PROCESSED_DIR p = true)
         (map fst (map_to_list (disk w))).

(** [pd.read_csv(p)] of a file written by [to_csv]; the cells are taken as
    they were written. *)
Definition read_csv (w : world) (p : string) : DataFrame :=
  default (Frame [] []) (disk w !! p).

(** [pd.concat(dfs, ignore_index=True)] *)
Definition concat (dfs : list DataFrame) : DataFrame :=
  Frame (foldl (fun cols df => foldl (fun cs c => add_col c cs) cols (columns df)) [] dfs)
        (mjoin (map rows dfs)).

Definition tcell_leb (a b : tcell) : bool :=
  match a, b with
  | TStamp x, TStamp y => (x <=? y)%Z
  | TNum x, TNum y => F64.leb x y || F64.is_nan y
  | TText s, TText s' => String.leb s s'
  | _, _ => true
  end.

(** Order of [sort_values(by=["flight_id", "time"])] *)
Definition flight_time_leb (r1 r2 : row) : bool :=
  let f1 := default "" (txt r1 !! "flight_id") in
  let f2 := default "" (txt r2 !! "flight_id") in
  if String.eqb f1 f2 then tcell_leb (time r1) (time r2) else String.leb f1 f2.

Fixpoint insert_by (leb : row -> row -> bool) (r : row) (l : list row) : list row :=
  match l with
  | [] => [r]
  | x :: l' => if leb r x then r :: l else x :: insert_by leb r l'
  end.

Definition sort_by_flight_time (df : DataFrame) : DataFrame :=
  Frame (columns df) (foldr (insert_by flight_time_leb) [] (rows df)).

(** [parquet_ok] says whether [to_parquet] succeeds; its failure is caught
    and only logged. *)
Definition merge_processed_files (parquet_ok : bool) (w : world)
  : world * option DataFrame :=
  let files := glob_processed w in
  let files := filter (fun f => contains "merged_dataset" f = false) files in
  if bool_decide (length files = 0%nat) then (print ErrorNoProcessed w, None) else
  let w1 := print (InfoFoundProcessed (length files)) w in
  let all_dfs :=
    imap (fun idx filepath =>
            assign_txt_const "flight_id" (Some (flight_id idx)) (read_csv w filepath))
         files in
  let w2 :=
    foldl (fun acc '(idx, filepath) => print (InfoLoaded filepath (flight_id idx)) acc)
          w1 (imap pair files) in
  let merged_df := sort_by_flight_time (concat all_dfs) in
  let w3 := print (InfoMerged OUTPUT_CSV) (to_csv OUTPUT_CSV merged_df w2) in
  let w4 :=
    if parquet_ok
    then print (InfoParquet OUTPUT_PARQUET) (to_csv OUTPUT_PARQUET merged_df w3)
    else print WarningParquet w3 in
  (w4, Some merged_df).

End Merge.

(* ===================================================================== *)
(** ** Vocabulary of the properties *)
(* ===================================================================== *)

#[global] Instance Q_eq_dec : EqDecision Q.
Proof. solve_decision. Defined.

#[global] Instance f64_eq_dec : EqDecision f64.
Proof. solve_decision. Defined.

#[global] Instance tcell_eq_dec : EqDecision tcell.
Proof. solve_decision. Defined.

(** *** Series *)

(** The value [safe_div] puts at a position holding [x] over [y]. *)
Definition safe_quotient (x y : f64) : f64 :=
  let q := F64.div x y in
  if F64.is_zero y || F64.is_nan q || F64.is_inf q then F64.zero else q.

(** A series without gaps, and a series that is one gap *)
Definition no_nan (s : list f64) : Prop := Forall (fun x => F64.is_nan x = false) s.
Definition all_nan (s : list f64) : Prop := Forall (fun x => F64.is_nan x = true) s.

(** The [delta_time] column, from the differences of the timestamps *)
Definition delta_time_of (deltas : list (option Z)) : list f64 :=
  replace_zero F64.one (fillna F64.one (map total_seconds deltas)).

(** *** Columns *)

Definition coordinate_cols : list string := ["latitude"; "longitude"; "baro_altitude"].

(** The fields built on a first difference, and all derived numeric fields *)
Definition difference_cols : list string :=
  ["delta_lat"; "delta_lon"; "delta_altitude"; "delta_velocity";
   "vx"; "vy"; "v_vertical"; "ax"; "ay"; "a_vertical"; "delta_heading"].

Definition derived_cols : list string := "delta_time" :: difference_cols.

(** *** Rows and timestamps *)

Definition is_stamp (t : tcell) : bool :=
  match t with TStamp _ => true | _ => false end.

(** A [time] cell that holds text that is not a number *)
Definition is_text (t : tcell) : bool :=
  match t with TText _ => true | _ => false end.

(** Timestamps that increase strictly from each row to the next *)
Definition stamps_increasing (ts : list tcell) : Prop :=
  forall (i : nat) (a b : Z),
    ts !! i = Some (TStamp a) -> ts !! S i = Some (TStamp b) -> (a < b)%Z.

(** The order [sort_values("time")] establishes between rows *)
Definition time_le (r1 r2 : row) : Prop := time_leb (time r1) (time r2) = true.

(** No earlier row of [l] is a duplicate of a later one. *)
Definition distinct_rows (cols : list string) (l : list row) : Prop :=
  StronglySorted (fun r r' => row_eqb cols r r' = false) l.

(** Is the first row a duplicate of the second? *)
Definition first_two_equal (df : DataFrame) : bool :=
  match rows df with
  | r1 :: r2 :: _ => row_eqb (columns df) r1 r2
  | _ => false
  end.

(** A row of a cleaned trajectory: the timestamp parsed and the three
    coordinates present *)
Definition essential_present (r : row) : Prop :=
  is_stamp (time r) = true /\
  Forall (fun c => F64.is_nan (numv c r) = false) coordinate_cols.

(** The presence check of STEP 2 on one row *)
Definition passes_presence_check (r : row) : Prop :=
  forallb (fun c => negb (isna_at r c)) essential_cols = true.

(** A [time] cell that [pd.to_datetime] coerces to NaT *)
Definition unparseable (t : tcell) : Prop := to_datetime_s t = TNaT.

(** [r'] is [r] up to the numeric cells of the columns [cs] *)
Definition row_agrees (cs : list string) (r r' : row) : Prop :=
  time r' = time r /\ txt r' = txt r /\
  forall c, c ∉ cs -> num r' !! c = num r !! c.

Definition rows_agree (cs : list string) (l l' : list row) : Prop :=
  Forall2 (row_agrees cs) l l'.

(** *** Stages of [preprocess_file] *)

(** The table as the first lines of STEP 1 and STEP 2 leave it: [velocity]
    added when absent, rows with a missing essential value dropped *)
Definition usable_rows (df : DataFrame) : DataFrame :=
  dropna essential_cols
    (if has_col "velocity" df then df else assign_num_const "velocity" F64.zero df).

(** The table [drop_duplicates] receives in STEP 2: the timestamps parsed,
    the rows whose timestamp did not parse dropped, the rest sorted *)
Definition parsed_sorted (df : DataFrame) : DataFrame :=
  sort_values_time (dropna ["time"] (map_time to_datetime_s df)).

(** STEP 4 as a whole, for the time differences [deltas] and the value [v]
    written to the [icao24] column *)
Definition enrich (deltas : list (option Z)) (v : option string) (df : DataFrame)
  : DataFrame :=
  assign_txt_const "icao24" v (add_delta_heading (add_features deltas df)).

(** *** Outcomes *)

Definition is_table (o : outcome) : bool :=
  match o with Table _ => true | _ => false end.

Definition is_raise (o : outcome) : bool :=
  match o with Raise _ => true | _ => false end.

(** [p] holds of the table a run returned *)
Definition returns (o : outcome) (p : DataFrame -> bool) : bool :=
  match o with Table df => p df | _ => false end.

(** Did the run end in the IndexError of [.iloc[0]]? *)
Definition is_index_error (o : outcome) : bool :=
  match o with Raise IndexError => true | _ => false end.

(** *** A second run *)

(** What [pd.read_csv] gives for a row that [to_csv(_, index=False)] wrote:
    a number comes back as the number written; a timestamp comes back as
    the text [to_csv] printed for it, since [read_csv] is called without
    [parse_dates]. *)
Definition read_back_row (r r' : row) : Prop :=
  (is_stamp (time r) = true -> is_text (time r') = true) /\
  forall c x, num r !! c = Some x -> numv c r' = x.

(** [back] is what [pd.read_csv] gives for the file [to_csv] wrote from
    [out]: the same columns, and the rows read back one by one. *)
Definition read_back (out back : DataFrame) : Prop :=
  columns back = columns out /\ Forall2 read_back_row (rows out) (rows back).

(** The table read from a file whose [time] fields read [texts], the other
    fields being those of [out] *)
Definition with_time_texts (texts : list string) (out : DataFrame) : DataFrame :=
  Frame (columns out) (zip_with (fun s r => set_time (TText s) r) texts (rows out)).

(** The [time] fields of the file written for the three samples ten seconds
    apart *)
Definition three_points_times : list string :=
  ["1970-01-01 00:00:00"; "1970-01-01 00:00:10"; "1970-01-01 00:00:20"].

(** *** The batch *)

(** The lines one file adds to the console *)
Definition entries_of (f : raw_file) : list log_entry :=
  match preprocess_file f with
  | Skip why => [Warning why; InfoSkipped (basename (path f))]
  | Table _ => [InfoSaved OUTPUT_CSV]
  | Raise _ => []
  end.

(** The table of the last file of the batch that was processed with success *)
Fixpoint last_table (files : list raw_file) : option DataFrame :=
  match files with
  | [] => None
  | f :: rest =>
      match last_table rest with
      | Some df => Some df
      | None => match preprocess_file f with Table df => Some df | _ => None end
      end
  end.

(* ===================================================================== *)
(** ** Sample inputs *)
(* ===================================================================== *)

(** A row of a raw table without text columns *)
Definition sample (t : tcell) (cells : list (string * f64)) : row :=
  Row t (list_to_map cells) ∅.

Definition track_cols : list string :=
  ["time"; "latitude"; "longitude"; "baro_altitude"; "velocity"].

(** A row with the five columns of [track_cols] *)
Definition point (t lat lon alt vel : f64) : row :=
  sample (TNum t)
    [("latitude", lat); ("longitude", lon); ("baro_altitude", alt); ("velocity", vel)].

(** A file of 200 bytes in the raw folder *)
Definition raw (name : string) (cols : list string) (l : list row) : raw_file :=
  RawFile (path_join RAW_DIR name) 200 (Some (Frame cols l)).

(** Three samples ten seconds apart *)
Definition three_points_file : raw_file :=
  raw "three.csv" track_cols
    [ point (F64.of_Z 0) (F64.of_Z 48) (F64.of_Z 2) (F64.of_Z 1000) (F64.of_Z 200);
      point (F64.of_Z 10) (F64.of_Z 49) (F64.of_Z 2) (F64.of_Z 1010) (F64.of_Z 210);
      point (F64.of_Z 20) (F64.of_Z 49) (F64.of_Z 4) (F64.of_Z 1000) (F64.of_Z 210) ].

(** Two samples half a second apart *)
Definition half_second_file : raw_file :=
  raw "half.csv" track_cols
    [ point F64.zero (F64.of_Z 48) (F64.of_Z 2) (F64.of_Z 1000) (F64.of_Z 200);
      point (Fin (1 # 2)) (F64.of_Z 48) (F64.of_Z 2) (F64.of_Z 1010) (F64.of_Z 200) ].

(** Two samples that differ in [velocity] only, the second one missing it *)
Definition twin_file : raw_file :=
  raw "twin.csv" track_cols
    [ point F64.zero F64.one F64.one F64.one (F64.of_Z 5);
      point F64.zero F64.one F64.one F64.one NaN ].

(** Three samples ten seconds apart, the second one without [latitude] *)
Definition latitude_gap_file : raw_file :=
  raw "latgap.csv" track_cols
    [ point (F64.of_Z 0) (F64.of_Z 1) (F64.of_Z 2) (F64.of_Z 1000) (F64.of_Z 200);
      point (F64.of_Z 10) NaN (F64.of_Z 2) (F64.of_Z 1000) (F64.of_Z 200);
      point (F64.of_Z 20) (F64.of_Z 3) (F64.of_Z 2) (F64.of_Z 1000) (F64.of_Z 200) ].

(** Three samples ten seconds apart, the second one without [velocity] *)
Definition velocity_gap_file : raw_file :=
  raw "velgap.csv" track_cols
    [ point (F64.of_Z 0) (F64.of_Z 48) (F64.of_Z 2) (F64.of_Z 1000) (F64.of_Z 1);
      point (F64.of_Z 10) (F64.of_Z 48) (F64.of_Z 2) (F64.of_Z 1000) NaN;
      point (F64.of_Z 20) (F64.of_Z 48) (F64.of_Z 2) (F64.of_Z 1000) (F64.of_Z 3) ].

(** One complete sample whose [time] field reads "corrupt", in a file
    without an [icao24] column *)
Definition unparsed_table : DataFrame :=
  Frame track_cols
    [ sample (TText "corrupt")
        [("latitude", F64.of_Z 48); ("longitude", F64.of_Z 2);
         ("baro_altitude", F64.of_Z 1000); ("velocity", F64.of_Z 200)] ].

Definition unparsed_file : raw_file :=
  RawFile (path_join RAW_DIR "unparsed.csv") 200 (Some unparsed_table).

(** The same sample in a file that has the [icao24] column the loader adds *)
Definition unparsed_icao_table : DataFrame :=
  Frame (track_cols ++ ["icao24"])
    [ Row (TText "corrupt")
          (list_to_map [("latitude", F64.of_Z 48); ("longitude", F64.of_Z 2);
                        ("baro_altitude", F64.of_Z 1000); ("velocity", F64.of_Z 200)])
          {["icao24" := "3c4b26"]} ].

Definition unparsed_icao_file : raw_file :=
  RawFile (path_join RAW_DIR "3c4b26_track.csv") 200 (Some unparsed_icao_table).

(** A file of five bytes *)
Definition empty_file : raw_file := RawFile (path_join RAW_DIR "empty.csv") 5 None.

(** An empty [data/] folder and an empty console *)
Definition fresh : world := World ∅ [].

(** A world whose processed folder holds an earlier merged data set only *)
Definition only_merged : world :=
  World {[ Merge.OUTPUT_CSV := Frame ["time"; "flight_id"] [] ]} [].


(* ===================================================================== *)
(** ** Vocabulary of the further properties *)
(* ===================================================================== *)

(** *** [preprocess_file] and [preprocess_all] *)

(** The velocity and acceleration fields *)
Definition rate_cols : list string :=
  ["vx"; "vy"; "v_vertical"; "ax"; "ay"; "a_vertical"].

(** The fields that are a first difference of a column *)
Definition delta_cols : list string :=
  ["delta_lat"; "delta_lon"; "delta_altitude"; "delta_velocity"; "delta_heading"].

(** A [time] cell that holds a number of seconds from 1970-01-01 00:00:00
    to 2262-04-11 23:47:16, the last whole second of the [datetime64[ns]]
    range *)
Definition since_epoch (t : tcell) : bool :=
  match t with
  | TNum (Fin q) => Qle_bool 0 q && Qle_bool q (9223372036 # 1)
  | _ => false
  end.

(** A file that [preprocess_file] skips *)
Definition is_skip (o : outcome) : bool :=
  match o with Skip _ => true | _ => false end.

(** *** [merge_processed_files] *)







(** *** Sample inputs *)




(* ===================================================================== *)
(** ** [auth.py] and [trajectory_loader.py] *)
(* ===================================================================== *)

(** The loader talks to a token endpoint and to the track endpoint, reads
    the clock and sleeps.  The outside world is a script: what the n-th POST
    and the n-th GET are answered with and what the n-th reading of the clock
    gives; the functions thread a state that counts the calls made, and an
    exception ends a call with the state reached.  Responses with status 200
    are assumed to carry JSON (a body that does not parse is not modelled).
    [save_track], which formats a cell and the wall clock into a file name,
    is left out. *)

Module Loader.

Inductive json : Type :=
| JNull
| JBool (b : bool)
| JNum (x : f64)
| JStr (s : string).

(** The answer to [requests.post(AUTH_URL, ...)]: the status code and the
    field [access_token] of the JSON body, or a [RequestException]. *)
Inductive token_reply : Type :=
| TokenReply (status_code : Z) (access_token : option string)
| PostFailed.

(** The answer to [requests.get(endpoint, ...)]: the status code and what
    the JSON body holds under "path" ([None]: no such key), or a
    [RequestException] (timeout, connection error). *)
Inductive response : Type :=
| Reply (status_code : Z) (path : option (list (list json)))
| GetFailed.

Inductive error : Type :=
| ValueError           (* credentials missing from the environment *)
| TokenRequestFailed (status_code : Z)
| KeyError             (* no "access_token" in the reply *)
| RequestException
| LengthMismatch.      (* the ValueError of [df.columns = ...] *)

Record network : Type := Network {
  client_id : option string;       (* os.environ.get("OPEN_SKY_CLIENT_ID") *)
  client_secret : option string;
  post_reply : nat -> token_reply;
  get_reply : nat -> response;
  clock : nat -> Q                 (* time.time() *)
}.

Inductive line : Type :=
| NewToken
| Requesting (icao24 : string) (timestamp : Z)
| Unauthorized
| NoTrack (icao24 : string) (timestamp : Z)
| ErrorStatus (status_code : Z)
| NoData (icao24 : string)
| ErrorAttempt (attempt : nat)
| Failed (icao24 : string) (retries : Z).

(** The fields of [OpenSkyClient]; [headers] is the token of the
    Authorization header, [None] for the empty dictionary. *)
Record OpenSkyClient : Type := Client {
  token : option string;
  token_time : Q;
  token_ttl : Q;
  headers : option string
}.

Record state : Type := State {
  self : OpenSkyClient;
  posts : nat;           (* POST requests made *)
  gets : nat;            (* GET requests made *)
  readings : nat;        (* readings of the clock *)
  slept : Z;             (* seconds spent in [time.sleep] *)
  console : list line
}.

(** [OpenSkyClient.__init__] *)
Definition init : OpenSkyClient := Client None 0 600 None.

(** A computation returns a value or raises, and leaves a state. *)
Definition M (A : Type) : Type := state -> (A + error) * state.

Definition ret {A} (a : A) : M A := fun s => (inl a, s).

Definition raise {A} (e : error) : M A := fun s => (inr e, s).

Definition bind {A B} (m : M A) (k : A -> M B) : M B :=
  fun s => match m s with
           | (inl a, s') => k a s'
           | (inr e, s') => (inr e, s')
           end.

#[global] Instance M_ret : MRet M := @ret.
#[global] Instance M_bind : MBind M := fun A B k m => bind m k.

(** [try: m except RequestException: handler] *)
Definition catch_request {A} (m : M A) (handler : M A) : M A :=
  fun s => match m s with
           | (inr RequestException, s') => handler s'
           | r => r
           end.

Definition print (l : line) : M unit :=
  fun s => (inl tt, State (self s) (posts s) (gets s) (readings s) (slept s)
                          (console s ++ [l])).

Definition sleep (seconds : Z) : M unit :=
  fun s => (inl tt, State (self s) (posts s) (gets s) (readings s)
                          (slept s + seconds) (console s)).

Definition time_time (net : network) : M Q :=
  fun s => (inl (clock net (readings s)),
            State (self s) (posts s) (gets s) (S (readings s)) (slept s) (console s)).

Definition requests_post (net : network) : M token_reply :=
  fun s => (inl (post_reply net (posts s)),
            State (self s) (S (posts s)) (gets s) (readings s) (slept s) (console s)).

Definition requests_get (net : network) : M response :=
  fun s => (inl (get_reply net (gets s)),
            State (self s) (posts s) (S (gets s)) (readings s) (slept s) (console s)).

Definition get_self : M OpenSkyClient := fun s => (inl (self s), s).

Definition set_self (c : OpenSkyClient) : M unit :=
  fun s => (inl tt, State c (posts s) (gets s) (readings s) (slept s) (console s)).

(** Truth value of an optional string: [None] and "" are false. *)
Definition truthy (v : option string) : bool :=
  match v with
  | Some (String _ _) => true
  | _ => false
  end.

(** [auth.get_access_token] *)
Definition get_access_token (net : network) : M string :=
  if negb (truthy (client_id net)) || negb (truthy (client_secret net))
  then raise ValueError
  else
    response ← requests_post net;
    match response with
    | PostFailed => raise RequestException
    | TokenReply status_code access_token =>
        if negb (status_code =? 200)%Z then raise (TokenRequestFailed status_code)
        else match access_token with
             | Some t => ret t
             | None => raise KeyError
             end
    end.

(** [OpenSkyClient._ensure_token] *)
Definition _ensure_token (net : network) : M unit :=
  now ← time_time net;
  c ← get_self;
  if negb (truthy (token c)) ||
     negb (Qle_bool (now - token_time c) (token_ttl c - 10))
  then
    t ← get_access_token net;
    set_self (Client (Some t) now (token_ttl c) (Some t));;
    print NewToken
  else ret tt.

Definition columns_expected : list string :=
  ["time"; "latitude"; "longitude"; "baro_altitude";
   "heading"; "on_ground"; "velocity"; "vertical_rate"; "sensors"].

(** The table [get_track] returns: the column names and the rows. *)
Record Track : Type := MkTrack {
  columns : list string;
  rows : list (list json)
}.

(** [df.shape[1]] of [pd.DataFrame(path)]: the length of the longest
    waypoint; shorter ones are filled up with missing values. *)
Definition width (path : list (list json)) : nat :=
  foldr Nat.max 0%nat (map (@length json) path).

Definition pad (k : nat) (waypoint : list json) : list json :=
  waypoint ++ replicate (k - length waypoint) JNull.

(** [df = pd.DataFrame(data["path"])] up to [return df] *)
Definition make_track (icao24 : string) (path : list (list json)) : M (option Track) :=
  let k := width path in
  if (length (take k columns_expected) =? k)%nat
  then ret (Some (MkTrack (take k columns_expected ++ ["icao24"])
                          (map (fun wp => pad k wp ++ [JStr icao24]) path)))
  else raise LengthMismatch.

(** The [for attempt in range(1, retries + 1)] loop of [get_track] with the
    lines after it; [n] attempts are left. *)
Fixpoint attempts (net : network) (icao24 : string) (timestamp retries : Z)
    (attempt n : nat) : M (option Track) :=
  match n with
  | O => print (Failed icao24 retries);; ret None
  | S n' =>
      response ← requests_get net;
      match response with
      | GetFailed =>
          print (ErrorAttempt attempt);; sleep 2;;
          attempts net icao24 timestamp retries (S attempt) n'
      | Reply status_code path =>
          if (status_code =? 401)%Z then
            catch_request
              (print Unauthorized;;
               c ← get_self;
               set_self (Client None (token_time c) (token_ttl c) (headers c));;
               _ensure_token net)
              (print (ErrorAttempt attempt);; sleep 2);;
            attempts net icao24 timestamp retries (S attempt) n'
          else if (status_code =? 404)%Z then
            print (NoTrack icao24 timestamp);; ret None
          else if negb (status_code =? 200)%Z then
            print (ErrorStatus status_code);; ret None
          else
            match path with
            | None | Some [] => print (NoData icao24);; ret None
            | Some waypoints => make_track icao24 waypoints
            end
      end
  end.

(** [OpenSkyClient.get_track] *)
Definition get_track (net : network) (icao24 : string) (timestamp : Z) (retries : Z)
  : M (option Track) :=
  _ensure_token net;;
  print (Requesting icao24 timestamp);;
  attempts net icao24 timestamp retries 1 (Z.to_nat retries).

(** [OpenSkyClient.get_tracks_batch]: the inner loop, then the outer one;
    [results] is the list built so far. *)
Fixpoint for_timestamps (net : network) (icao : string) (timestamps : list Z)
    (results : list Track) : M (list Track) :=
  match timestamps with
  | [] => ret results
  | ts :: rest =>
      df ← get_track net icao ts 3;
      for_timestamps net icao rest
        (match df with Some t => results ++ [t] | None => results end)
  end.

Fixpoint for_icao24 (net : network) (icao24_list : list string) (timestamps : list Z)
    (results : list Track) : M (list Track) :=
  match icao24_list with
  | [] => ret results
  | icao :: rest =>
      results' ← for_timestamps net icao timestamps results;
      for_icao24 net rest timestamps results'
  end.

Definition get_tracks_batch (net : network) (icao24_list : list string)
    (timestamps : list Z) : M (list Track) :=
  for_icao24 net icao24_list timestamps [].

End Loader.

(* ===================================================================== *)
(** ** Vocabulary of the loader's properties *)
(* ===================================================================== *)

(** Both credentials are set and not empty. *)
Definition has_credentials (net : Loader.network) : bool :=
  Loader.truthy (Loader.client_id net) && Loader.truthy (Loader.client_secret net).

(** The client holds a token that, at the next reading of the clock, is not
    older than its lifetime less ten seconds. *)
Definition token_fresh (net : Loader.network) (s : Loader.state) : bool :=
  Loader.truthy (Loader.token (Loader.self s)) &&
  Qle_bool (Loader.clock net (Loader.readings s) - Loader.token_time (Loader.self s))
           (Loader.token_ttl (Loader.self s) - 10).

(** The state after a reading of the clock, after a POST, after a GET, after
    a line was printed *)
Definition after_reading (s : Loader.state) : Loader.state :=
  Loader.State (Loader.self s) (Loader.posts s) (Loader.gets s)
               (S (Loader.readings s)) (Loader.slept s) (Loader.console s).

Definition after_post (s : Loader.state) : Loader.state :=
  Loader.State (Loader.self s) (S (Loader.posts s)) (Loader.gets s)
               (Loader.readings s) (Loader.slept s) (Loader.console s).

Definition after_get (s : Loader.state) : Loader.state :=
  Loader.State (Loader.self s) (Loader.posts s) (S (Loader.gets s))
               (Loader.readings s) (Loader.slept s) (Loader.console s).

Definition logged (l : Loader.line) (s : Loader.state) : Loader.state :=
  Loader.State (Loader.self s) (Loader.posts s) (Loader.gets s)
               (Loader.readings s) (Loader.slept s) (Loader.console s ++ [l]).

(** The state after an attempt whose GET raised: the request was made, the
    error printed, two seconds slept *)
Definition after_failure (attempt : nat) (s : Loader.state) : Loader.state :=
  Loader.State (Loader.self s) (Loader.posts s) (S (Loader.gets s))
               (Loader.readings s) (Loader.slept s + 2)
               (Loader.console s ++ [Loader.ErrorAttempt attempt]).

(** ... and after [j] such attempts in a row, the first one numbered
    [attempt] *)
Fixpoint after_failures (attempt j : nat) (s : Loader.state) : Loader.state :=
  match j with
  | O => s
  | S j' => after_failures (S attempt) j' (after_failure attempt s)
  end.

(** From [s] to [s'] at most [g] GET requests and [p] POST requests were
    made and at most [z] seconds slept. *)
Definition within (g p : nat) (z : Z) (s s' : Loader.state) : Prop :=
  (Loader.gets s <= Loader.gets s' <= Loader.gets s + g)%nat /\
  (Loader.posts s <= Loader.posts s' <= Loader.posts s + p)%nat /\
  (Loader.slept s <= Loader.slept s' <= Loader.slept s + z)%Z.

(** The table made of the waypoints [path] for the aircraft [icao24] *)
Definition track_of (icao24 : string) (path : list (list Loader.json)) : Loader.Track :=
  Loader.MkTrack
    (take (Loader.width path) Loader.columns_expected ++ ["icao24"])
    (map (fun wp => Loader.pad (Loader.width path) wp ++ [Loader.JStr icao24]) path).

(** *** Sample networks *)

(** A network with credentials whose token endpoint grants [t] each time and
    whose clock advances by one second per reading *)
Definition granting (t : string) (replies : nat -> Loader.response) : Loader.network :=
  Loader.Network (Some "id") (Some "secret")
                 (fun _ => Loader.TokenReply 200 (Some t)) replies
                 (fun n => Z.of_nat n # 1).

(** A new client that has made no call *)
Definition start : Loader.state := Loader.State Loader.init 0 0 0 0 [].

(** Two waypoints as the track endpoint sends them: time, latitude,
    longitude, altitude, heading, on the ground *)
Definition two_waypoints : list (list Loader.json) :=
  [ [Loader.JNum (F64.of_Z 0); Loader.JNum (F64.of_Z 48); Loader.JNum (F64.of_Z 2);
     Loader.JNum (F64.of_Z 1000); Loader.JNum (F64.of_Z 90); Loader.JBool false];
    [Loader.JNum (F64.of_Z 10); Loader.JNum (F64.of_Z 49); Loader.JNum (F64.of_Z 2);
     Loader.JNull; Loader.JNum (F64.of_Z 91); Loader.JBool false] ].

(** The replies [l], then 404 for ever *)
Definition replies (l : list Loader.response) (n : nat) : Loader.response :=
  default (Loader.Reply 404 None) (l !! n).

(* ===================================================================== *)
(** * Properties *)
(* ===================================================================== *)

(** ** Series helpers *)

Lemma lookup_map {A B} (f : A -> B) (l : list A) (i : nat) :
  map f l !! i = f <$> (l !! i).
Proof. revert i. induction l as [|a l IH]; intros [|i]; simpl; auto. Qed.

Lemma lookup_series_div (a b : list f64) (i : nat) (x y : f64) :
  a !! i = Some x -> b !! i = Some y ->
  series_div a b !! i = Some (F64.div x y).
Proof.
  revert b i. induction a as [|x' a IH]; intros [|y' b] [|i] Ha Hb;
    simplify_eq/=; auto.
Qed.

Lemma length_series_div (a b : list f64) :
  length a = length b -> length (series_div a b) = length a.
Proof.
  revert b. induction a as [|x a IH]; intros [|y b] E; simplify_eq/=; auto.
Qed.

Lemma length_fillna v s : length (fillna v s) = length s.
Proof. apply length_map. Qed.

Lemma length_replace_zero v s : length (replace_zero v s) = length s.
Proof. apply length_map. Qed.

Lemma length_replace_inf v s : length (replace_inf v s) = length s.
Proof. apply length_map. Qed.

Lemma length_safe_div (a b : list f64) :
  length a = length b -> length (safe_div a b) = length a.
Proof.
  intros E. unfold safe_div.
  rewrite length_fillna, length_replace_inf, length_series_div; auto.
  now rewrite length_replace_zero.
Qed.

Lemma div_nan_r (x : f64) : F64.div x NaN = NaN.
Proof. now destruct x. Qed.

Lemma lookup_safe_div (a b : list f64) (i : nat) (x y : f64) :
  a !! i = Some x -> b !! i = Some y ->
  safe_div a b !! i = Some (safe_quotient x y).
Proof.
  intros Ha Hb. unfold safe_div, fillna, replace_inf, replace_zero.
  rewrite !lookup_map.
  erewrite lookup_series_div; [| exact Ha | rewrite lookup_map, Hb; reflexivity].
  simpl. f_equal. unfold safe_quotient.
  destruct (F64.is_zero y) eqn:Hz; simpl.
  - now rewrite div_nan_r.
  - destruct (F64.div x y); reflexivity.
Qed.

Lemma safe_quotient_finite (x y : f64) :
  F64.is_nan (safe_quotient x y) = false /\ F64.is_inf (safe_quotient x y) = false.
Proof.
  unfold safe_quotient.
  destruct (F64.is_zero y); simpl; auto.
  destruct (F64.div x y); simpl; auto.
Qed.

(** C1. [safe_div] is total and elementwise: on two series of equal length
    the result has that length, and the entry at a position holding [x] over
    [y] is 0 when [y] is exactly 0 (also for [x = 0]), is 0 when the quotient
    is infinite or undefined, is the quotient otherwise, and is never NaN or
    infinite. *)
Theorem safe_div_total (numerator denominator : list f64) :
  length numerator = length denominator ->
  length (safe_div numerator denominator) = length numerator /\
  forall (i : nat) (x y : f64),
    numerator !! i = Some x -> denominator !! i = Some y ->
    exists r,
      safe_div numerator denominator !! i = Some r /\
      (F64.is_zero y = true -> r = F64.zero) /\
      (F64.is_nan (F64.div x y) || F64.is_inf (F64.div x y) = true -> r = F64.zero) /\
      (F64.is_zero y = false -> F64.is_finite (F64.div x y) = true -> r = F64.div x y) /\
      F64.is_nan r = false /\ F64.is_inf r = false.
Proof.
  intros E. split; [now apply length_safe_div|].
  intros i x y Hx Hy. exists (safe_quotient x y).
  split; [now apply lookup_safe_div|].
  pose proof (safe_quotient_finite x y) as [Hn Hi].
  repeat split; auto; unfold safe_quotient.
  - now intros ->.
  - intros H. destruct (F64.is_zero y); simpl; auto. now rewrite H.
  - intros -> Hf. simpl. now destruct (F64.div x y).
Qed.

Lemma safe_div_total_witness :
  exists r,
    safe_div [F64.zero; F64.one; PInf] [F64.zero; F64.zero; PInf] !! 0%nat = Some r /\
    r = F64.zero.
Proof.
  destruct (safe_div_total [F64.zero; F64.one; PInf] [F64.zero; F64.zero; PInf]
              eq_refl) as [_ H].
  destruct (H 0%nat F64.zero F64.zero eq_refl eq_refl) as (r & Hr & Hz & _).
  exists r. split; [exact Hr | apply Hz; reflexivity].
Defined.

(** ** Lengths *)

Lemma length_series_div_max (a b : list f64) :
  length (series_div a b) = Nat.max (length a) (length b).
Proof.
  revert b. induction a as [|x a IH]; intros [|y b]; simpl; auto.
  - now rewrite length_map.
  - now rewrite length_map.
Qed.

Lemma length_safe_div_max (a b : list f64) :
  length (safe_div a b) = Nat.max (length a) (length b).
Proof.
  unfold safe_div.
  now rewrite length_fillna, length_replace_inf, length_series_div_max,
    length_replace_zero.
Qed.

Lemma length_diff_from p s : length (diff_from p s) = length s.
Proof. revert p. induction s; intros; simpl; auto. Qed.

Lemma length_series_diff s : length (series_diff s) = length s.
Proof. destruct s; simpl; auto. now rewrite length_diff_from. Qed.

Lemma length_safe_diff s : length (safe_diff s) = length s.
Proof. unfold safe_diff. now rewrite length_fillna, length_series_diff. Qed.

Lemma length_series_scale k s : length (series_scale k s) = length s.
Proof. apply length_map. Qed.

Lemma length_num_col c df : length (num_col c df) = length (rows df).
Proof. apply length_map. Qed.

Lemma length_time_col df : length (time_col df) = length (rows df).
Proof. apply length_map. Qed.

Lemma length_rows_assign_num c s df :
  length (rows (assign_num c s df)) = length (rows df).
Proof.
  unfold assign_num; simpl. rewrite length_zip_with, length_resize. lia.
Qed.

Lemma length_rows_assign_num_const c v df :
  length (rows (assign_num_const c v df)) = length (rows df).
Proof. apply length_map. Qed.

Lemma length_rows_assign_txt_const c v df :
  length (rows (assign_txt_const c v df)) = length (rows df).
Proof. apply length_map. Qed.

Create Rewrite HintDb len.
#[export] Hint Rewrite length_safe_div_max length_safe_diff length_series_scale
  length_num_col length_time_col length_rows_assign_num
  length_rows_assign_num_const length_rows_assign_txt_const
  length_fillna length_replace_zero length_replace_inf
  @length_map Nat.max_id : len.

Ltac in_list :=
  solve [repeat first [apply list_elem_of_here | apply list_elem_of_further]].

Ltac len := autorewrite with len; try reflexivity; try lia.

(** ** Reading a column after an assignment *)

Lemma numv_set_numv_eq c v r : numv c (set_numv c v r) = v.
Proof. unfold numv, set_numv; simpl. now rewrite lookup_insert_eq. Qed.

Lemma numv_set_numv_ne c c' v r : c <> c' -> numv c (set_numv c' v r) = numv c r.
Proof. intros. unfold numv, set_numv; simpl. now rewrite lookup_insert_ne. Qed.

Lemma num_col_assign_num_eq c s df :
  length s = length (rows df) -> num_col c (assign_num c s df) = s.
Proof.
  unfold num_col, assign_num; simpl. intros E.
  rewrite resize_all_alt by auto.
  revert s E. induction (rows df) as [|r l IH]; intros [|x s] E;
    simplify_eq/=; auto.
  rewrite numv_set_numv_eq. f_equal. auto.
Qed.

Lemma num_col_assign_num_ne c c' s df :
  c <> c' -> num_col c (assign_num c' s df) = num_col c df.
Proof.
  unfold num_col, assign_num; simpl. intros Hc.
  assert (E : length (resize (length (rows df)) NaN s) = length (rows df))
    by apply length_resize.
  revert E. generalize (resize (length (rows df)) NaN s).
  induction (rows df) as [|r l IH]; intros [|x s'] E; simplify_eq/=; auto.
  rewrite numv_set_numv_ne by auto. f_equal. auto.
Qed.

Lemma num_col_assign_num_const_eq c v df :
  num_col c (assign_num_const c v df) = map (fun _ => v) (rows df).
Proof.
  unfold num_col, assign_num_const; simpl. rewrite map_map.
  apply map_ext. intros. apply numv_set_numv_eq.
Qed.

Lemma num_col_assign_num_const_ne c c' v df :
  c <> c' -> num_col c (assign_num_const c' v df) = num_col c df.
Proof.
  intros. unfold num_col, assign_num_const; simpl. rewrite map_map.
  apply map_ext. intros. now apply numv_set_numv_ne.
Qed.

Lemma num_col_assign_txt_const c c' v df :
  num_col c (assign_txt_const c' v df) = num_col c df.
Proof.
  unfold num_col, assign_txt_const; simpl. rewrite map_map.
  apply map_ext. intros. reflexivity.
Qed.

Lemma time_col_assign_num c s df : time_col (assign_num c s df) = time_col df.
Proof.
  unfold time_col, assign_num; simpl.
  assert (E : length (resize (length (rows df)) NaN s) = length (rows df))
    by apply length_resize.
  revert E. generalize (resize (length (rows df)) NaN s).
  induction (rows df) as [|r l IH]; intros [|x s'] E; simplify_eq/=; auto.
  f_equal. auto.
Qed.

Lemma time_col_assign_num_const c v df :
  time_col (assign_num_const c v df) = time_col df.
Proof.
  unfold time_col, assign_num_const; simpl. rewrite map_map. now apply map_ext.
Qed.

Lemma time_col_assign_txt_const c v df :
  time_col (assign_txt_const c v df) = time_col df.
Proof.
  unfold time_col, assign_txt_const; simpl. rewrite map_map. now apply map_ext.
Qed.

Lemma length_rows_with_column c f df :
  length (rows (with_column c f df)) = length (rows df).
Proof. apply length_rows_assign_num. Qed.

#[export] Hint Rewrite length_rows_with_column : len.

Lemma num_col_with_column_eq c f df :
  length (f df) = length (rows df) -> num_col c (with_column c f df) = f df.
Proof. apply num_col_assign_num_eq. Qed.

Lemma num_col_with_column_ne c c' f df :
  c <> c' -> num_col c (with_column c' f df) = num_col c df.
Proof. apply num_col_assign_num_ne. Qed.

Lemma time_col_with_column c f df : time_col (with_column c f df) = time_col df.
Proof. apply time_col_assign_num. Qed.

Ltac frame :=
  repeat first
    [ rewrite num_col_assign_txt_const
    | rewrite num_col_with_column_ne by discriminate
    | rewrite num_col_assign_num_ne by discriminate
    | rewrite num_col_assign_num_const_ne by discriminate
    | rewrite num_col_with_column_eq by len
    | rewrite num_col_assign_num_eq by len
    | rewrite time_col_with_column
    | rewrite time_col_assign_num
    | rewrite time_col_assign_num_const
    | rewrite time_col_assign_txt_const ].

Lemma map_const {A B} (b : B) (l : list A) :
  map (fun _ => b) l = replicate (length l) b.
Proof. induction l; simpl; congruence. Qed.

(** ** The shape of a successful run *)

Lemma time_diff_from_length p s ds :
  time_diff_from p s = Some ds -> length ds = length s.
Proof.
  revert p ds. induction s as [|t s IH]; intros p ds H; simplify_eq/=; auto.
  destruct (stamp_sub t p); simplify_eq/=.
  destruct (time_diff_from t s) eqn:E; simplify_eq/=.
  f_equal. eauto.
Qed.

Lemma time_diff_length s ds : time_diff s = Some ds -> length ds = length s.
Proof.
  destruct s as [|t s]; intros H; simplify_eq/=; auto.
  destruct (time_diff_from t s) eqn:E; simplify_eq/=.
  f_equal. eauto using time_diff_from_length.
Qed.

Lemma time_diff_head s ds d : time_diff s = Some ds -> ds !! 0%nat = Some d -> d = None.
Proof.
  destruct s as [|t s]; intros H; simplify_eq/=; [easy|].
  destruct (time_diff_from t s); simplify_eq/=. congruence.
Qed.

Lemma set_icao24_Table df out :
  set_icao24 df = Table out -> exists v, out = assign_txt_const "icao24" v df.
Proof.
  unfold set_icao24. destruct (has_col "icao24" df).
  - destruct (rows df) as [|r l]; intros H; simplify_eq. eauto.
  - intros H; simplify_eq. eauto.
Qed.

Lemma derive_Table df out :
  derive df = Table out ->
  exists deltas v,
    time_diff (time_col df) = Some deltas /\ length deltas = length (rows df) /\
    out = enrich deltas v df.
Proof.
  unfold derive. destruct (time_diff (time_col df)) as [deltas|] eqn:E; [|easy].
  intros [v ->]%set_icao24_Table. exists deltas, v. repeat split.
  apply time_diff_length in E. now rewrite length_time_col in E.
Qed.

Lemma preprocess_file_Table f out :
  preprocess_file f = Table out ->
  exists df cleaned,
    (10 <= size f)%Z /\ csv f = Some df /\ clean df = inl cleaned /\
    derive cleaned = Table out.
Proof.
  unfold preprocess_file. destruct (size f <? 10)%Z eqn:Hs; [easy|].
  destruct (csv f) as [df|]; [|easy].
  destruct (clean df) as [cleaned|why] eqn:Hc; [|easy].
  destruct (to_datetime_overflows df); [easy|].
  intros H. exists df, cleaned. repeat split; auto. lia.
Qed.

(** The conversion of the [time] column raises on an infinite value of a
    row that misses no essential value, and only there. *)
Lemma to_datetime_overflows_false df :
  (forall r, r ∈ rows df -> passes_presence_check r ->
             to_datetime_raises (time r) = false) ->
  to_datetime_overflows df = false.
Proof.
  intros H. apply not_true_iff_false. unfold to_datetime_overflows, dropna.
  cbn [rows]. intros (r & Hin & Hr)%existsb_exists.
  apply list_elem_of_In, list_elem_of_filter in Hin as [Hp Hin].
  rewrite (H r Hin Hp) in Hr. discriminate Hr.
Qed.

(** ** The derived columns in terms of the cleaned table *)

Ltac features :=
  unfold enrich, add_delta_heading;
  try match goal with |- context [has_col "heading" ?d] => destruct (has_col "heading" d) end;
  unfold add_features, feature_steps; cbn [foldl]; frame.

Section Features.
Variable deltas : list (option Z).
Variable v : option string.
Variable df : DataFrame.
Hypothesis deltas_length : length deltas = length (rows df).

Lemma length_rows_enrich : length (rows (enrich deltas v df)) = length (rows df).
Proof. features; len. Qed.

Lemma time_col_enrich : time_col (enrich deltas v df) = time_col df.
Proof. features; reflexivity. Qed.

Lemma base_col_enrich c :
  c ∈ numeric_cols -> num_col c (enrich deltas v df) = num_col c df.
Proof.
  unfold numeric_cols. rewrite !elem_of_cons, elem_of_nil.
  intros [->|[->|[->|[->|[]]]]]; features; reflexivity.
Qed.

Lemma delta_time_enrich : num_col "delta_time" (enrich deltas v df) = delta_time_of deltas.
Proof. features; reflexivity. Qed.

Lemma delta_lat_enrich :
  num_col "delta_lat" (enrich deltas v df) = safe_diff (num_col "latitude" df).
Proof. features; reflexivity. Qed.

Lemma delta_lon_enrich :
  num_col "delta_lon" (enrich deltas v df) = safe_diff (num_col "longitude" df).
Proof. features; reflexivity. Qed.

Lemma delta_altitude_enrich :
  num_col "delta_altitude" (enrich deltas v df) = safe_diff (num_col "baro_altitude" df).
Proof. features; reflexivity. Qed.

Lemma delta_velocity_enrich :
  num_col "delta_velocity" (enrich deltas v df) = safe_diff (num_col "velocity" df).
Proof. features; reflexivity. Qed.

Lemma delta_heading_enrich :
  num_col "delta_heading" (enrich deltas v df) =
  if has_col "heading" (add_features deltas df)
  then safe_diff (num_col "heading" df)
  else map (fun _ => F64.zero) (rows df).
Proof.
  unfold enrich, add_delta_heading.
  destruct (has_col "heading" (add_features deltas df)).
  - unfold add_features, feature_steps; cbn [foldl]. now frame.
  - rewrite num_col_assign_txt_const, num_col_assign_num_const_eq.
    rewrite !map_const. f_equal.
    unfold add_features, feature_steps; cbn [foldl]. len.
Qed.

Lemma vx_enrich :
  num_col "vx" (enrich deltas v df) =
  safe_div (series_scale DEG_TO_M (num_col "delta_lon" (enrich deltas v df)))
           (num_col "delta_time" (enrich deltas v df)).
Proof. features; reflexivity. Qed.

Lemma vy_enrich :
  num_col "vy" (enrich deltas v df) =
  safe_div (series_scale DEG_TO_M (num_col "delta_lat" (enrich deltas v df)))
           (num_col "delta_time" (enrich deltas v df)).
Proof. features; reflexivity. Qed.

Lemma v_vertical_enrich :
  num_col "v_vertical" (enrich deltas v df) =
  safe_div (num_col "delta_altitude" (enrich deltas v df))
           (num_col "delta_time" (enrich deltas v df)).
Proof. features; reflexivity. Qed.

Lemma ax_enrich :
  num_col "ax" (enrich deltas v df) =
  safe_div (safe_diff (num_col "vx" (enrich deltas v df)))
           (num_col "delta_time" (enrich deltas v df)).
Proof. features; reflexivity. Qed.

Lemma ay_enrich :
  num_col "ay" (enrich deltas v df) =
  safe_div (safe_diff (num_col "vy" (enrich deltas v df)))
           (num_col "delta_time" (enrich deltas v df)).
Proof. features; reflexivity. Qed.

Lemma a_vertical_enrich :
  num_col "a_vertical" (enrich deltas v df) =
  safe_div (safe_diff (num_col "v_vertical" (enrich deltas v df)))
           (num_col "delta_time" (enrich deltas v df)).
Proof. features; reflexivity. Qed.

End Features.

(** ** Column names *)

Lemma elem_of_add_col c c' cols : c' ∈ add_col c cols <-> c' = c \/ c' ∈ cols.
Proof.
  unfold add_col. case_bool_decide.
  - split; [auto|]. now intros [->|].
  - rewrite elem_of_app, list_elem_of_singleton. tauto.
Qed.

Lemma columns_with_column c f df : columns (with_column c f df) = add_col c (columns df).
Proof. reflexivity. Qed.

Lemma columns_add_features deltas df c :
  c ∈ columns (add_features deltas df) <->
  c ∈ ["delta_time"; "delta_lat"; "delta_lon"; "delta_altitude"; "delta_velocity";
       "vx"; "vy"; "v_vertical"; "ax"; "ay"; "a_vertical"] \/ c ∈ columns df.
Proof.
  unfold add_features, feature_steps; cbn [foldl].
  rewrite !columns_with_column, !elem_of_add_col, !elem_of_cons, elem_of_nil.
  tauto.
Qed.

Lemma columns_assign_num c s df : columns (assign_num c s df) = add_col c (columns df).
Proof. reflexivity. Qed.

Lemma columns_assign_num_const c v df :
  columns (assign_num_const c v df) = add_col c (columns df).
Proof. reflexivity. Qed.

Lemma columns_assign_txt_const c v df :
  columns (assign_txt_const c v df) = add_col c (columns df).
Proof. reflexivity. Qed.

Lemma columns_enrich deltas v df c :
  c ∈ columns (enrich deltas v df) <->
  c = "icao24" \/ c ∈ derived_cols \/ c ∈ columns df.
Proof.
  unfold enrich, add_delta_heading.
  rewrite columns_assign_txt_const, elem_of_add_col.
  destruct (has_col "heading" (add_features deltas df));
    [rewrite columns_assign_num | rewrite columns_assign_num_const];
    rewrite elem_of_add_col, columns_add_features;
    unfold derived_cols, difference_cols;
    rewrite !elem_of_cons, !elem_of_nil; tauto.
Qed.

(** ** The first row of the derived columns *)

Lemma safe_diff_first s x : safe_diff s !! 0%nat = Some x -> x = F64.zero.
Proof. destruct s; simpl; congruence. Qed.

Lemma delta_time_first s deltas x :
  time_diff s = Some deltas -> delta_time_of deltas !! 0%nat = Some x -> x = F64.one.
Proof.
  intros H. unfold delta_time_of, replace_zero, fillna. rewrite !lookup_map.
  destruct (deltas !! 0%nat) as [d|] eqn:E; simpl; [|easy].
  rewrite (time_diff_head _ _ _ H E). simpl. congruence.
Qed.



Section FirstRow.
Variable deltas : list (option Z).
Variable v : option string.
Variable df : DataFrame.
Hypothesis deltas_diff : time_diff (time_col df) = Some deltas.

Let deltas_length : length deltas = length (rows df).
Proof. rewrite <- length_time_col. eauto using time_diff_length. Qed.

Let out := enrich deltas v df.




End FirstRow.

(** ** Derived columns of a processed file *)

Lemma is_table_Table (o : outcome) : is_table o = true -> exists out, o = Table out.
Proof. destruct o; simpl; intros; simplify_eq; eauto. Qed.




(** ** Gap filling *)

Lemma length_interpolate_from prev s : length (interpolate_from prev s) = length s.
Proof.
  revert prev. induction s as [|y s IH]; intros prev; simpl; auto.
  destruct (F64.is_nan y); [destruct prev as [[ya k]|]|]; simpl; auto.
Qed.

Lemma length_bfill s : length (bfill s) = length s.
Proof. induction s; simpl; auto. Qed.

Lemma length_ffill_from p s : length (ffill_from p s) = length s.
Proof. revert p. induction s; intros; simpl; auto. Qed.

Lemma length_fill_gaps s : length (fill_gaps s) = length s.
Proof.
  unfold fill_gaps, ffill, interpolate_linear.
  now rewrite length_ffill_from, length_bfill, length_interpolate_from.
Qed.

#[export] Hint Rewrite length_fill_gaps : len.

(** A series without gaps is left alone. *)

Lemma interpolate_from_no_nan prev s : no_nan s -> interpolate_from prev s = s.
Proof.
  intros H. revert prev. induction H as [|y s Hy _ IH]; intros prev; simpl; auto.
  rewrite Hy. f_equal. apply IH.
Qed.

Lemma bfill_no_nan s : no_nan s -> bfill s = s.
Proof.
  induction 1 as [|y s Hy _ IH]; simpl; auto. rewrite Hy. now f_equal.
Qed.

Lemma ffill_from_no_nan p s : no_nan s -> ffill_from p s = s.
Proof.
  intros H. revert p. induction H as [|y s Hy _ IH]; intros p; simpl; auto.
  rewrite Hy. f_equal. apply IH.
Qed.

Lemma fill_gaps_no_nan s : no_nan s -> fill_gaps s = s.
Proof.
  intros H. unfold fill_gaps, ffill, interpolate_linear.
  now rewrite interpolate_from_no_nan, bfill_no_nan, ffill_from_no_nan.
Qed.

(** A series that is one gap is left alone too. *)

Lemma all_nan_eq s : all_nan s -> s = replicate (length s) NaN.
Proof.
  induction 1 as [|y s Hy _ IH]; simpl; auto.
  destruct y; try discriminate. now f_equal.
Qed.

Lemma next_valid_all_nan s : all_nan s -> next_valid s = None.
Proof. induction 1 as [|y s Hy _ IH]; simpl; auto. now rewrite Hy, IH. Qed.

Lemma interpolate_from_None_all_nan s : all_nan s -> interpolate_from None s = s.
Proof.
  induction 1 as [|y s Hy _ IH]; simpl; auto. rewrite Hy, IH.
  destruct y; try discriminate. reflexivity.
Qed.

Lemma bfill_all_nan s : all_nan s -> bfill s = s.
Proof.
  induction 1 as [|y s Hy H IH]; simpl; auto. rewrite Hy, IH.
  destruct y; try discriminate. f_equal.
  destruct H as [|z ? Hz]; simpl; auto. now destruct z.
Qed.

Lemma ffill_from_nan_all_nan s : all_nan s -> ffill_from NaN s = s.
Proof.
  induction 1 as [|y s Hy _ IH]; simpl; auto. rewrite Hy.
  destruct y; try discriminate. now f_equal.
Qed.

Lemma fill_gaps_all_nan s : all_nan s -> fill_gaps s = s.
Proof.
  intros H. unfold fill_gaps, ffill, interpolate_linear.
  now rewrite interpolate_from_None_all_nan, bfill_all_nan, ffill_from_nan_all_nan.
Qed.

(** After the three passes a series has no gap left, unless it had no valid
    value at all. *)

Lemma bfill_head_nan s : F64.is_nan (hd NaN (bfill s)) = true -> all_nan (bfill s).
Proof.
  induction s as [|y s IH]; simpl; [constructor|].
  destruct (F64.is_nan y) eqn:Hy; intros H; [|congruence].
  constructor; [exact H | exact (IH H)].
Qed.

Lemma ffill_from_valid p s : F64.is_nan p = false -> no_nan (ffill_from p s).
Proof.
  revert p. induction s as [|y s IH]; intros p Hp; simpl; [constructor|].
  destruct (F64.is_nan y) eqn:Hy.
  - constructor; [exact Hp | now apply IH].
  - constructor; [exact Hy | now apply IH].
Qed.

Lemma ffill_shape s :
  (F64.is_nan (hd NaN s) = true -> all_nan s) ->
  no_nan (ffill s) \/ all_nan (ffill s).
Proof.
  unfold ffill. destruct s as [|y s]; simpl; [left; constructor|].
  destruct (F64.is_nan y) eqn:Hy; intros H.
  - right. specialize (H eq_refl). inversion_clear H as [|? ? _ Hs].
    constructor; [reflexivity | now rewrite ffill_from_nan_all_nan].
  - left. constructor; [exact Hy | now apply ffill_from_valid].
Qed.

Lemma fill_gaps_shape s : no_nan (fill_gaps s) \/ all_nan (fill_gaps s).
Proof. unfold fill_gaps. apply ffill_shape, bfill_head_nan. Qed.

Lemma fill_gaps_idempotent s : fill_gaps (fill_gaps s) = fill_gaps s.
Proof.
  destruct (fill_gaps_shape s); auto using fill_gaps_no_nan, fill_gaps_all_nan.
Qed.

(** ** Sorting by time *)

Lemma time_leb_total a b : time_leb a b = false -> time_leb b a = true.
Proof. destruct a, b; simpl; auto; try discriminate. lia. Qed.

Lemma time_leb_trans a b c :
  time_leb a b = true -> time_leb b c = true -> time_leb a c = true.
Proof. destruct a, b, c; simpl; auto; try discriminate; lia. Qed.

#[export] Instance time_le_trans : Transitive time_le.
Proof. intros x y z. apply time_leb_trans. Qed.

Lemma insert_by_time_perm r l : insert_by_time r l ≡ₚ r :: l.
Proof.
  induction l as [|x l IH]; simpl; auto.
  destruct (time_leb (time r) (time x)); auto.
  rewrite IH. apply perm_swap.
Qed.

Lemma sort_by_time_perm l : sort_by_time l ≡ₚ l.
Proof.
  induction l as [|r l IH]; simpl; auto.
  rewrite insert_by_time_perm. now f_equiv.
Qed.

Lemma insert_by_time_sorted r l :
  StronglySorted time_le l -> StronglySorted time_le (insert_by_time r l).
Proof.
  induction 1 as [|x l Hl IH Hx]; simpl.
  - repeat constructor.
  - destruct (time_leb (time r) (time x)) eqn:E.
    + constructor; [now constructor|].
      constructor; [exact E|].
      eapply Forall_impl; [exact Hx|]. intros y Hy. now transitivity x.
    + constructor; auto.
      rewrite insert_by_time_perm. constructor; auto.
      now apply time_leb_total.
Qed.

Lemma sort_by_time_sorted l : StronglySorted time_le (sort_by_time l).
Proof.
  induction l; simpl; [constructor | now apply insert_by_time_sorted].
Qed.

(** ** Filtering and dropping duplicates *)

Lemma StronglySorted_filter {A} (R : relation A) (P : A -> Prop)
    `{!forall x, Decision (P x)} (l : list A) :
  StronglySorted R l -> StronglySorted R (filter P l).
Proof.
  induction 1 as [|x l Hl IH Hx]; [constructor|].
  rewrite filter_cons. destruct (decide (P x)); auto.
  constructor; auto.
  apply Forall_forall. intros y [_ Hy]%list_elem_of_filter.
  rewrite Forall_forall in Hx. auto.
Qed.

Lemma filter_id {A} (P : A -> Prop) `{!forall x, Decision (P x)} (l : list A) :
  Forall P l -> filter P l = l.
Proof.
  induction 1 as [|x l Hx _ IH]; auto.
  rewrite filter_cons, decide_True by auto. now f_equal.
Qed.

Lemma elem_of_dedup cols l r : r ∈ dedup cols l -> r ∈ l.
Proof.
  revert r. induction l as [|x l IH]; intros r; simpl; auto.
  rewrite !elem_of_cons, list_elem_of_filter. intros [->|[_ H]]; auto.
Qed.

Lemma dedup_sorted {R : relation row} cols l :
  StronglySorted R l -> StronglySorted R (dedup cols l).
Proof.
  induction 1 as [|x l Hl IH Hx]; simpl; [constructor|].
  constructor; [now apply StronglySorted_filter|].
  apply Forall_forall. intros y [_ Hy%elem_of_dedup]%list_elem_of_filter.
  rewrite Forall_forall in Hx. auto.
Qed.

(** Being duplicates is reflexive and transitive. *)
Lemma F64_eqb_refl x : F64.eqb x x = true.
Proof. destruct x; cbn; auto. apply Qeq_bool_iff. reflexivity. Qed.

Lemma F64_eqb_trans x y z :
  F64.eqb x y = true -> F64.eqb y z = true -> F64.eqb x z = true.
Proof.
  destruct x, y, z; cbn; try discriminate 1; try discriminate 2; auto.
  rewrite !Qeq_bool_iff. intros H1 H2. now rewrite H1.
Qed.

Lemma tcell_eqb_refl a : tcell_eqb a a = true.
Proof.
  destruct a; cbn; auto using F64_eqb_refl, String.eqb_refl, Z.eqb_refl.
Qed.

Lemma tcell_eqb_trans a b c :
  tcell_eqb a b = true -> tcell_eqb b c = true -> tcell_eqb a c = true.
Proof.
  destruct a, b, c; cbn; try discriminate 1; try discriminate 2; auto.
  - apply F64_eqb_trans.
  - rewrite !String.eqb_eq. congruence.
  - rewrite !Z.eqb_eq. congruence.
Qed.

Lemma row_eqb_refl cols r : row_eqb cols r r = true.
Proof.
  unfold row_eqb. rewrite tcell_eqb_refl. cbn [andb].
  apply forallb_forall. intros c _.
  rewrite F64_eqb_refl. now apply bool_decide_eq_true.
Qed.

Lemma row_eqb_trans cols r1 r2 r3 :
  row_eqb cols r1 r2 = true -> row_eqb cols r2 r3 = true ->
  row_eqb cols r1 r3 = true.
Proof.
  unfold row_eqb. rewrite !andb_true_iff, !forallb_forall.
  intros [Ht1 Hc1] [Ht2 Hc2]. split; [now apply tcell_eqb_trans with (time r2)|].
  intros c Hc. specialize (Hc1 c Hc). specialize (Hc2 c Hc).
  apply andb_true_iff in Hc1 as [Hn1 Hx1%bool_decide_eq_true].
  apply andb_true_iff in Hc2 as [Hn2 Hx2%bool_decide_eq_true].
  apply andb_true_iff. split; [now apply F64_eqb_trans with (numv c r2)|].
  apply bool_decide_eq_true. congruence.
Qed.

(** [drop_duplicates] keeps, for every row, a row that equals it. *)
Lemma dedup_covers cols l r :
  r ∈ l -> exists r', r' ∈ dedup cols l /\ row_eqb cols r' r = true.
Proof.
  induction l as [|x l IH]; [now intros ?%elem_of_nil|].
  cbn [dedup]. intros [->|Hr]%elem_of_cons.
  - exists x. split; [apply list_elem_of_here | apply row_eqb_refl].
  - destruct (IH Hr) as (r' & Hr' & E).
    destruct (row_eqb cols x r') eqn:Hx.
    + exists x. split; [apply list_elem_of_here|]. now apply row_eqb_trans with r'.
    + exists r'. split; [|exact E].
      apply list_elem_of_further, list_elem_of_filter. auto.
Qed.

(** [drop_duplicates] removes a row only when a row before it equals it. *)
Lemma dedup_keeps cols l i r :
  l !! i = Some r ->
  (forall j r', (j < i)%nat -> l !! j = Some r' -> row_eqb cols r' r = false) ->
  r ∈ dedup cols l.
Proof.
  revert i. induction l as [|x l IH]; intros i Hi Hfirst; [discriminate Hi|].
  cbn [dedup]. destruct i as [|i].
  - injection Hi as ->. apply list_elem_of_here.
  - apply list_elem_of_further, list_elem_of_filter. split.
    + apply (Hfirst 0%nat x); [lia | reflexivity].
    + apply (IH i Hi). intros j r' Hj Hr'. apply (Hfirst (S j) r'); [lia | exact Hr'].
Qed.

Lemma dedup_distinct cols l : distinct_rows cols (dedup cols l).
Proof.
  unfold distinct_rows. induction l as [|x l IH]; simpl; constructor.
  - now apply StronglySorted_filter.
  - apply Forall_forall. now intros y [Hy _]%list_elem_of_filter.
Qed.

Lemma Forall_dedup (P : row -> Prop) cols l : Forall P l -> Forall P (dedup cols l).
Proof.
  rewrite !Forall_forall. intros H r Hr%elem_of_dedup. auto.
Qed.

Lemma Forall_sort_by_time (P : row -> Prop) l : Forall P l -> Forall P (sort_by_time l).
Proof. now rewrite sort_by_time_perm. Qed.

(** ** What cleaning establishes *)

Lemma clean_inl df cleaned :
  clean df = inl cleaned ->
  (forall c, c ∈ essential_cols -> c ∈ columns df) /\
  rows (usable_rows df) <> [] /\
  cleaned = fill_numeric_cols (parse_sort_dedup (usable_rows df)).
Proof.
  unfold clean, usable_rows.
  case_bool_decide as Hm; [easy|].
  case_bool_decide as Hr; [easy|].
  intros H; simplify_eq. repeat split; auto.
  intros c Hc. apply dec_stable. intros Hn.
  assert (Hin : c ∈ filter (fun c => c ∉ columns df) essential_cols)
    by now apply list_elem_of_filter.
  rewrite Hm in Hin. now apply elem_of_nil in Hin.
Qed.

Lemma columns_usable_rows df c : c ∈ columns df -> c ∈ columns (usable_rows df).
Proof.
  unfold usable_rows, dropna; cbn [columns].
  destruct (has_col "velocity" df); auto.
  rewrite columns_assign_num_const, elem_of_add_col. auto.
Qed.

Lemma velocity_usable_rows df : "velocity" ∈ columns (usable_rows df).
Proof.
  unfold usable_rows, dropna; cbn [columns].
  destruct (has_col "velocity" df) eqn:E.
  - unfold has_col in E. now apply bool_decide_eq_true in E.
  - rewrite columns_assign_num_const, elem_of_add_col. auto.
Qed.

Lemma columns_parse_sort_dedup df : columns (parse_sort_dedup df) = columns df.
Proof. reflexivity. Qed.

Lemma rows_parse_sort_dedup df :
  rows (parse_sort_dedup df) =
  dedup (columns df)
    (sort_by_time
       (filter (fun r => forallb (fun c => negb (isna_at r c)) ["time"] = true)
               (map (fun r => set_time (to_datetime_s (time r)) r) (rows df)))).
Proof. reflexivity. Qed.

Lemma to_datetime_s_stamp t :
  tcell_isna (to_datetime_s t) = false -> is_stamp (to_datetime_s t) = true.
Proof.
  destruct t as [[q| | |]| | |]; simpl; auto.
  destruct (_ && _); simpl; auto.
Qed.

Lemma usable_rows_present df r :
  r ∈ rows (usable_rows df) ->
  tcell_isna (time r) = false /\
  Forall (fun c => F64.is_nan (numv c r) = false)
         ["latitude"; "longitude"; "baro_altitude"].
Proof.
  unfold usable_rows, dropna; cbn [rows].
  intros [H _]%list_elem_of_filter. revert H.
  unfold essential_cols. cbn [forallb]. unfold isna_at. simpl String.eqb.
  rewrite !andb_true_iff, !negb_true_iff.
  intros (Ht & Hlat & Hlon & Halt & _). split; auto.
Qed.

Lemma parse_sort_dedup_present df :
  Forall essential_present (rows (parse_sort_dedup (usable_rows df))).
Proof.
  rewrite rows_parse_sort_dedup.
  apply Forall_dedup, Forall_sort_by_time, Forall_forall.
  intros r [Ht Hr]%list_elem_of_filter.
  apply list_elem_of_fmap in Hr as (r0 & -> & Hr0).
  apply usable_rows_present in Hr0 as [_ Hnum].
  split.
  - apply to_datetime_s_stamp. cbn [forallb] in Ht.
    unfold isna_at in Ht. simpl String.eqb in Ht. cbn [set_time time] in Ht |- *.
    now destruct (tcell_isna (to_datetime_s (time r0))).
  - exact Hnum.
Qed.

Lemma parse_sort_dedup_sorted df :
  StronglySorted time_le (rows (parse_sort_dedup df)).
Proof. rewrite rows_parse_sort_dedup. apply dedup_sorted, sort_by_time_sorted. Qed.

Lemma parse_sort_dedup_distinct df :
  distinct_rows (columns df) (rows (parse_sort_dedup df)).
Proof. rewrite rows_parse_sort_dedup. apply dedup_distinct. Qed.

(** *** The gap-filling loop *)

Lemma add_col_elem c cols : c ∈ cols -> add_col c cols = cols.
Proof. intros H. unfold add_col. now rewrite bool_decide_eq_true_2. Qed.

Lemma fill_column_present df col :
  col ∈ columns df ->
  fill_column df col = assign_num col (fill_gaps (num_col col df)) df.
Proof.
  intros H. unfold fill_column, has_col. now rewrite bool_decide_eq_true_2.
Qed.

Section Fill.
Variable df : DataFrame.
Hypothesis numeric_present : forall c, c ∈ numeric_cols -> c ∈ columns df.

Lemma fill_numeric_cols_unfold :
  fill_numeric_cols df =
  assign_num "velocity" (fill_gaps (num_col "velocity" df))
    (assign_num "baro_altitude" (fill_gaps (num_col "baro_altitude" df))
       (assign_num "longitude" (fill_gaps (num_col "longitude" df))
          (assign_num "latitude" (fill_gaps (num_col "latitude" df)) df))).
Proof.
  unfold fill_numeric_cols, numeric_cols; cbn [foldl].
  rewrite (fill_column_present df "latitude")
    by (apply numeric_present; unfold numeric_cols; in_list).
  rewrite (fill_column_present _ "longitude")
    by (rewrite columns_assign_num, elem_of_add_col; right;
        apply numeric_present; unfold numeric_cols; in_list).
  rewrite (fill_column_present _ "baro_altitude")
    by (rewrite !columns_assign_num, !elem_of_add_col; right; right;
        apply numeric_present; unfold numeric_cols; in_list).
  rewrite (fill_column_present _ "velocity")
    by (rewrite !columns_assign_num, !elem_of_add_col; right; right; right;
        apply numeric_present; unfold numeric_cols; in_list).
  now frame.
Qed.

Lemma columns_fill_numeric_cols : columns (fill_numeric_cols df) = columns df.
Proof.
  rewrite fill_numeric_cols_unfold, !columns_assign_num.
  rewrite (add_col_elem "latitude"), (add_col_elem "longitude"),
    (add_col_elem "baro_altitude"), (add_col_elem "velocity");
    auto; apply numeric_present; unfold numeric_cols; in_list.
Qed.

Lemma time_col_fill_numeric_cols : time_col (fill_numeric_cols df) = time_col df.
Proof. rewrite fill_numeric_cols_unfold. now frame. Qed.

Lemma length_rows_fill_numeric_cols :
  length (rows (fill_numeric_cols df)) = length (rows df).
Proof. rewrite fill_numeric_cols_unfold. len. Qed.

Lemma num_col_fill_numeric_cols c :
  c ∈ numeric_cols ->
  num_col c (fill_numeric_cols df) = fill_gaps (num_col c df).
Proof.
  rewrite fill_numeric_cols_unfold. unfold numeric_cols.
  rewrite !elem_of_cons, elem_of_nil.
  intros [->|[->|[->|[->|[]]]]]; now frame.
Qed.

Lemma num_col_fill_numeric_cols_other c :
  c ∉ numeric_cols -> num_col c (fill_numeric_cols df) = num_col c df.
Proof.
  rewrite fill_numeric_cols_unfold. unfold numeric_cols.
  rewrite !elem_of_cons, elem_of_nil. intros H.
  rewrite !num_col_assign_num_ne by (intros ->; tauto). reflexivity.
Qed.

End Fill.

(** ** The cleaned trajectory *)

Lemma returns_Table (o : outcome) (p : DataFrame -> bool) :
  returns o p = true -> exists out, o = Table out /\ p out = true.
Proof. destruct o; simpl; intros; simplify_eq; eauto. Qed.

Lemma Forall_num_col (P : f64 -> Prop) c df :
  Forall P (num_col c df) <-> Forall (fun r => P (numv c r)) (rows df).
Proof.
  unfold num_col. induction (rows df) as [|r l IH]; simpl.
  - split; constructor.
  - rewrite !Forall_cons, IH. tauto.
Qed.

Lemma stamps_of_rows (l : list row) :
  Forall (fun r => is_stamp (time r) = true) l ->
  StronglySorted time_le l ->
  exists stamps, map time l = map TStamp stamps /\ StronglySorted Z.le stamps.
Proof.
  induction l as [|r l IH]; intros Hs Hl.
  - exists []. split; [reflexivity | constructor].
  - apply Forall_cons in Hs as [Hr Hs].
    apply StronglySorted_inv in Hl as [Hl Hle].
    destruct (IH Hs Hl) as (stamps & E & Hsorted).
    destruct (time r) as [| |a|] eqn:Er; try discriminate.
    exists (a :: stamps). split; [simpl; now rewrite Er, E|].
    constructor; auto.
    clear -Hle Er E Hs. revert stamps E.
    induction l as [|r' l IH]; intros [|b stamps] E; simplify_eq/=;
      constructor.
    + apply Forall_cons in Hle as [Hle _]. unfold time_le in Hle.
      rewrite Er, H in Hle. simpl in Hle. lia.
    + apply Forall_cons in Hle as [_ Hle]. apply Forall_cons in Hs as [_ Hs].
      now apply IH.
Qed.

Section Cleaned.
Variable df : DataFrame.
Hypothesis essential_in : forall c, c ∈ essential_cols -> c ∈ columns df.

Let mid := parse_sort_dedup (usable_rows df).

Lemma numeric_in_mid c : c ∈ numeric_cols -> c ∈ columns mid.
Proof.
  unfold mid. rewrite columns_parse_sort_dedup. unfold numeric_cols.
  rewrite !elem_of_cons, elem_of_nil.
  intros [->|[->|[->|[->|[]]]]];
    try (apply columns_usable_rows, essential_in; unfold essential_cols; in_list).
  apply velocity_usable_rows.
Qed.

Lemma coordinates_no_nan_mid c :
  c ∈ ["latitude"; "longitude"; "baro_altitude"] -> no_nan (num_col c mid).
Proof.
  intros Hc. unfold no_nan. rewrite Forall_num_col.
  eapply Forall_impl; [apply parse_sort_dedup_present|].
  intros r [_ Hr]. rewrite Forall_forall in Hr. auto.
Qed.

Lemma coordinates_cleaned c :
  c ∈ ["latitude"; "longitude"; "baro_altitude"] ->
  num_col c (fill_numeric_cols mid) = num_col c mid.
Proof.
  intros Hc. rewrite num_col_fill_numeric_cols.
  - now apply fill_gaps_no_nan, coordinates_no_nan_mid.
  - apply numeric_in_mid.
  - revert Hc. unfold numeric_cols. rewrite !elem_of_cons. tauto.
Qed.

Lemma time_col_cleaned : time_col (fill_numeric_cols mid) = time_col mid.
Proof. apply time_col_fill_numeric_cols, numeric_in_mid. Qed.

Lemma stamps_mid :
  exists stamps, time_col mid = map TStamp stamps /\ StronglySorted Z.le stamps.
Proof.
  apply stamps_of_rows.
  - eapply Forall_impl; [apply parse_sort_dedup_present|]. now intros r [Hr _].
  - apply parse_sort_dedup_sorted.
Qed.

End Cleaned.

(** *** The table a successful run returns *)

Lemma returned_table (f : raw_file) (out : DataFrame) :
  preprocess_file f = Table out ->
  exists df deltas v,
    csv f = Some df /\
    (forall c, c ∈ essential_cols -> c ∈ columns df) /\
    let cleaned := fill_numeric_cols (parse_sort_dedup (usable_rows df)) in
    time_diff (time_col cleaned) = Some deltas /\
    length deltas = length (rows cleaned) /\
    out = enrich deltas v cleaned.
Proof.
  intros (df & cleaned & _ & Hcsv & Hclean & Hd)%preprocess_file_Table.
  apply derive_Table in Hd as (deltas & v & Hdiff & Hlen & ->).
  apply clean_inl in Hclean as (Hess & _ & ->).
  exists df, deltas, v. auto.
Qed.

Lemma returned_time_col (f : raw_file) (out df : DataFrame) :
  preprocess_file f = Table out -> csv f = Some df ->
  time_col out = time_col (parse_sort_dedup (usable_rows df)).
Proof.
  intros (df' & deltas & v & Hcsv & Hess & _ & _ & ->)%returned_table E.
  rewrite Hcsv in E. injection E as ->.
  rewrite time_col_enrich. now apply time_col_cleaned.
Qed.

Lemma returned_stamps (f : raw_file) (out : DataFrame) :
  preprocess_file f = Table out ->
  exists stamps, time_col out = map TStamp stamps /\ StronglySorted Z.le stamps.
Proof.
  intros H.
  pose proof H as (df & deltas & v & Hcsv & Hess & _)%returned_table.
  rewrite (returned_time_col f out df H Hcsv). now apply stamps_mid.
Qed.

Lemma returned_filled (f : raw_file) (out df : DataFrame) (c : string) :
  preprocess_file f = Table out -> csv f = Some df -> c ∈ numeric_cols ->
  num_col c out = fill_gaps (num_col c (parse_sort_dedup (usable_rows df))).
Proof.
  intros (df' & deltas & v & Hcsv & Hess & _ & _ & ->)%returned_table E Hc.
  rewrite Hcsv in E. injection E as ->.
  rewrite base_col_enrich by exact Hc.
  apply num_col_fill_numeric_cols; [|exact Hc].
  intros c' Hc'. now apply numeric_in_mid.
Qed.

Lemma returned_coordinates (f : raw_file) (out df : DataFrame) (c : string) :
  preprocess_file f = Table out -> csv f = Some df ->
  c ∈ ["latitude"; "longitude"; "baro_altitude"] ->
  no_nan (num_col c (parse_sort_dedup (usable_rows df))) /\
  num_col c out = num_col c (parse_sort_dedup (usable_rows df)).
Proof.
  intros H Hcsv Hc.
  pose proof H as (df' & deltas & v & Hcsv' & Hess & _)%returned_table.
  rewrite Hcsv in Hcsv'. injection Hcsv' as <-.
  assert (Hnn : no_nan (num_col c (parse_sort_dedup (usable_rows df))))
    by now apply coordinates_no_nan_mid.
  split; [exact Hnn|].
  rewrite (returned_filled f out df c H Hcsv).
  - now apply fill_gaps_no_nan.
  - revert Hc. unfold numeric_cols. rewrite !elem_of_cons. tauto.
Qed.

(** C2, as the code has it.  The table of an accepted file is ordered by
    non-decreasing time, holds no missing value in [time], [latitude],
    [longitude] and [baro_altitude], and comes from rows among which
    [drop_duplicates] left no two equal ones; the timestamps and coordinates
    of those rows are the ones returned.  [drop_duplicates] removed a row of
    the sorted table only when a row before it was its exact duplicate, and
    kept an exact duplicate of every row: rows that share a timestamp and
    differ in some column are all kept. *)
Theorem cleaned_trajectory_invariants (f : raw_file) (out : DataFrame) :
  preprocess_file f = Table out ->
  (exists stamps,
     time_col out = map TStamp stamps /\ StronglySorted Z.le stamps) /\
  (forall c, c ∈ ["latitude"; "longitude"; "baro_altitude"] ->
     no_nan (num_col c out)) /\
  exists df,
    csv f = Some df /\
    let deduplicated := parse_sort_dedup (usable_rows df) in
    distinct_rows (columns deduplicated) (rows deduplicated) /\
    time_col out = time_col deduplicated /\
    (forall c, c ∈ ["latitude"; "longitude"; "baro_altitude"] ->
       num_col c out = num_col c deduplicated) /\
    let sorted := parsed_sorted (usable_rows df) in
    deduplicated = drop_duplicates sorted /\
    (forall (i : nat) (r : row),
       rows sorted !! i = Some r ->
       (forall (j : nat) (r' : row),
          (j < i)%nat -> rows sorted !! j = Some r' ->
          row_eqb (columns sorted) r' r = false) ->
       r ∈ rows deduplicated) /\
    forall r : row,
      r ∈ rows sorted ->
      exists r', r' ∈ rows deduplicated /\ row_eqb (columns sorted) r' r = true.
Proof.
  intros H.
  pose proof H as (df & deltas & v & Hcsv & Hess & _)%returned_table.
  split; [now apply returned_stamps with f|].
  split.
  - intros c Hc.
    destruct (returned_coordinates f out df c H Hcsv Hc) as [Hnn ->]. exact Hnn.
  - exists df. split; [exact Hcsv|]. cbv zeta.
    split; [exact (parse_sort_dedup_distinct (usable_rows df))|].
    split; [now apply returned_time_col with f|].
    split; [intros c Hc; now apply (returned_coordinates f out df c H Hcsv Hc)|].
    split; [reflexivity|].
    split.
    + intros i r Hi Hfirst.
      change (r ∈ dedup (columns (parsed_sorted (usable_rows df)))
                        (rows (parsed_sorted (usable_rows df)))).
      now apply dedup_keeps with i.
    + intros r Hr.
      exact (dedup_covers (columns (parsed_sorted (usable_rows df)))
                          (rows (parsed_sorted (usable_rows df))) r Hr).
Qed.

Lemma cleaned_trajectory_invariants_witness :
  exists out stamps,
    preprocess_file three_points_file = Table out /\
    time_col out = map TStamp stamps /\ StronglySorted Z.le stamps /\
    no_nan (num_col "latitude" out).
Proof.
  destruct (is_table_Table (preprocess_file three_points_file)) as [out E];
    [vm_compute; reflexivity|].
  destruct (cleaned_trajectory_invariants three_points_file out E)
    as ((stamps & Ht & Hs) & Hc & _).
  exists out, stamps. repeat split; auto. apply Hc. in_list.
Defined.

(** C2 as stated fails: two samples taken at the same second that differ only
    in a missing [velocity] both survive [drop_duplicates]; filling the gap
    makes them equal.  The returned table then holds the same timestamp
    twice, in two rows that are exact duplicates. *)
Lemma twin_rows_survive :
  exists out,
    preprocess_file twin_file = Table out /\
    time_col out = [TStamp 0; TStamp 0] /\
    ~ stamps_increasing (time_col out) /\
    ~ distinct_rows (columns out) (rows out).
Proof.
  destruct (returns_Table (preprocess_file twin_file)
              (fun df => bool_decide (time_col df = [TStamp 0; TStamp 0])
                         && first_two_equal df))
    as (out & E & [Ht Hdup]%andb_true_iff); [vm_compute; reflexivity|].
  apply bool_decide_eq_true in Ht.
  exists out. split; [exact E|]. clear E. split; [exact Ht|]. split.
  - rewrite Ht. intros H. specialize (H 0%nat 0%Z 0%Z eq_refl eq_refl). lia.
  - unfold first_two_equal in Hdup.
    destruct (rows out) as [|r1 [|r2 l]]; try discriminate Hdup.
    intros [_ H]%StronglySorted_inv. apply Forall_cons in H as [H _].
    congruence.
Qed.

(** ** The [delta_time] column *)

Lemma Qred_num_zero (q : Q) : (Qnum (Qred q) =? 0)%Z = (Qnum q =? 0)%Z.
Proof.
  pose proof (Qred_correct q) as E. unfold Qeq in E.
  destruct (Z.eqb_spec (Qnum (Qred q)) 0) as [H|H];
    destruct (Z.eqb_spec (Qnum q) 0) as [H'|H']; auto; exfalso.
  - rewrite H in E. simpl in E. nia.
  - rewrite H' in E. simpl in E. nia.
Qed.

Lemma total_seconds_is_zero (d : Z) :
  F64.is_zero (total_seconds (Some d)) = (d =? 0)%Z.
Proof. simpl. now rewrite Qred_num_zero. Qed.

Lemma total_seconds_ge_one (d : Z) :
  (1000000000 <= d)%Z -> F64.leb F64.one (total_seconds (Some d)) = true.
Proof.
  intros H. simpl. apply Qle_bool_iff. rewrite Qred_correct.
  unfold Qle; simpl. lia.
Qed.

Lemma total_seconds_positive (d : Z) :
  (0 < d)%Z -> F64.leb (total_seconds (Some d)) F64.zero = false.
Proof.
  intros H. simpl. apply not_true_iff_false. rewrite Qle_bool_iff, Qred_correct.
  unfold Qle; simpl. lia.
Qed.

Lemma time_diff_from_lookup p s ds i ta tb :
  time_diff_from p s = Some ds ->
  (p :: s) !! i = Some ta -> s !! i = Some tb ->
  exists d, stamp_sub tb ta = Some d /\ ds !! i = Some d.
Proof.
  revert p ds i. induction s as [|t s IH]; intros p ds i H Ha Hb; [easy|].
  simpl in H.
  destruct (stamp_sub t p) as [d|] eqn:Ed; [|easy].
  destruct (time_diff_from t s) as [ds'|] eqn:Es; [|easy].
  simpl in H. injection H as <-.
  destruct i as [|i]; simpl in *.
  - injection Ha as <-. injection Hb as <-. eauto.
  - eapply IH; eauto.
Qed.

Lemma time_diff_lookup s ds i ta tb :
  time_diff s = Some ds ->
  s !! i = Some ta -> s !! S i = Some tb ->
  exists d, stamp_sub tb ta = Some d /\ ds !! S i = Some d.
Proof.
  destruct s as [|t s]; [easy|]. simpl.
  destruct (time_diff_from t s) as [ds'|] eqn:Es; [|easy].
  intros H Ha Hb. injection H as <-. simpl.
  eapply time_diff_from_lookup; eauto.
Qed.

Lemma stamp_sub_stamps a b d :
  stamp_sub (TStamp b) (TStamp a) = Some d -> d = Some (b - a)%Z.
Proof. simpl. destruct (int64_ok (b - a)); congruence. Qed.

Lemma lookup_delta_time_of deltas i d :
  deltas !! i = Some (Some d) ->
  delta_time_of deltas !! i =
  Some (if (d =? 0)%Z then F64.one else total_seconds (Some d)).
Proof.
  intros H. unfold delta_time_of, replace_zero, fillna.
  rewrite !lookup_map, H. cbn [fmap option_fmap option_map].
  change (F64.is_nan (total_seconds (Some d))) with false. cbv iota.
  now rewrite total_seconds_is_zero.
Qed.

Lemma StronglySorted_lookup {A} (R : relation A) (l : list A) i j a b :
  StronglySorted R l -> (i < j)%nat -> l !! i = Some a -> l !! j = Some b -> R a b.
Proof.
  intros H. revert i j. induction H as [|x l Hl IH Hx]; intros i j Hij Ha Hb;
    [easy|].
  destruct j as [|j]; [lia|]. simpl in Hb.
  destruct i as [|i]; simpl in Ha.
  - injection Ha as <-. rewrite Forall_forall in Hx.
    apply Hx. eapply list_elem_of_lookup_2; eauto.
  - apply (IH i j); [lia | exact Ha | exact Hb].
Qed.

(** C4, as the code has it.  [delta_time] is 1 in the first row; in every
    later row it is the difference to the previous timestamp in seconds, with
    an exact 0 replaced by 1, so it is positive; it is at least 1 when the
    two timestamps coincide or lie a second or more apart, hence in every row
    when all timestamps are whole seconds. *)
Theorem delta_time_values (f : raw_file) (out : DataFrame) :
  preprocess_file f = Table out ->
  let dt := num_col "delta_time" out in
  (forall x, dt !! 0%nat = Some x -> x = F64.one) /\
  (forall (i : nat) (a b : Z),
     time_col out !! i = Some (TStamp a) ->
     time_col out !! S i = Some (TStamp b) ->
     (a <= b)%Z /\
     exists x,
       dt !! S i = Some x /\
       x = (if (b - a =? 0)%Z then F64.one
            else Fin (Qred ((b - a) # 1000000000))) /\
       F64.leb x F64.zero = false /\
       ((b - a = 0 \/ 1000000000 <= b - a)%Z -> F64.leb F64.one x = true)) /\
  ((forall t, TStamp t ∈ time_col out -> (1000000000 | t)%Z) ->
   forall (i : nat) (x : f64), dt !! i = Some x -> F64.leb F64.one x = true).
Proof.
  intros H. pose proof H as (df & cleaned & _ & Hcsv & Hclean & Hd)%preprocess_file_Table.
  destruct (returned_stamps f out H) as (stamps & Ht & Hs).
  clear H.
  apply derive_Table in Hd as (deltas & v & Hdiff & Hlen & ->).
  cbv zeta. rewrite delta_time_enrich by auto.
  rewrite time_col_enrich in Ht |- *.
  assert (Hfirst : forall x, delta_time_of deltas !! 0%nat = Some x -> x = F64.one)
    by (intros x; now apply (delta_time_first _ _ _ Hdiff)).
  assert (Hstep : forall (i : nat) (a b : Z),
     time_col cleaned !! i = Some (TStamp a) ->
     time_col cleaned !! S i = Some (TStamp b) ->
     (a <= b)%Z /\
     exists x,
       delta_time_of deltas !! S i = Some x /\
       x = (if (b - a =? 0)%Z then F64.one
            else Fin (Qred ((b - a) # 1000000000))) /\
       F64.leb x F64.zero = false /\
       ((b - a = 0 \/ 1000000000 <= b - a)%Z -> F64.leb F64.one x = true)).
  { intros i a b Ha Hb.
    assert (Hab : (a <= b)%Z).
    { rewrite Ht, lookup_map in Ha, Hb.
      destruct (stamps !! i) as [a'|] eqn:Ea; simplify_eq/=.
      destruct (stamps !! S i) as [b'|] eqn:Eb; simplify_eq/=.
      eapply (StronglySorted_lookup Z.le stamps i (S i)); eauto. }
    split; [exact Hab|].
    destruct (time_diff_lookup _ _ _ _ _ Hdiff Ha Hb) as (d & Hd & Hi).
    apply stamp_sub_stamps in Hd as ->.
    exists (if (b - a =? 0)%Z then F64.one else total_seconds (Some (b - a)%Z)).
    split; [exact (lookup_delta_time_of _ _ _ Hi)|].
    split; [reflexivity|].
    destruct (Z.eqb_spec (b - a) 0) as [E|E].
    - split; [reflexivity|]. intros _. reflexivity.
    - split; [apply total_seconds_positive; lia|].
      intros [?|?]; [lia|]. now apply total_seconds_ge_one. }
  split; [exact Hfirst|]. split; [exact Hstep|].
  intros Hwhole [|i] x Hx.
  - now rewrite (Hfirst x Hx).
  - assert (Hi : (S i < length stamps)%nat).
    { apply lookup_lt_Some in Hx. unfold delta_time_of in Hx.
      autorewrite with len in Hx.
      rewrite Hlen, <- length_time_col, Ht, length_map in Hx. exact Hx. }
    destruct (lookup_lt_is_Some_2 stamps i) as [a Ha]; [lia|].
    destruct (lookup_lt_is_Some_2 stamps (S i)) as [b Hb]; [lia|].
    assert (Ha' : time_col cleaned !! i = Some (TStamp a))
      by now rewrite Ht, lookup_map, Ha.
    assert (Hb' : time_col cleaned !! S i = Some (TStamp b))
      by now rewrite Ht, lookup_map, Hb.
    destruct (Hstep i a b Ha' Hb') as (Hab & x' & Hx' & _ & _ & Hge).
    rewrite Hx in Hx'. injection Hx' as <-. apply Hge.
    destruct (Hwhole a) as [ka Hka];
      [eapply list_elem_of_lookup_2; exact Ha'|].
    destruct (Hwhole b) as [kb Hkb];
      [eapply list_elem_of_lookup_2; exact Hb'|].
    lia.
Qed.

Lemma delta_time_values_witness :
  exists out,
    preprocess_file three_points_file = Table out /\
    forall x, num_col "delta_time" out !! 0%nat = Some x -> x = F64.one.
Proof.
  destruct (is_table_Table (preprocess_file three_points_file)) as [out E];
    [vm_compute; reflexivity|].
  exists out. split; [exact E|].
  exact (proj1 (delta_time_values three_points_file out E)).
Defined.

(** C4 as stated fails: two samples half a second apart have strictly
    increasing timestamps, and the second [delta_time] is 1/2. *)
Lemma half_second_step :
  exists out,
    preprocess_file half_second_file = Table out /\
    time_col out = [TStamp 0; TStamp 500000000] /\
    stamps_increasing (time_col out) /\
    num_col "delta_time" out = [F64.one; Fin (1 # 2)] /\
    F64.leb F64.one (Fin (1 # 2)) = false.
Proof.
  destruct (returns_Table (preprocess_file half_second_file)
              (fun df => bool_decide (time_col df = [TStamp 0; TStamp 500000000])
                         && bool_decide (num_col "delta_time" df
                                         = [F64.one; Fin (1 # 2)])))
    as (out & E & [Ht Hdt]%andb_true_iff); [vm_compute; reflexivity|].
  apply bool_decide_eq_true in Ht. apply bool_decide_eq_true in Hdt.
  exists out. split; [exact E|]. clear E.
  split; [exact Ht|]. split; [|split; [exact Hdt | reflexivity]].
  rewrite Ht. intros [|[|i]] a b Ha Hb; simplify_eq/=. lia.
Qed.

(** ** Timestamps that do not parse *)

Lemma numv_set_numv_velocity c v r :
  c <> "velocity" -> numv c (set_numv "velocity" v r) = numv c r.
Proof. intros. now apply numv_set_numv_ne. Qed.

Lemma rows_usable_rows_all df :
  Forall passes_presence_check (rows df) ->
  length (rows (usable_rows df)) = length (rows df) /\
  Forall (fun r => exists r0, r0 ∈ rows df /\ time r = time r0) (rows (usable_rows df)).
Proof.
  intros H. unfold usable_rows, dropna. cbn [rows].
  destruct (has_col "velocity" df).
  - rewrite filter_id by exact H. split; [reflexivity|].
    apply Forall_forall. eauto.
  - unfold assign_num_const. cbn [rows].
    rewrite filter_id.
    + rewrite length_map. split; [reflexivity|].
      apply Forall_forall. intros r (r0 & -> & Hr0)%list_elem_of_fmap. eauto.
    + apply Forall_forall. intros r (r0 & -> & Hr0)%list_elem_of_fmap.
      rewrite Forall_forall in H. specialize (H r0 Hr0). revert H.
      unfold passes_presence_check, essential_cols, isna_at. cbn [forallb].
      simpl String.eqb. cbn [set_numv time].
      now rewrite !numv_set_numv_velocity by discriminate.
Qed.

Lemma rows_parse_sort_dedup_unparseable df :
  Forall (fun r => unparseable (time r)) (rows df) ->
  rows (parse_sort_dedup df) = [].
Proof.
  intros H. rewrite rows_parse_sort_dedup.
  replace (filter _ _) with (@nil row); [reflexivity|].
  symmetry. induction H as [|r l Hr _ IH]; [reflexivity|].
  cbn [map]. rewrite filter_cons, decide_False; [exact IH|].
  cbn [forallb]. unfold isna_at. simpl String.eqb. cbn [set_time time].
  unfold unparseable in Hr. rewrite Hr. simpl. discriminate.
Qed.

Lemma columns_usable_rows_iff df c :
  c ∈ columns (usable_rows df) <-> c = "velocity" \/ c ∈ columns df.
Proof.
  unfold usable_rows, dropna; cbn [columns].
  destruct (has_col "velocity" df) eqn:E.
  - apply bool_decide_eq_true in E. split; [auto|]. now intros [->|].
  - rewrite columns_assign_num_const, elem_of_add_col. tauto.
Qed.

Lemma columns_add_delta_heading df c :
  c ∈ columns (add_delta_heading df) <-> c = "delta_heading" \/ c ∈ columns df.
Proof.
  unfold add_delta_heading. destruct (has_col "heading" df).
  - now rewrite columns_assign_num, elem_of_add_col.
  - now rewrite columns_assign_num_const, elem_of_add_col.
Qed.

Lemma set_icao24_no_rows df :
  rows df = [] ->
  set_icao24 df =
  if has_col "icao24" df then Raise IndexError
  else Table (assign_txt_const "icao24" (Some "unknown") df).
Proof. intros E. unfold set_icao24. now rewrite E. Qed.

Lemma length_zero_nil {A} (l : list A) : length l = 0%nat -> l = [].
Proof. now destruct l. Qed.

Lemma is_text_unparseable t : is_text t = true -> unparseable t.
Proof. destruct t; try discriminate 1. reflexivity. Qed.

Lemma is_text_no_raise t : is_text t = true -> to_datetime_raises t = false.
Proof. destruct t; try discriminate 1. reflexivity. Qed.

(** A file with at least one row, all rows complete, every [time] a text
    that is not a number: no timestamp parses, the table is emptied after
    the test for an empty table, and the run ends at the [icao24] lookup. *)
Lemma text_times_outcome (f : raw_file) (df : DataFrame) :
  (10 <= size f)%Z ->
  csv f = Some df ->
  (forall c, c ∈ essential_cols -> c ∈ columns df) ->
  rows df <> [] ->
  Forall passes_presence_check (rows df) ->
  Forall (fun r => is_text (time r) = true) (rows df) ->
  ("icao24" ∈ columns df -> preprocess_file f = Raise IndexError) /\
  ("icao24" ∉ columns df ->
   exists out,
     preprocess_file f = Table out /\ rows out = [] /\
     forall c, c ∈ derived_cols -> c ∈ columns out).
Proof.
  intros Hsize Hcsv Hess Hrows Hpresent Htext.
  destruct (rows_usable_rows_all df Hpresent) as [Hlen Htimes].
  assert (Hclean : clean df =
                   inl (fill_numeric_cols (parse_sort_dedup (usable_rows df)))).
  { unfold clean. rewrite bool_decide_eq_false_2.
    - fold (usable_rows df). rewrite bool_decide_eq_false_2; [reflexivity|].
      intros E. rewrite E in Hlen. destruct (rows df); [auto | discriminate].
    - intros Hm. apply Hm. apply length_zero_nil.
      destruct (filter _ essential_cols) as [|c l] eqn:E; [reflexivity|exfalso].
      assert (Hc : c ∈ filter (fun c => c ∉ columns df) essential_cols)
        by (rewrite E; apply list_elem_of_here).
      apply list_elem_of_filter in Hc as [Hn Hc]. auto. }
  assert (Hfinite : to_datetime_overflows df = false).
  { apply to_datetime_overflows_false. intros r Hr _.
    rewrite Forall_forall in Htext. apply is_text_no_raise. auto. }
  set (mid := parse_sort_dedup (usable_rows df)) in *.
  assert (Hmid : rows mid = []).
  { apply rows_parse_sort_dedup_unparseable.
    eapply Forall_impl; [exact Htimes|].
    intros r (r0 & Hr0 & ->). rewrite Forall_forall in Htext.
    apply is_text_unparseable. auto. }
  assert (Hnum : forall c, c ∈ numeric_cols -> c ∈ columns mid)
    by (intros c Hc; now apply numeric_in_mid).
  set (cleaned := fill_numeric_cols mid) in *.
  assert (Hcleaned : rows cleaned = []).
  { apply length_zero_nil. unfold cleaned.
    rewrite length_rows_fill_numeric_cols by auto. now rewrite Hmid. }
  assert (Hdiff : time_diff (time_col cleaned) = Some [])
    by (unfold time_col; now rewrite Hcleaned).
  set (d := add_delta_heading (add_features [] cleaned)).
  assert (Hd : rows d = []).
  { apply length_zero_nil.
    pose proof (length_rows_enrich [] None cleaned) as L.
    unfold enrich in L. rewrite length_rows_assign_txt_const in L.
    fold d in L. rewrite L, Hcleaned; reflexivity. }
  assert (Hrun : preprocess_file f = set_icao24 d).
  { unfold preprocess_file.
    rewrite (proj2 (Z.ltb_ge _ _) Hsize), Hcsv, Hclean, Hfinite.
    fold cleaned. unfold derive. now rewrite Hdiff. }
  assert (Hd_cols : forall c, c ∈ columns d <->
            c = "delta_heading" \/ c ∈ derived_cols \/ c = "velocity" \/ c ∈ columns df).
  { intros c. unfold d, cleaned, mid.
    rewrite columns_add_delta_heading, columns_add_features,
      columns_fill_numeric_cols, columns_parse_sort_dedup,
      columns_usable_rows_iff by exact Hnum.
    unfold derived_cols, difference_cols. rewrite !elem_of_cons, !elem_of_nil.
    tauto. }
  rewrite Hrun, (set_icao24_no_rows d Hd). unfold has_col.
  split.
  - intros Hin. rewrite bool_decide_eq_true_2; [reflexivity|].
    apply Hd_cols. auto.
  - intros Hno. rewrite bool_decide_eq_false_2.
    + eexists. split; [reflexivity|]. split.
      * unfold assign_txt_const. cbn [rows]. now rewrite Hd.
      * intros c Hc. apply (columns_enrich [] (Some "unknown") cleaned). auto.
    + rewrite Hd_cols. intros [H|[H|[H|H]]]; try discriminate H; [|exact (Hno H)].
      unfold derived_cols, difference_cols in H.
      repeat (apply elem_of_cons in H as [H|H]; [discriminate H|]).
      now apply elem_of_nil in H.
Qed.

(** C10 at the failing input.  The one row of each of the two files passes
    the presence check and holds a [time] that does not parse.  In the file
    without an [icao24] column the run gives what C10 says, a table without
    rows that has every derived column.  In the file with the [icao24]
    column that the loader writes, the run returns no table: reading the
    first [icao24] value of the emptied table raises an IndexError. *)
Theorem unparseable_times_raise :
  Forall passes_presence_check (rows unparsed_icao_table) /\
  Forall (fun r => unparseable (time r)) (rows unparsed_icao_table) /\
  preprocess_file unparsed_icao_file = Raise IndexError /\
  exists out,
    preprocess_file unparsed_file = Table out /\ rows out = [] /\
    forall c, c ∈ derived_cols -> c ∈ columns out.
Proof.
  split; [repeat constructor|]. split; [repeat constructor|].
  split; [vm_compute; reflexivity|].
  apply (text_times_outcome unparsed_file unparsed_table).
  - vm_compute. discriminate.
  - reflexivity.
  - intros c Hc. unfold essential_cols in Hc. unfold unparsed_table.
    cbn [columns]. unfold track_cols.
    repeat (apply elem_of_cons in Hc as [->|Hc]; [in_list|]).
    now apply elem_of_nil in Hc.
  - discriminate.
  - repeat constructor.
  - repeat constructor.
  - unfold unparsed_table. cbn [columns]. unfold track_cols. intros H.
    repeat (apply elem_of_cons in H as [H|H]; [discriminate H|]).
    now apply elem_of_nil in H.
Qed.

(** ** The batch *)

Lemma process_files_no_raise (files : list raw_file) (w : world) :
  Forall (fun f => is_raise (preprocess_file f) = false) files ->
  snd (process_files files w) = None /\
  console (fst (process_files files w)) = console w ++ flat_map entries_of files /\
  disk (fst (process_files files w)) =
    match last_table files with
    | Some df => <[OUTPUT_CSV := df]> (disk w)
    | None => disk w
    end.
Proof.
  intros H. revert w. induction H as [|f files Hf _ IH]; intros w.
  - simpl. now rewrite app_nil_r.
  - cbn [process_files flat_map last_table]. unfold entries_of at 1.
    destruct (preprocess_file f) as [df|why|e]; [| |discriminate Hf].
    + destruct (IH (print (InfoSaved OUTPUT_CSV) (to_csv OUTPUT_CSV df w)))
        as (-> & -> & ->).
      cbn [print to_csv console disk]. rewrite <- app_assoc.
      repeat split.
      destruct (last_table files); [now rewrite insert_insert_eq | reflexivity].
    + destruct (IH (print (InfoSkipped (basename (path f))) (print (Warning why) w)))
        as (-> & -> & ->).
      cbn [print console disk]. rewrite <- !app_assoc.
      repeat split. destruct (last_table files); reflexivity.
Qed.

(** C7, as the code has it.  A skipped file never ends the batch: its
    warning and a "Skipped" line are printed and the loop goes on.  As long
    as no call of [preprocess_file] raises, the batch ends normally and every
    file has left its lines on the console, in order. *)
Theorem skip_does_not_abort (files : list raw_file) (w : world) :
  Forall (fun f => is_raise (preprocess_file f) = false) files ->
  snd (preprocess_all files w) = None /\
  console (fst (preprocess_all files w)) =
    console w ++ InfoFound (length files) :: flat_map entries_of files /\
  forall f why,
    f ∈ files -> preprocess_file f = Skip why ->
    entries_of f = [Warning why; InfoSkipped (basename (path f))].
Proof.
  intros H. unfold preprocess_all.
  destruct (process_files_no_raise files (print (InfoFound (length files)) w) H)
    as (-> & -> & _).
  cbn [print console]. rewrite <- app_assoc. repeat split.
  intros f why _ E. unfold entries_of. now rewrite E.
Qed.

Lemma skip_does_not_abort_witness :
  snd (preprocess_all [empty_file; three_points_file] fresh) = None /\
  console (fst (preprocess_all [empty_file; three_points_file] fresh)) =
    [InfoFound 2; Warning EmptyFile; InfoSkipped "empty.csv"; InfoSaved OUTPUT_CSV].
Proof.
  destruct (skip_does_not_abort [empty_file; three_points_file] fresh)
    as (Hend & Hlog & _).
  - repeat constructor; vm_compute; reflexivity.
  - split; [exact Hend|]. rewrite Hlog. vm_compute. reflexivity.
Defined.

(** C7 as stated fails for an unexpected error: the first file raises
    [IndexError], the exception leaves [preprocess_all], and the second file,
    which is fine on its own, is never processed. *)
Lemma error_aborts_batch :
  is_table (preprocess_file three_points_file) = true /\
  preprocess_all [unparsed_icao_file; three_points_file] fresh =
    (World ∅ [InfoFound 2], Some IndexError).
Proof. split; vm_compute; reflexivity. Qed.

Lemma last_table_snoc files f out :
  preprocess_file f = Table out -> last_table (files ++ [f]) = Some out.
Proof.
  intros E. induction files as [|f' files IH]; simpl.
  - now rewrite E.
  - now rewrite IH.
Qed.

Lemma entries_of_tables files :
  Forall (fun f => is_table (preprocess_file f) = true) files ->
  flat_map entries_of files = replicate (length files) (InfoSaved OUTPUT_CSV).
Proof.
  induction 1 as [|f files Hf _ IH]; simpl; [reflexivity|].
  rewrite IH. unfold entries_of. revert Hf.
  destruct (preprocess_file f); simpl; intros Hf; try discriminate Hf.
  reflexivity.
Qed.

(** C8.  When every file of the batch is processed with success, each one
    is saved to [OUTPUT_CSV]; at the end the folder differs from the initial
    one at that path only, which holds the table of the last file. *)
Theorem last_write_wins (files : list raw_file) (f : raw_file) (out : DataFrame)
    (w : world) :
  Forall (fun f => is_table (preprocess_file f) = true) files ->
  preprocess_file f = Table out ->
  snd (preprocess_all (files ++ [f]) w) = None /\
  disk (fst (preprocess_all (files ++ [f]) w)) = <[OUTPUT_CSV := out]> (disk w) /\
  console (fst (preprocess_all (files ++ [f]) w)) =
    console w ++ InfoFound (S (length files))
              :: replicate (S (length files)) (InfoSaved OUTPUT_CSV).
Proof.
  intros Hfiles Hf.
  assert (Hall : Forall (fun f => is_table (preprocess_file f) = true) (files ++ [f])).
  { apply Forall_app_2; [exact Hfiles|].
    constructor; [now rewrite Hf | constructor]. }
  assert (Hno : Forall (fun f => is_raise (preprocess_file f) = false) (files ++ [f])).
  { eapply Forall_impl; [exact Hall|]. intros g. cbv beta.
    destruct (preprocess_file g); simpl; intros Hg;
      (discriminate Hg || reflexivity). }
  unfold preprocess_all.
  destruct (process_files_no_raise (files ++ [f])
              (print (InfoFound (length (files ++ [f]))) w) Hno)
    as (-> & -> & ->).
  rewrite (last_table_snoc files f out Hf), (entries_of_tables _ Hall).
  rewrite length_app. cbn [length print console disk].
  rewrite <- app_assoc, Nat.add_1_r. repeat split.
Qed.

Lemma last_write_wins_witness :
  exists out,
    preprocess_file half_second_file = Table out /\
    disk (fst (preprocess_all [three_points_file; half_second_file] fresh))
    = <[OUTPUT_CSV := out]> ∅.
Proof.
  destruct (is_table_Table (preprocess_file half_second_file)) as [out E];
    [vm_compute; reflexivity|].
  exists out. split; [exact E|].
  destruct (last_write_wins [three_points_file] half_second_file out fresh)
    as (_ & Hdisk & _).
  - constructor; [vm_compute; reflexivity | constructor].
  - exact E.
  - exact Hdisk.
Defined.

(** ** The merge *)

(** C9.  When the processed folder holds no CSV file besides earlier merged
    data sets, [merge_processed_files] prints the error, returns [None] and
    writes nothing. *)
Theorem merge_without_inputs (parquet_ok : bool) (w : world) :
  filter (fun f => contains "merged_dataset" f = false) (Merge.glob_processed w) = [] ->
  snd (Merge.merge_processed_files parquet_ok w) = None /\
  disk (fst (Merge.merge_processed_files parquet_ok w)) = disk w /\
  console (fst (Merge.merge_processed_files parquet_ok w)) = console w ++ [ErrorNoProcessed].
Proof.
  intros H. unfold Merge.merge_processed_files. rewrite H. simpl. repeat split.
Qed.

Lemma merge_without_inputs_witness :
  Merge.glob_processed only_merged = [Merge.OUTPUT_CSV] /\
  snd (Merge.merge_processed_files true only_merged) = None /\
  disk (fst (Merge.merge_processed_files true only_merged)) = disk only_merged.
Proof.
  split; [vm_compute; reflexivity|].
  destruct (merge_without_inputs true only_merged) as (Hr & Hd & _).
  - vm_compute. reflexivity.
  - split; [exact Hr | exact Hd].
Defined.

(** ** What gap filling computes *)

Lemma interpolate_from_valid prev s i x :
  s !! i = Some x -> F64.is_nan x = false -> interpolate_from prev s !! i = Some x.
Proof.
  revert prev i. induction s as [|y s IH]; intros prev i Hi Hx; [easy|].
  destruct i as [|i]; simpl in Hi.
  - injection Hi as ->. simpl. now rewrite Hx.
  - simpl. destruct (F64.is_nan y); [destruct prev as [[ya k]|]|]; simpl; auto.
Qed.

Lemma bfill_valid s i x :
  s !! i = Some x -> F64.is_nan x = false -> bfill s !! i = Some x.
Proof.
  revert i. induction s as [|y s IH]; intros i Hi Hx; [easy|].
  destruct i as [|i]; simpl in Hi.
  - injection Hi as ->. simpl. now rewrite Hx.
  - simpl. auto.
Qed.

Lemma ffill_from_valid_lookup p s i x :
  s !! i = Some x -> F64.is_nan x = false -> ffill_from p s !! i = Some x.
Proof.
  revert p i. induction s as [|y s IH]; intros p i Hi Hx; [easy|].
  destruct i as [|i]; simpl in Hi.
  - injection Hi as ->. simpl. now rewrite Hx.
  - simpl. auto.
Qed.

Lemma fill_gaps_valid s i x :
  s !! i = Some x -> F64.is_nan x = false -> fill_gaps s !! i = Some x.
Proof.
  intros Hi Hx. unfold fill_gaps, ffill, interpolate_linear.
  auto using ffill_from_valid_lookup, bfill_valid, interpolate_from_valid.
Qed.

Lemma interpolate_from_app prev pre ya rest j :
  F64.is_nan ya = false ->
  interpolate_from prev (pre ++ ya :: rest) !! (length pre + S j)%nat =
  interpolate_from (Some (ya, 1%nat)) rest !! j.
Proof.
  intros Hya. revert prev. induction pre as [|y pre IH]; intros prev; simpl.
  - now rewrite Hya.
  - destruct (F64.is_nan y); [destruct prev as [[yp k]|]|]; simpl; apply IH.
Qed.

Lemma next_valid_gap gap yb post :
  all_nan gap -> F64.is_nan yb = false ->
  next_valid (gap ++ yb :: post) = Some (length gap, yb).
Proof.
  intros Hg Hyb. induction Hg as [|g gap Hgn _ IH]; simpl.
  - now rewrite Hyb.
  - now rewrite Hgn, IH.
Qed.

Lemma interpolate_from_gap ya d gap yb post k :
  all_nan gap -> F64.is_nan yb = false -> (k < length gap)%nat ->
  interpolate_from (Some (ya, d)) (gap ++ yb :: post) !! k =
  Some (np_interp ya yb (d + k) (d + length gap)).
Proof.
  intros Hg Hyb. revert d k. induction Hg as [|g gap Hgn Hg IH]; intros d k Hk;
    [simpl in Hk; lia|].
  simpl. rewrite Hgn, (next_valid_gap gap yb post Hg Hyb).
  destruct k as [|k]; simpl.
  - now rewrite Nat.add_0_r, Nat.add_succ_r.
  - rewrite IH by (simpl in Hk; lia). now rewrite !Nat.add_succ_r.
Qed.

Lemma interpolate_from_tail ya d gap :
  all_nan gap -> interpolate_from (Some (ya, d)) gap = replicate (length gap) ya.
Proof.
  intros Hg. revert d. induction Hg as [|g gap Hgn Hg IH]; intros d; simpl; auto.
  now rewrite Hgn, (next_valid_all_nan gap Hg), IH.
Qed.

Lemma interpolate_from_lead gap rest :
  all_nan gap ->
  interpolate_from None (gap ++ rest) = gap ++ interpolate_from None rest.
Proof.
  induction 1 as [|g gap Hgn _ IH]; simpl; auto.
  rewrite Hgn, IH. now destruct g.
Qed.

Lemma bfill_lead gap y tl :
  all_nan gap -> F64.is_nan y = false ->
  bfill (gap ++ y :: tl) = replicate (length gap) y ++ y :: bfill tl.
Proof.
  intros Hg Hy. induction Hg as [|g gap Hgn _ IH]; simpl.
  - now rewrite Hy.
  - rewrite Hgn, IH. now destruct gap.
Qed.

Lemma div_Fin_of_Z (x : f64) (n : Z) :
  n <> 0%Z ->
  F64.div x (F64.of_Z n) =
  match x with
  | Fin a => Fin (Qred (a / (n # 1)))
  | PInf => F64.signed_inf (n <? 0)%Z
  | NInf => F64.signed_inf (negb (n <? 0)%Z)
  | NaN => NaN
  end.
Proof.
  intros Hn. destruct x; simpl; auto.
  now rewrite (proj2 (Z.eqb_neq n 0) Hn).
Qed.

(** Between two finite neighbours [np_interp] is the straight line. *)
Lemma np_interp_finite (p q : Q) (k n : nat) :
  exists r,
    np_interp (Fin p) (Fin q) k (S n) = Fin r /\
    (r == p + (q - p) * (Z.of_nat k # 1) / (Z.of_nat (S n) # 1))%Q.
Proof.
  unfold np_interp.
  rewrite (div_Fin_of_Z _ (Z.of_nat (S n))) by lia.
  unfold F64.sub, F64.neg, F64.add, F64.mul, F64.of_Z. cbv iota beta.
  change (F64.is_nan (Fin ?x)) with false. cbv iota.
  eexists. split; [reflexivity|].
  rewrite !Qred_correct. field.
  intros E. unfold Qeq in E. simpl in E. lia.
Qed.

(** C6, as the code has it.  The chain [interpolate], [bfill], [ffill]
    keeps valid values, fills a gap between two finite neighbours on the
    straight line through them over the row positions, fills a leading gap
    with the first valid value and a trailing gap with the last one, and maps
    [1, NaN, 3] to [1, 2, 3].  In [preprocess_file] it runs on the four
    numeric columns of the sorted, deduplicated rows; there the three
    coordinate columns have no gap, because [dropna] has removed the rows,
    so only [velocity] is ever filled. *)
Theorem gap_filling :
  (forall s i x,
     s !! i = Some x -> F64.is_nan x = false -> fill_gaps s !! i = Some x) /\
  (forall pre p gap q post (k : nat),
     all_nan gap -> (k < length gap)%nat ->
     exists r,
       fill_gaps (pre ++ Fin p :: gap ++ Fin q :: post) !! (length pre + S k)%nat
         = Some (Fin r) /\
       (r == p + (q - p) * (Z.of_nat (S k) # 1) / (Z.of_nat (S (length gap)) # 1))%Q) /\
  (forall gap yb post (k : nat),
     all_nan gap -> F64.is_nan yb = false -> (k < length gap)%nat ->
     fill_gaps (gap ++ yb :: post) !! k = Some yb) /\
  (forall pre ya gap (k : nat),
     F64.is_nan ya = false -> all_nan gap -> (k < length gap)%nat ->
     fill_gaps (pre ++ ya :: gap) !! (length pre + S k)%nat = Some ya) /\
  fill_gaps [F64.of_Z 1; NaN; F64.of_Z 3] = [F64.of_Z 1; F64.of_Z 2; F64.of_Z 3] /\
  (forall f out,
     preprocess_file f = Table out ->
     exists df,
       csv f = Some df /\
       let sorted := parse_sort_dedup (usable_rows df) in
       (forall c, c ∈ numeric_cols -> num_col c out = fill_gaps (num_col c sorted)) /\
       (forall c, c ∈ coordinate_cols ->
          no_nan (num_col c sorted) /\ num_col c out = num_col c sorted)).
Proof.
  split; [exact fill_gaps_valid|].
  split.
  { intros pre p gap q post k Hg Hk.
    destruct (np_interp_finite p q (S k) (length gap)) as (r & Hr & Hq).
    exists r. split; [|exact Hq].
    unfold fill_gaps, ffill, interpolate_linear.
    apply ffill_from_valid_lookup; [|reflexivity].
    apply bfill_valid; [|reflexivity].
    rewrite interpolate_from_app by reflexivity.
    rewrite interpolate_from_gap by auto. now rewrite <- Hr. }
  split.
  { intros gap yb post k Hg Hyb Hk.
    unfold fill_gaps, ffill, interpolate_linear.
    apply ffill_from_valid_lookup; [|exact Hyb].
    rewrite interpolate_from_lead by exact Hg. simpl. rewrite Hyb.
    rewrite bfill_lead by auto.
    rewrite lookup_app_l by now rewrite length_replicate.
    now apply lookup_replicate_2. }
  split.
  { intros pre ya gap k Hya Hg Hk.
    unfold fill_gaps, ffill, interpolate_linear.
    apply ffill_from_valid_lookup; [|exact Hya].
    apply bfill_valid; [|exact Hya].
    rewrite interpolate_from_app by exact Hya.
    rewrite interpolate_from_tail by exact Hg.
    now apply lookup_replicate_2. }
  split; [vm_compute; reflexivity|].
  intros f out H.
  pose proof H as (df & deltas & v & Hcsv & Hess & _)%returned_table.
  exists df. split; [exact Hcsv|]. cbv zeta. split.
  - intros c Hc. now apply returned_filled with f.
  - intros c Hc. now apply returned_coordinates with f.
Qed.

Lemma gap_filling_witness :
  exists out,
    preprocess_file velocity_gap_file = Table out /\
    num_col "velocity" out = [F64.of_Z 1; F64.of_Z 2; F64.of_Z 3].
Proof.
  destruct (is_table_Table (preprocess_file velocity_gap_file)) as [out E];
    [vm_compute; reflexivity|].
  exists out. split; [exact E|].
  destruct gap_filling as (_ & _ & _ & _ & _ & H).
  destruct (H velocity_gap_file out E) as (df & Hcsv & Hv & _).
  injection Hcsv as <-.
  rewrite Hv by (unfold numeric_cols; in_list).
  vm_compute. reflexivity.
Defined.

(** C6 as stated fails on scenario D of the specification: the sample without
    [latitude] is dropped before the interpolation runs, so the column of
    the result is [1, 3], at times 0 s and 20 s. *)
Lemma latitude_gap_row_dropped :
  exists out,
    preprocess_file latitude_gap_file = Table out /\
    time_col out = [TStamp 0; TStamp 20000000000] /\
    num_col "latitude" out = [F64.of_Z 1; F64.of_Z 3].
Proof.
  destruct (returns_Table (preprocess_file latitude_gap_file)
              (fun df => bool_decide (time_col df = [TStamp 0; TStamp 20000000000])
                         && bool_decide (num_col "latitude" df
                                         = [F64.of_Z 1; F64.of_Z 3])))
    as (out & E & [Ht Hlat]%andb_true_iff); [vm_compute; reflexivity|].
  apply bool_decide_eq_true in Ht. apply bool_decide_eq_true in Hlat.
  exists out. split; [exact E|]. split; [exact Ht | exact Hlat].
Qed.

(** ** Rows before and after an assignment *)

Lemma row_agrees_refl cs r : row_agrees cs r r.
Proof. repeat split. Qed.

Lemma row_agrees_trans cs r1 r2 r3 :
  row_agrees cs r1 r2 -> row_agrees cs r2 r3 -> row_agrees cs r1 r3.
Proof.
  intros (Ht & Hx & Hn) (Ht' & Hx' & Hn'). repeat split; try congruence.
  intros c Hc. now rewrite Hn', Hn.
Qed.

Lemma rows_agree_refl cs l : rows_agree cs l l.
Proof. induction l; constructor; auto using row_agrees_refl. Qed.

Lemma rows_agree_trans cs l1 l2 l3 :
  rows_agree cs l1 l2 -> rows_agree cs l2 l3 -> rows_agree cs l1 l3.
Proof.
  intros H. revert l3. induction H as [|r1 r2 l1 l2 Hr _ IH]; intros l3 H3.
  - inversion H3. constructor.
  - inversion H3 as [|? r3 ? l3' Hr' H3']; subst. constructor.
    + eauto using row_agrees_trans.
    + now apply IH.
Qed.

Lemma rows_agree_map cs (g : row -> row) l :
  (forall r, row_agrees cs r (g r)) -> rows_agree cs l (map g l).
Proof. intros H. induction l; constructor; auto. Qed.

Lemma rows_agree_zip cs (g : row -> f64 -> row) l (s : list f64) :
  (forall r v, row_agrees cs r (g r v)) -> length s = length l ->
  rows_agree cs l (zip_with g l s).
Proof.
  intros H. revert s. induction l as [|r l IH]; intros [|v s] E;
    try discriminate E; simpl.
  - constructor.
  - constructor; [apply H | apply IH; simpl in E; lia].
Qed.

Lemma row_agrees_set_numv cs c v r : c ∈ cs -> row_agrees cs r (set_numv c v r).
Proof.
  intros Hc. repeat split. intros c' Hc'. simpl.
  apply lookup_insert_ne. intros ->. contradiction.
Qed.

Lemma rows_agree_assign_num cs c s df :
  c ∈ cs -> rows_agree cs (rows df) (rows (assign_num c s df)).
Proof.
  intros Hc. unfold assign_num; cbn [rows]. apply rows_agree_zip.
  - intros r v. now apply row_agrees_set_numv.
  - apply length_resize.
Qed.

Lemma rows_agree_with_column cs c f df :
  c ∈ cs -> rows_agree cs (rows df) (rows (with_column c f df)).
Proof. apply rows_agree_assign_num. Qed.

Lemma rows_agree_assign_num_const cs c v df :
  c ∈ cs -> rows_agree cs (rows df) (rows (assign_num_const c v df)).
Proof.
  intros Hc. unfold assign_num_const; cbn [rows]. apply rows_agree_map.
  intros r. now apply row_agrees_set_numv.
Qed.

Lemma rows_agree_add_features deltas df :
  rows_agree derived_cols (rows df) (rows (add_features deltas df)).
Proof.
  unfold add_features, feature_steps; cbn [foldl].
  repeat (eapply rows_agree_trans;
            [|apply rows_agree_with_column; unfold derived_cols, difference_cols;
              in_list]).
  apply rows_agree_refl.
Qed.

Lemma rows_agree_add_delta_heading df :
  rows_agree derived_cols (rows df) (rows (add_delta_heading df)).
Proof.
  unfold add_delta_heading. destruct (has_col "heading" df).
  - apply rows_agree_assign_num. unfold derived_cols, difference_cols. in_list.
  - apply rows_agree_assign_num_const. unfold derived_cols, difference_cols. in_list.
Qed.

Lemma rows_agree_features deltas df :
  rows_agree derived_cols (rows df)
    (rows (add_delta_heading (add_features deltas df))).
Proof.
  eapply rows_agree_trans;
    [apply rows_agree_add_features | apply rows_agree_add_delta_heading].
Qed.

Lemma rows_agree_fill_column cs df col :
  col ∈ cs -> rows_agree cs (rows df) (rows (fill_column df col)).
Proof.
  intros Hc. unfold fill_column. destruct (has_col col df).
  - now apply rows_agree_assign_num.
  - now apply rows_agree_assign_num_const.
Qed.

Lemma rows_agree_fill_numeric_cols df :
  rows_agree numeric_cols (rows df) (rows (fill_numeric_cols df)).
Proof.
  unfold fill_numeric_cols, numeric_cols; cbn [foldl].
  repeat (eapply rows_agree_trans;
            [|apply rows_agree_fill_column; in_list]).
  apply rows_agree_refl.
Qed.

(** Columns outside [cs] read the same in two tables that agree. *)
Lemma num_col_agree cs l l' c :
  rows_agree cs l l' -> c ∉ cs -> map (numv c) l' = map (numv c) l.
Proof.
  induction 1 as [|r r' l l' (_ & _ & Hn) _ IH]; intros Hc; simpl; [reflexivity|].
  f_equal; auto. unfold numv. now rewrite Hn.
Qed.

(** ** Text columns, absent columns and timestamps *)

Lemma txt_assign_txt_const c v df :
  Forall (fun r => txt r !! c = v) (rows (assign_txt_const c v df)).
Proof.
  unfold assign_txt_const; cbn [rows]. apply Forall_forall.
  intros r (r0 & -> & _)%list_elem_of_fmap. simpl.
  destruct v; [apply lookup_insert_eq | apply lookup_delete_eq].
Qed.

Lemma filter_absent (cols l : list string) :
  (forall c, c ∈ l -> c ∈ cols) -> filter (fun c => c ∉ cols) l = [].
Proof.
  induction l as [|c l IH]; intros H; [reflexivity|].
  rewrite filter_cons, decide_False.
  - apply IH. intros c' Hc'. apply H. now apply list_elem_of_further.
  - intros Hn. apply Hn, H, list_elem_of_here.
Qed.

Lemma rows_of_stamps (l : list row) (stamps : list Z) :
  map time l = map TStamp stamps -> StronglySorted Z.le stamps ->
  Forall (fun r => is_stamp (time r) = true) l /\ StronglySorted time_le l.
Proof.
  revert stamps. induction l as [|r l IH]; intros [|a stamps] E Hs;
    try discriminate E.
  - split; constructor.
  - simpl in E. injection E as Er E.
    apply StronglySorted_inv in Hs as [Hs Ha].
    destruct (IH stamps E Hs) as [Hst Hsorted].
    split; constructor; auto.
    + now rewrite Er.
    + clear -Er E Ha. revert stamps E Ha.
      induction l as [|r' l IH]; intros [|b stamps] E Ha; try discriminate E;
        constructor.
      * simpl in E. injection E as Er' _. apply Forall_cons in Ha as [Hab _].
        unfold time_le. rewrite Er, Er'. simpl. lia.
      * simpl in E. injection E as _ E. apply Forall_cons in Ha as [_ Ha].
        eapply IH; eauto.
Qed.

Lemma num_col_enrich_other deltas v df c :
  c ∉ derived_cols -> num_col c (enrich deltas v df) = num_col c df.
Proof.
  intros Hc. unfold enrich. rewrite num_col_assign_txt_const.
  unfold num_col. eapply num_col_agree; [apply rows_agree_features | exact Hc].
Qed.

Lemma heading_not_derived : "heading" ∉ derived_cols.
Proof.
  unfold derived_cols, difference_cols. intros H.
  repeat (apply elem_of_cons in H as [H|H]; [discriminate H|]).
  now apply elem_of_nil in H.
Qed.

(** ** Running the pipeline on the file it wrote *)

Lemma is_index_error_Raise o : is_index_error o = true -> o = Raise IndexError.
Proof. destruct o as [df|why|[]]; try discriminate 1. reflexivity. Qed.

Lemma read_back_with_time_texts texts out :
  length texts = length (rows out) -> read_back out (with_time_texts texts out).
Proof.
  intros Hlen. split; [reflexivity|].
  unfold with_time_texts. cbn [rows].
  revert texts Hlen. induction (rows out) as [|r l IH]; intros [|s texts] Hlen;
    try discriminate Hlen; cbn [zip_with]; constructor.
  - split; [reflexivity|]. intros c x Hx. unfold numv, set_time. cbn [num].
    now rewrite Hx.
  - apply IH. now injection Hlen.
Qed.

(** A table without rows is skipped, whatever its columns. *)
Lemma no_rows_skipped (f : raw_file) (df : DataFrame) :
  (10 <= size f)%Z -> csv f = Some df ->
  (forall c, c ∈ essential_cols -> c ∈ columns df) ->
  rows df = [] ->
  preprocess_file f = Skip NoUsableRows.
Proof.
  intros Hsize Hcsv Hess Hrows. unfold preprocess_file.
  rewrite (proj2 (Z.ltb_ge _ _) Hsize), Hcsv. unfold clean.
  rewrite (filter_absent _ _ Hess).
  rewrite bool_decide_eq_false_2 by (intros E; now apply E).
  rewrite bool_decide_eq_true_2; [reflexivity|].
  unfold dropna. cbn [rows].
  destruct (has_col "velocity" df); [now rewrite Hrows|].
  unfold assign_num_const. cbn [rows]. now rewrite Hrows.
Qed.

(** The rows read back from the file of a returned table all pass the
    presence check, and none has a [time] that is a number. *)
Lemma read_back_rows (l l' : list row) :
  Forall (fun r => is_stamp (time r) = true) l ->
  (forall c, c ∈ coordinate_cols -> Forall (fun r => F64.is_nan (numv c r) = false) l) ->
  Forall2 read_back_row l l' ->
  Forall passes_presence_check l' /\ Forall (fun r => is_text (time r) = true) l'.
Proof.
  intros Hst Hco Hb.
  induction Hb as [|r r' l l' [Ht Hn] _ IH]; [split; constructor|].
  apply Forall_cons in Hst as [Hr Hst].
  assert (Hco' : forall c, c ∈ coordinate_cols ->
            Forall (fun r => F64.is_nan (numv c r) = false) l).
  { intros c Hc. specialize (Hco c Hc). now apply Forall_cons in Hco as [_ Hco]. }
  destruct (IH Hst Hco') as [IH1 IH2].
  assert (Htext : is_text (time r') = true) by auto.
  assert (Hnum : forall c, c ∈ coordinate_cols -> F64.is_nan (numv c r') = false).
  { intros c Hc. specialize (Hco c Hc). apply Forall_cons in Hco as [Hx _].
    unfold numv in Hx. destruct (num r !! c) as [x|] eqn:E; [|discriminate Hx].
    now rewrite (Hn c x E). }
  split; constructor; auto.
  unfold passes_presence_check, essential_cols, isna_at. cbn [forallb].
  simpl String.eqb. cbv iota.
  rewrite !Hnum by (unfold coordinate_cols; in_list).
  destruct (time r'); try discriminate Htext. reflexivity.
Qed.

(** C3, as the code has it.  [preprocess_file] takes a path, so a second
    run reads the returned table back from the file [to_csv] wrote.  The
    [time] column comes back as text, no timestamp parses, and no sample is
    kept: the second run never gives the table back.  For a table with rows
    it ends in the IndexError of the [icao24] lookup on the emptied table; a
    table without rows is skipped. *)
Theorem second_run_keeps_no_sample
    (f : raw_file) (out back : DataFrame) (p : string) (n : Z) :
  preprocess_file f = Table out ->
  read_back out back ->
  (10 <= n)%Z ->
  preprocess_file (RawFile p n (Some back)) =
  if bool_decide (rows out = []) then Skip NoUsableRows else Raise IndexError.
Proof.
  intros H [Hbcols Hbrows] Hn.
  destruct (returned_stamps f out H) as (stamps & Ht & Hs).
  destruct (rows_of_stamps (rows out) stamps Ht Hs) as [Hstamp _].
  pose proof H as (df & deltas & v & Hcsv & Hess & Hdiff & Hlen & Hout)%returned_table.
  assert (Hcoord : forall c, c ∈ coordinate_cols ->
            Forall (fun r => F64.is_nan (numv c r) = false) (rows out)).
  { intros c Hc.
    destruct (returned_coordinates f out df c H Hcsv Hc) as [Hnn E].
    rewrite <- E in Hnn. unfold no_nan in Hnn. now rewrite Forall_num_col in Hnn. }
  assert (Hcols : forall c, c ∈ columns out <->
            c = "icao24" \/ c ∈ derived_cols \/ c = "velocity" \/ c ∈ columns df).
  { intros c. rewrite Hout, columns_enrich.
    rewrite columns_fill_numeric_cols by (intros c' Hc'; now apply numeric_in_mid).
    rewrite columns_parse_sort_dedup, columns_usable_rows_iff. reflexivity. }
  assert (Hess_back : forall c, c ∈ essential_cols -> c ∈ columns back)
    by (intros c Hc; rewrite Hbcols; apply Hcols; auto).
  destruct (read_back_rows (rows out) (rows back) Hstamp Hcoord Hbrows)
    as [Hpresent Htext].
  case_bool_decide as Hrows.
  - apply (no_rows_skipped _ back); auto.
    rewrite Hrows in Hbrows. now apply Forall2_nil_inv_l in Hbrows.
  - apply (text_times_outcome (RawFile p n (Some back)) back); auto.
    + intros E. rewrite E in Hbrows. now apply Forall2_nil_inv_r in Hbrows.
    + rewrite Hbcols. apply Hcols. auto.
Qed.

Lemma second_run_keeps_no_sample_witness :
  exists out,
    preprocess_file three_points_file = Table out /\
    preprocess_file
      (RawFile OUTPUT_CSV 200 (Some (with_time_texts three_points_times out))) =
    Raise IndexError.
Proof.
  destruct (returns_Table (preprocess_file three_points_file)
              (fun df => bool_decide (length (rows df) = 3%nat)))
    as (out & E & Hlen%bool_decide_eq_true); [vm_compute; reflexivity|].
  exists out. split; [exact E|].
  rewrite (second_run_keeps_no_sample three_points_file out
             (with_time_texts three_points_times out) OUTPUT_CSV 200 E).
  - rewrite bool_decide_eq_false_2; [reflexivity|].
    intros E'. rewrite E' in Hlen. discriminate Hlen.
  - apply read_back_with_time_texts. now rewrite Hlen.
  - vm_compute. discriminate.
Defined.

(** C3 as stated fails at the three samples ten seconds apart: the table
    returned for them, read back from the file it is written to, does not
    come out of a second run. *)
Lemma second_run_differs :
  exists out back,
    preprocess_file three_points_file = Table out /\
    read_back out back /\
    preprocess_file (RawFile OUTPUT_CSV 200 (Some back)) = Raise IndexError /\
    preprocess_file (RawFile OUTPUT_CSV 200 (Some back)) <> Table out.
Proof.
  destruct (returns_Table (preprocess_file three_points_file)
              (fun df =>
                 bool_decide (length (rows df) = 3%nat)
                 && is_index_error
                      (preprocess_file
                         (RawFile OUTPUT_CSV 200
                            (Some (with_time_texts three_points_times df))))))
    as (out & E & [Hlen%bool_decide_eq_true Hre%is_index_error_Raise]%andb_true_iff);
    [vm_compute; reflexivity|].
  exists out, (with_time_texts three_points_times out).
  split; [exact E|].
  split; [apply read_back_with_time_texts; now rewrite Hlen|].
  split; [exact Hre|].
  rewrite Hre. discriminate.
Qed.

(* ===================================================================== *)
(** * Further properties *)
(* ===================================================================== *)

(** ** The two helpers *)

Lemma lookup_diff_from p s i a b :
  (p :: s) !! i = Some a -> s !! i = Some b ->
  diff_from p s !! i = Some (F64.sub b a).
Proof.
  revert p i. induction s as [|x s IH]; intros p [|i] Ha Hb; simplify_eq/=; auto.
Qed.

Lemma fillna_no_nan v s : F64.is_nan v = false -> no_nan (fillna v s).
Proof.
  intros Hv. unfold no_nan, fillna. induction s as [|x s IH]; cbn [map]; constructor.
  - destruct (F64.is_nan x) eqn:E; [exact Hv | exact E].
  - exact IH.
Qed.

Lemma safe_diff_no_nan s : no_nan (safe_diff s).
Proof. now apply fillna_no_nan. Qed.

Lemma lookup_safe_diff s i a b :
  s !! i = Some a -> s !! S i = Some b ->
  safe_diff s !! S i =
  Some (if F64.is_nan (F64.sub b a) then F64.zero else F64.sub b a).
Proof.
  intros Ha Hb. unfold safe_diff, fillna. rewrite lookup_map.
  destruct s as [|x s]; [easy|]. cbn [series_diff].
  change ((NaN :: diff_from x s) !! S i) with (diff_from x s !! i).
  now rewrite (lookup_diff_from x s i a b Ha Hb).
Qed.

(** X1. [safe_diff] keeps the length of the series, puts 0 in front and, at
    every later position, the value minus its predecessor, or 0 where that
    difference is undefined; the result holds no missing value. *)
Theorem safe_diff_values (s : list f64) :
  length (safe_diff s) = length s /\
  (forall x, safe_diff s !! 0%nat = Some x -> x = F64.zero) /\
  (forall (i : nat) (a b : f64),
     s !! i = Some a -> s !! S i = Some b ->
     safe_diff s !! S i =
       Some (if F64.is_nan (F64.sub b a) then F64.zero else F64.sub b a)) /\
  no_nan (safe_diff s).
Proof.
  split; [apply length_safe_diff|].
  split; [apply safe_diff_first|].
  split; [apply lookup_safe_diff | apply safe_diff_no_nan].
Qed.

Lemma safe_diff_values_witness :
  safe_diff [F64.of_Z 1; F64.of_Z 4; NaN] !! 1%nat = Some (F64.of_Z 3) /\
  safe_diff [F64.of_Z 1; F64.of_Z 4; NaN] !! 2%nat = Some F64.zero.
Proof.
  split.
  - exact (proj1 (proj2 (proj2 (safe_diff_values [F64.of_Z 1; F64.of_Z 4; NaN])))
             0%nat (F64.of_Z 1) (F64.of_Z 4) eq_refl eq_refl).
  - exact (proj1 (proj2 (proj2 (safe_diff_values [F64.of_Z 1; F64.of_Z 4; NaN])))
             1%nat (F64.of_Z 4) NaN eq_refl eq_refl).
Defined.

Lemma lookup_series_div_pad (a b : list f64) (i : nat) :
  (Nat.min (length a) (length b) <= i < Nat.max (length a) (length b))%nat ->
  series_div a b !! i = Some NaN.
Proof.
  revert b i. induction a as [|x a IH]; intros [|y b] i; cbn [length series_div].
  - simpl. lia.
  - intros H. rewrite lookup_map.
    destruct ((y :: b) !! i) eqn:E; [reflexivity|].
    apply lookup_ge_None in E. cbn [length] in E. simpl in H. lia.
  - intros H. rewrite lookup_map.
    destruct ((x :: a) !! i) eqn:E; [reflexivity|].
    apply lookup_ge_None in E. cbn [length] in E. simpl in H. lia.
  - intros H. destruct i as [|i]; [simpl in H; lia|].
    apply IH. simpl in H. lia.
Qed.

(** X2. On two series of unequal length [safe_div] returns a series as long
    as the longer one, and every position the shorter one does not reach
    holds 0. *)
Theorem safe_div_unequal_lengths (a b : list f64) (i : nat) :
  length (safe_div a b) = Nat.max (length a) (length b) /\
  ((Nat.min (length a) (length b) <= i < Nat.max (length a) (length b))%nat ->
   safe_div a b !! i = Some F64.zero).
Proof.
  split; [apply length_safe_div_max|].
  intros H. unfold safe_div, fillna, replace_inf. rewrite !lookup_map.
  rewrite lookup_series_div_pad; [reflexivity|].
  now rewrite length_replace_zero.
Qed.

Lemma safe_div_unequal_lengths_witness :
  safe_div [F64.of_Z 6; F64.of_Z 8] [F64.of_Z 2] !! 1%nat = Some F64.zero.
Proof.
  apply (proj2 (safe_div_unequal_lengths [F64.of_Z 6; F64.of_Z 8] [F64.of_Z 2] 1)).
  simpl. lia.
Defined.

(** ** The outcome of [preprocess_file] *)

Lemma set_icao24_not_Skip df why : set_icao24 df <> Skip why.
Proof.
  unfold set_icao24.
  destruct (has_col "icao24" df); [destruct (rows df)|]; intros H; discriminate H.
Qed.

Lemma derive_not_Skip df why : derive df <> Skip why.
Proof.
  unfold derive.
  destruct (time_diff (time_col df)); [apply set_icao24_not_Skip|].
  intros H; discriminate H.
Qed.

Lemma presence_check_velocity v r :
  passes_presence_check (set_numv "velocity" v r) <-> passes_presence_check r.
Proof.
  unfold passes_presence_check, essential_cols, isna_at. cbn [forallb].
  simpl String.eqb. cbn [set_numv time].
  now rewrite !numv_set_numv_velocity by discriminate.
Qed.


(** The rows that survive the presence check of STEP 2 are rows of the file,
    up to the [velocity] cell. *)
Lemma elem_of_usable_rows df r :
  r ∈ rows (usable_rows df) <->
  exists r0, r0 ∈ rows df /\ passes_presence_check r0 /\
    r = if has_col "velocity" df then r0 else set_numv "velocity" F64.zero r0.
Proof.
  unfold usable_rows, dropna. cbn [rows].
  rewrite list_elem_of_filter. fold (passes_presence_check r).
  destruct (has_col "velocity" df).
  - split; [intros [H1 H2]; eauto|]. now intros (r0 & H1 & H2 & ->).
  - unfold assign_num_const. cbn [rows]. rewrite list_elem_of_fmap. split.
    + intros [H1 (r0 & -> & H2)]. apply presence_check_velocity in H1. eauto.
    + intros (r0 & H1 & H2 & ->). split; [now apply presence_check_velocity | eauto].
Qed.

Lemma usable_rows_nil df :
  rows (usable_rows df) = [] <->
  Forall (fun r => ~ passes_presence_check r) (rows df).
Proof.
  rewrite Forall_forall. split.
  - intros E r Hr Hp.
    assert (H : (if has_col "velocity" df then r
                 else set_numv "velocity" F64.zero r) ∈ rows (usable_rows df))
      by (apply elem_of_usable_rows; eauto).
    rewrite E in H. now apply elem_of_nil in H.
  - intros H. destruct (rows (usable_rows df)) as [|r l] eqn:E; [reflexivity|].
    assert (Hr : r ∈ rows (usable_rows df)) by (rewrite E; apply list_elem_of_here).
    apply elem_of_usable_rows in Hr as (r0 & Hr0 & Hp & _).
    now destruct (H r0 Hr0).
Qed.

Lemma clean_inr df why :
  clean df = inr why <->
  let missing := filter (fun c => c ∉ columns df) essential_cols in
  (missing <> [] /\ why = MissingColumns missing) \/
  (missing = [] /\ why = NoUsableRows /\
   Forall (fun r => ~ passes_presence_check r) (rows df)).
Proof.
  cbv zeta. unfold clean. fold (usable_rows df).
  rewrite <- usable_rows_nil.
  case_bool_decide as Hm.
  - split.
    + intros [= <-]. left. auto.
    + intros [[_ ->]|[Hn _]]; [reflexivity | contradiction].
  - case_bool_decide as Hr.
    + split.
      * intros [= <-]. right. auto.
      * intros [[Hn _]|(_ & -> & _)]; [contradiction | reflexivity].
    + split; [intros H; discriminate H|].
      intros [[Hn _]|(_ & _ & Hn)]; contradiction.
Qed.

Lemma clean_accepts df :
  (forall c, c ∈ essential_cols -> c ∈ columns df) ->
  rows (usable_rows df) <> [] ->
  clean df = inl (fill_numeric_cols (parse_sort_dedup (usable_rows df))).
Proof.
  intros Hess Hrows. unfold clean.
  rewrite bool_decide_eq_false_2.
  - fold (usable_rows df). now rewrite bool_decide_eq_false_2.
  - intros Hm. apply Hm. now apply filter_absent.
Qed.

(** X3. The three ways [preprocess_file] skips a file, and no other: a file
    under 10 bytes (whatever it holds); a table that lacks essential columns,
    reported in the order time, latitude, longitude, baro_altitude; a table
    with all of them in which every row misses an essential value. *)
Theorem skip_reasons (f : raw_file) (why : skip_reason) :
  preprocess_file f = Skip why <->
  ((size f < 10)%Z /\ why = EmptyFile) \/
  ((10 <= size f)%Z /\
   exists df, csv f = Some df /\
     let missing := filter (fun c => c ∉ columns df) essential_cols in
     (missing <> [] /\ why = MissingColumns missing) \/
     (missing = [] /\ why = NoUsableRows /\
      Forall (fun r => ~ passes_presence_check r) (rows df))).
Proof.
  unfold preprocess_file. destruct (size f <? 10)%Z eqn:Hs.
  - apply Z.ltb_lt in Hs. split.
    + intros [= <-]. left. auto.
    + intros [[_ ->]|[Hge _]]; [reflexivity | lia].
  - apply Z.ltb_ge in Hs. destruct (csv f) as [df|].
    + pose proof (clean_inr df why) as Hc. destruct (clean df) as [cleaned|why'].
      * split.
        -- destruct (to_datetime_overflows df); intros H; [discriminate H|].
           now apply derive_not_Skip in H.
        -- intros [[Hlt _]|(_ & df' & [= <-] & H)]; [lia|].
           apply Hc in H. discriminate H.
      * split.
        -- intros [= ->]. right. split; [exact Hs|].
           exists df. split; [reflexivity|]. now apply Hc.
        -- intros [[Hlt _]|(_ & df' & [= <-] & H)]; [lia|].
           apply Hc in H. now injection H as ->.
    + split; [intros H; discriminate H|].
      intros [[Hlt _]|(_ & df' & H & _)]; [lia | discriminate H].
Qed.

Lemma skip_reasons_witness :
  preprocess_file empty_file = Skip EmptyFile /\
  preprocess_file unparsed_file <> Skip NoUsableRows.
Proof.
  split.
  - apply (proj2 (skip_reasons empty_file EmptyFile)). left.
    split; [vm_compute; reflexivity | reflexivity].
  - intros H. apply (proj1 (skip_reasons unparsed_file NoUsableRows)) in H.
    destruct H as [[H _]|(_ & df & [= <-] & H)]; [vm_compute in H; discriminate H|].
    cbv zeta in H. destruct H as [[_ H]|(_ & _ & H)]; [discriminate H|].
    apply Forall_cons in H as [H _]. apply H. vm_compute. reflexivity.
Defined.

(** *** Where the rows of a returned table come from *)

Lemma to_datetime_s_range t ns :
  to_datetime_s t = TStamp ns -> (ns <= INT64_MAX)%Z \/ t = TStamp ns.
Proof.
  destruct t as [[q| | |]|s|z|]; cbn [to_datetime_s]; try (intros H; discriminate H).
  - destruct (_ && _) eqn:E; [|intros H; discriminate H].
    intros [= <-]. apply andb_true_iff in E as [_ E]. left. lia.
  - intros [= ->]. now right.
Qed.

Lemma elem_of_parse_sort_dedup df r :
  r ∈ rows (parse_sort_dedup df) ->
  exists r0, r0 ∈ rows df /\ r = set_time (to_datetime_s (time r0)) r0 /\
             is_stamp (time r) = true.
Proof.
  rewrite rows_parse_sort_dedup.
  intros H%elem_of_dedup. rewrite sort_by_time_perm in H.
  apply list_elem_of_filter in H as [Ht (r0 & -> & Hr0)%list_elem_of_fmap].
  exists r0. split; [exact Hr0|]. split; [reflexivity|].
  apply to_datetime_s_stamp. cbn [forallb] in Ht.
  unfold isna_at in Ht. simpl String.eqb in Ht. cbn [set_time time] in Ht |- *.
  now destruct (tcell_isna (to_datetime_s (time r0))).
Qed.

Lemma tcell_eqb_stamp a b :
  is_stamp a = true -> tcell_eqb a b = true -> a = b.
Proof.
  destruct a, b; cbn; try (intros H; discriminate H); try (intros _ H; discriminate H).
  intros _ H%Z.eqb_eq. now subst.
Qed.

(** [drop_duplicates] keeps every timestamp. *)
Lemma dedup_keeps_times cols l r :
  Forall (fun r => is_stamp (time r) = true) l ->
  r ∈ l -> exists r', r' ∈ dedup cols l /\ time r' = time r.
Proof.
  induction 1 as [|x l Hx Hl IH]; [now intros ?%elem_of_nil|].
  intros [->|Hr]%elem_of_cons; cbn [dedup].
  - exists x. split; [apply list_elem_of_here | reflexivity].
  - destruct (IH Hr) as (r' & Hr' & E).
    destruct (row_eqb cols x r') eqn:Heq.
    + exists x. split; [apply list_elem_of_here|].
      unfold row_eqb in Heq. apply andb_true_iff in Heq as [Heq _].
      rewrite <- E. now apply tcell_eqb_stamp.
    + exists r'. split; [|exact E].
      apply list_elem_of_further, list_elem_of_filter. auto.
Qed.

Lemma parse_sort_dedup_keeps_times df r0 :
  r0 ∈ rows df -> is_stamp (to_datetime_s (time r0)) = true ->
  exists r, r ∈ rows (parse_sort_dedup df) /\ time r = to_datetime_s (time r0).
Proof.
  intros Hr0 Hs. rewrite rows_parse_sort_dedup.
  destruct (dedup_keeps_times (columns df)
              (sort_by_time
                 (filter (fun r => forallb (fun c => negb (isna_at r c)) ["time"] = true)
                         (map (fun r => set_time (to_datetime_s (time r)) r) (rows df))))
              (set_time (to_datetime_s (time r0)) r0)) as (r & Hr & E).
  - apply Forall_sort_by_time, Forall_forall.
    intros r [Ht (r1 & -> & _)%list_elem_of_fmap]%list_elem_of_filter.
    apply to_datetime_s_stamp. cbn [forallb] in Ht.
    unfold isna_at in Ht. simpl String.eqb in Ht. cbn [set_time time] in Ht |- *.
    now destruct (tcell_isna (to_datetime_s (time r1))).
  - rewrite sort_by_time_perm. apply list_elem_of_filter. split.
    + cbn [forallb]. unfold isna_at. simpl String.eqb. cbn [set_time time].
      destruct (to_datetime_s (time r0)); try discriminate Hs. reflexivity.
    + apply list_elem_of_fmap. eauto.
  - exists r. split; [exact Hr | exact E].
Qed.

Lemma time_usable_row df (r0 : row) :
  time (if has_col "velocity" df then r0 else set_numv "velocity" F64.zero r0) = time r0.
Proof. now destruct (has_col "velocity" df). Qed.

Lemma length_rows_parse_sort_dedup df :
  (length (rows (parse_sort_dedup df)) <= length (rows df))%nat.
Proof.
  rewrite rows_parse_sort_dedup.
  assert (Hd : forall cols l, (length (dedup cols l) <= length l)%nat).
  { intros cols l. induction l as [|x l IH]; [reflexivity|]. cbn [dedup length].
    pose proof (length_filter (fun r' => row_eqb cols x r' = false) (dedup cols l)). lia. }
  etransitivity; [apply Hd|].
  rewrite sort_by_time_perm.
  etransitivity; [apply length_filter|]. now rewrite length_map.
Qed.

Lemma length_rows_usable_rows df :
  (length (rows (usable_rows df)) <= length (rows df))%nat.
Proof.
  unfold usable_rows, dropna. cbn [rows].
  etransitivity; [apply length_filter|].
  destruct (has_col "velocity" df); [reflexivity|].
  unfold assign_num_const. cbn [rows]. now rewrite length_map.
Qed.

(** X4. A returned table holds no sample the file did not hold: it has at
    most as many rows, and its timestamps are exactly the parsed timestamps
    of the rows of the file that miss no essential value. *)
Theorem samples_come_from_input (f : raw_file) (out df : DataFrame) :
  preprocess_file f = Table out -> csv f = Some df ->
  (length (rows out) <= length (rows df))%nat /\
  forall t, t ∈ time_col out <->
    is_stamp t = true /\
    exists r, r ∈ rows df /\ passes_presence_check r /\ t = to_datetime_s (time r).
Proof.
  intros H Hcsv. pose proof (returned_time_col f out df H Hcsv) as Ht. split.
  - rewrite <- length_time_col, Ht, length_time_col.
    etransitivity; [apply length_rows_parse_sort_dedup | apply length_rows_usable_rows].
  - intros t. rewrite Ht. unfold time_col. rewrite list_elem_of_In, in_map_iff.
    split.
    + intros (r & <- & Hr%list_elem_of_In).
      apply elem_of_parse_sort_dedup in Hr as (r1 & Hr1 & -> & Hs).
      split; [exact Hs|]. cbn [set_time time].
      apply elem_of_usable_rows in Hr1 as (r0 & Hr0 & Hp & ->).
      exists r0. now rewrite time_usable_row.
    + intros (Hs & r0 & Hr0 & Hp & ->).
      destruct (parse_sort_dedup_keeps_times (usable_rows df)
                  (if has_col "velocity" df then r0
                   else set_numv "velocity" F64.zero r0)) as (r & Hr & E).
      * apply elem_of_usable_rows. eauto.
      * now rewrite time_usable_row.
      * exists r. rewrite time_usable_row in E. split; [exact E|].
        now apply list_elem_of_In.
Qed.

Lemma samples_come_from_input_witness :
  exists out df,
    preprocess_file latitude_gap_file = Table out /\
    csv latitude_gap_file = Some df /\
    (length (rows out) <= length (rows df))%nat /\
    TStamp 20000000000 ∈ time_col out.
Proof.
  destruct (is_table_Table (preprocess_file latitude_gap_file)) as [out E];
    [vm_compute; reflexivity|].
  exists out. eexists. split; [exact E|]. split; [reflexivity|].
  destruct (samples_come_from_input latitude_gap_file out _ E eq_refl)
    as [Hlen Htimes].
  split; [exact Hlen|].
  apply Htimes. split; [reflexivity|].
  eexists. split; [do 2 apply list_elem_of_further; apply list_elem_of_here|].
  split; vm_compute; reflexivity.
Defined.

(** *** Files that give a table, files that raise *)

Lemma time_diff_from_stamps (p : Z) (stamps : list Z) :
  (0 <= p <= INT64_MAX)%Z ->
  Forall (fun s => (0 <= s <= INT64_MAX)%Z) stamps ->
  is_Some (time_diff_from (TStamp p) (map TStamp stamps)).
Proof.
  intros Hp H. revert p Hp. induction H as [|s l Hs _ IH]; intros p Hp.
  - now eexists.
  - cbn [map time_diff_from stamp_sub].
    assert (Hok : int64_ok (s - p) = true)
      by (unfold int64_ok; apply andb_true_iff; split; apply Z.leb_le; lia).
    rewrite Hok. destruct (IH s Hs) as [ds ->]. now eexists.
Qed.

Lemma time_diff_stamps (stamps : list Z) :
  Forall (fun s => (0 <= s <= INT64_MAX)%Z) stamps ->
  is_Some (time_diff (map TStamp stamps)).
Proof.
  intros H. destruct H as [|s l Hs H]; [now eexists|].
  cbn [map time_diff].
  destruct (time_diff_from_stamps s l Hs H) as [ds ->]. now eexists.
Qed.

Lemma Qnearest_bounds (q : Q) (hi : Z) :
  (0 <= Qnum q)%Z -> (Qnum q <= hi * Z.pos (Qden q))%Z ->
  (0 <= Qnearest q <= hi)%Z.
Proof.
  intros Hlo Hhi. unfold Qnearest.
  set (d := Z.pos (Qden q)) in *.
  assert (Hd : (0 < d)%Z) by (unfold d; lia).
  pose proof (Z.div_mod (Qnum q) d ltac:(lia)) as Hdm.
  pose proof (Z.mod_pos_bound (Qnum q) d Hd) as Hm.
  set (below := (Qnum q / d)%Z) in *. set (r := (Qnum q mod d)%Z) in *.
  assert (H0 : (0 <= below)%Z) by (unfold below; apply Z.div_pos; lia).
  assert (Hup : (0 < r -> below + 1 <= hi)%Z) by (intros Hr; nia).
  assert (Hle : (below <= hi)%Z) by nia.
  destruct (Z.compare_spec (2 * r) d) as [E|E|E].
  - destruct (Z.even below); lia.
  - lia.
  - lia.
Qed.

(** A count of seconds from 1970 to the last whole second of the range
    parses, and the conversion does not raise on it. *)
Lemma since_epoch_stamp t :
  since_epoch t = true ->
  to_datetime_raises t = false /\
  exists ns, to_datetime_s t = TStamp ns /\ (0 <= ns <= INT64_MAX)%Z.
Proof.
  destruct t as [[q| | |]| | |]; try discriminate 1.
  cbn [since_epoch]. intros [Hlo Hhi]%andb_true_iff.
  apply Qle_bool_iff in Hlo, Hhi. unfold Qle in Hlo, Hhi. cbn in Hlo, Hhi.
  split; [reflexivity|].
  destruct (Qnearest_bounds (q * (1000000000 # 1)) 9223372036000000000) as [H1 H2].
  - cbn. lia.
  - cbn. rewrite Pos.mul_1_r. lia.
  - cbn [to_datetime_s]. cbv zeta.
    assert (Hmax : (9223372036000000000 <= INT64_MAX)%Z) by (vm_compute; discriminate).
    rewrite (proj2 (andb_true_iff _ _)).
    + eexists. split; [reflexivity|]. lia.
    + split; apply Z.leb_le; lia.
Qed.

Lemma set_icao24_rows df :
  rows df <> [] -> exists v, set_icao24 df = Table (assign_txt_const "icao24" v df).
Proof.
  intros H. unfold set_icao24.
  destruct (has_col "icao24" df); [|eauto].
  destruct (rows df); [contradiction | eauto].
Qed.

Section Accepted.

Variable f : raw_file.
Variable df : DataFrame.
Hypothesis size_f : (10 <= size f)%Z.
Hypothesis csv_f : csv f = Some df.
Hypothesis essential_in : forall c, c ∈ essential_cols -> c ∈ columns df.
Hypothesis some_passes : exists r, r ∈ rows df /\ passes_presence_check r.
Hypothesis no_overflow :
  forall r, r ∈ rows df -> passes_presence_check r ->
            to_datetime_raises (time r) = false.

Let mid := parse_sort_dedup (usable_rows df).
Let cleaned := fill_numeric_cols mid.

Lemma accepted_derive : preprocess_file f = derive cleaned.
Proof.
  unfold preprocess_file.
  rewrite (proj2 (Z.ltb_ge _ _) size_f), csv_f, clean_accepts;
    [now rewrite to_datetime_overflows_false|auto|].
  destruct some_passes as (r & Hr & Hp). intros E.
  assert (H : (if has_col "velocity" df then r
               else set_numv "velocity" F64.zero r) ∈ rows (usable_rows df))
    by (apply elem_of_usable_rows; eauto).
  rewrite E in H. now apply elem_of_nil in H.
Qed.

Lemma length_rows_cleaned : length (rows cleaned) = length (rows mid).
Proof. apply length_rows_fill_numeric_cols. now apply numeric_in_mid. Qed.

Lemma length_rows_features deltas :
  length (rows (add_delta_heading (add_features deltas cleaned))) = length (rows mid).
Proof.
  pose proof (length_rows_enrich deltas None cleaned) as L.
  unfold enrich in L. rewrite length_rows_assign_txt_const in L.
  now rewrite L, length_rows_cleaned.
Qed.

Lemma columns_features deltas c :
  c ∈ columns (add_delta_heading (add_features deltas cleaned)) <->
  c ∈ derived_cols \/ c = "velocity" \/ c ∈ columns df.
Proof.
  unfold cleaned, mid.
  rewrite columns_add_delta_heading, columns_add_features,
    columns_fill_numeric_cols, columns_parse_sort_dedup,
    columns_usable_rows_iff by (now apply numeric_in_mid).
  unfold derived_cols, difference_cols. rewrite !elem_of_cons, !elem_of_nil.
  tauto.
Qed.

End Accepted.

(** X5. A readable file of 10 bytes or more that has the essential columns
    gives a table with at least one row when, among its complete rows, every
    [time] is text or a number of seconds from 1970-01-01 00:00:00 to
    2262-04-11 23:47:16, and at least one is such a number. *)
Theorem complete_sample_gives_table (f : raw_file) (df : DataFrame) :
  (10 <= size f)%Z ->
  csv f = Some df ->
  (forall c, c ∈ essential_cols -> c ∈ columns df) ->
  (forall r, r ∈ rows df -> passes_presence_check r ->
             since_epoch (time r) || is_text (time r) = true) ->
  (exists r, r ∈ rows df /\ passes_presence_check r /\
             since_epoch (time r) = true) ->
  exists out, preprocess_file f = Table out /\ rows out <> [].
Proof.
  intros Hsize Hcsv Hess Htimes (r & Hr & Hp & Hs).
  assert (Hfinite : forall r, r ∈ rows df -> passes_presence_check r ->
            to_datetime_raises (time r) = false).
  { intros r0 Hr0 Hp0. destruct (orb_prop _ _ (Htimes r0 Hr0 Hp0)) as [H|H].
    - now apply since_epoch_stamp.
    - now apply is_text_no_raise. }
  rewrite (accepted_derive f df) by eauto.
  set (mid := parse_sort_dedup (usable_rows df)).
  set (cleaned := fill_numeric_cols mid).
  assert (Hmid : rows mid <> []).
  { destruct (parse_sort_dedup_keeps_times (usable_rows df)
                (if has_col "velocity" df then r
                 else set_numv "velocity" F64.zero r)) as (r' & Hr' & _).
    - apply elem_of_usable_rows. eauto.
    - rewrite time_usable_row.
      destruct (since_epoch_stamp _ Hs) as (_ & ns & -> & _). reflexivity.
    - fold mid in Hr'. intros E. rewrite E in Hr'. now apply elem_of_nil in Hr'. }
  destruct (stamps_mid df) as (stamps & Hstamps & _). fold mid in Hstamps.
  assert (Hrange : Forall (fun s => (0 <= s <= INT64_MAX)%Z) stamps).
  { apply Forall_forall. intros s Hin.
    assert (Ht : TStamp s ∈ time_col mid)
      by (rewrite Hstamps, list_elem_of_In; apply in_map; now apply list_elem_of_In).
    unfold time_col in Ht. rewrite list_elem_of_In, in_map_iff in Ht.
    destruct Ht as (r1 & E1 & Hr1%list_elem_of_In).
    apply elem_of_parse_sort_dedup in Hr1 as (r2 & Hr2 & -> & _).
    cbn [set_time time] in E1.
    apply elem_of_usable_rows in Hr2 as (r0 & Hr0 & Hp0 & ->).
    rewrite time_usable_row in E1.
    destruct (orb_prop _ _ (Htimes r0 Hr0 Hp0)) as [H|H].
    - destruct (since_epoch_stamp _ H) as (_ & ns & E & Hns).
      rewrite E in E1. injection E1 as <-. exact Hns.
    - rewrite (is_text_unparseable _ H) in E1. discriminate E1. }
  destruct (time_diff_stamps stamps Hrange) as [deltas Hd].
  unfold derive. fold cleaned.
  replace (time_col cleaned) with (map TStamp stamps)
    by (rewrite <- Hstamps; symmetry; now apply time_col_cleaned).
  rewrite Hd.
  assert (Hlen : length deltas = length (rows cleaned)).
  { apply time_diff_length in Hd. rewrite Hd, length_map.
    rewrite <- (length_map TStamp), <- Hstamps, length_time_col.
    symmetry. exact (length_rows_cleaned df Hess). }
  set (d := add_delta_heading (add_features deltas cleaned)).
  assert (Hdrows : rows d <> []).
  { intros E. apply Hmid, length_zero_nil.
    pose proof (length_rows_features df Hess deltas) as L.
    change (length (rows d) = length (rows mid)) in L.
    now rewrite <- L, E. }
  destruct (set_icao24_rows d Hdrows) as [v ->].
  eexists. split; [reflexivity|].
  unfold assign_txt_const. cbn [rows]. destruct (rows d); [contradiction|].
  intros E. discriminate E.
Qed.

Lemma complete_sample_gives_table_witness :
  exists out, preprocess_file half_second_file = Table out /\ rows out <> [].
Proof.
  apply (complete_sample_gives_table half_second_file
           (Frame track_cols
              [ point F64.zero (F64.of_Z 48) (F64.of_Z 2) (F64.of_Z 1000) (F64.of_Z 200);
                point (Fin (1 # 2)) (F64.of_Z 48) (F64.of_Z 2) (F64.of_Z 1010)
                      (F64.of_Z 200) ])).
  - vm_compute. discriminate.
  - reflexivity.
  - intros c Hc. unfold essential_cols in Hc. cbn [columns]. unfold track_cols.
    repeat (apply elem_of_cons in Hc as [->|Hc]; [in_list|]).
    now apply elem_of_nil in Hc.
  - intros r Hr _. cbn [rows] in Hr.
    apply elem_of_cons in Hr as [->|Hr]; [reflexivity|].
    apply list_elem_of_singleton in Hr as ->. reflexivity.
  - eexists. split; [apply list_elem_of_here|].
    split; vm_compute; reflexivity.
Defined.

(** X6. A readable file with the essential columns and an [icao24] column,
    in which some row is complete and every complete row holds a [time] that
    is text, not a number, is not skipped: no timestamp parses, and reading
    the first [icao24] value of the emptied table raises an IndexError. *)
Theorem no_parsed_time_raises (f : raw_file) (df : DataFrame) :
  (10 <= size f)%Z ->
  csv f = Some df ->
  (forall c, c ∈ essential_cols -> c ∈ columns df) ->
  "icao24" ∈ columns df ->
  (exists r, r ∈ rows df /\ passes_presence_check r) ->
  (forall r, r ∈ rows df -> passes_presence_check r -> is_text (time r) = true) ->
  preprocess_file f = Raise IndexError.
Proof.
  intros Hsize Hcsv Hess Hicao Hsome Htext.
  rewrite (accepted_derive f df)
    by (eauto; intros r Hr Hp; apply is_text_no_raise; auto).
  set (mid := parse_sort_dedup (usable_rows df)).
  set (cleaned := fill_numeric_cols mid).
  assert (Hmid : rows mid = []).
  { apply rows_parse_sort_dedup_unparseable, Forall_forall.
    intros r (r0 & Hr0 & Hp & ->)%elem_of_usable_rows.
    rewrite time_usable_row. apply is_text_unparseable. auto. }
  assert (Hcleaned : rows cleaned = []).
  { apply length_zero_nil.
    pose proof (length_rows_cleaned df Hess) as L.
    change (length (rows cleaned) = length (rows mid)) in L.
    now rewrite L, Hmid. }
  assert (Hdiff : time_diff (time_col cleaned) = Some [])
    by (unfold time_col; now rewrite Hcleaned).
  unfold derive. rewrite Hdiff.
  set (d := add_delta_heading (add_features [] cleaned)).
  assert (Hd : rows d = []).
  { apply length_zero_nil.
    pose proof (length_rows_features df Hess []) as L.
    change (length (rows d) = length (rows mid)) in L.
    now rewrite L, Hmid. }
  rewrite (set_icao24_no_rows d Hd).
  unfold has_col. rewrite bool_decide_eq_true_2; [reflexivity|].
  apply (columns_features df Hess). auto.
Qed.

Lemma no_parsed_time_raises_witness :
  preprocess_file unparsed_icao_file = Raise IndexError.
Proof.
  apply (no_parsed_time_raises unparsed_icao_file unparsed_icao_table).
  - vm_compute. discriminate.
  - reflexivity.
  - intros c Hc. unfold essential_cols in Hc. unfold unparsed_icao_table.
    cbn [columns]. unfold track_cols.
    repeat (apply elem_of_cons in Hc as [->|Hc]; [in_list|]).
    now apply elem_of_nil in Hc.
  - unfold unparsed_icao_table. cbn [columns]. unfold track_cols. in_list.
  - eexists. split; [apply list_elem_of_here|]. vm_compute. reflexivity.
  - intros r Hr _. unfold unparsed_icao_table in Hr. cbn [rows] in Hr.
    apply list_elem_of_singleton in Hr as ->. reflexivity.
Defined.

(** ** The columns of a returned table *)

Lemma safe_div_finite (a b : list f64) :
  Forall (fun x => F64.is_finite x = true) (safe_div a b).
Proof.
  unfold safe_div, fillna, replace_inf.
  generalize (series_div a (replace_zero NaN b)). intros s.
  induction s as [|x s IH]; cbn [map]; constructor; [|exact IH].
  now destruct x.
Qed.

Lemma replicate_no_nan n x : F64.is_nan x = false -> no_nan (replicate n x).
Proof. intros H. unfold no_nan. induction n; cbn [replicate]; now constructor. Qed.

Lemma diff_from_zeros n : diff_from F64.zero (replicate n F64.zero) = replicate n F64.zero.
Proof. induction n as [|n IH]; [reflexivity|]. cbn [replicate diff_from]. now rewrite IH. Qed.

Lemma safe_diff_zeros n : safe_diff (replicate n F64.zero) = replicate n F64.zero.
Proof.
  destruct n as [|n]; [reflexivity|].
  unfold safe_diff. cbn [replicate series_diff]. rewrite diff_from_zeros.
  unfold fillna. cbn [map]. f_equal.
  induction n as [|n IH]; [reflexivity|]. cbn [replicate map]. now rewrite IH.
Qed.

Lemma numv_set_time c t r : numv c (set_time t r) = numv c r.
Proof. reflexivity. Qed.

(** Without a [velocity] column in the file, every row that reaches STEP 3
    holds the placeholder. *)
Lemma velocity_placeholder_mid df :
  "velocity" ∉ columns df ->
  num_col "velocity" (parse_sort_dedup (usable_rows df)) =
  replicate (length (rows (parse_sort_dedup (usable_rows df)))) F64.zero.
Proof.
  intros Hno. unfold num_col. rewrite <- map_const.
  apply map_ext_in. intros r Hr%list_elem_of_In.
  apply elem_of_parse_sort_dedup in Hr as (r1 & Hr1 & -> & _).
  apply elem_of_usable_rows in Hr1 as (r0 & _ & _ & ->).
  unfold has_col. rewrite bool_decide_eq_false_2 by exact Hno.
  rewrite numv_set_time. apply numv_set_numv_eq.
Qed.

Lemma length_rows_returned (f : raw_file) (out df : DataFrame) :
  preprocess_file f = Table out -> csv f = Some df ->
  length (rows out) = length (rows (parse_sort_dedup (usable_rows df))).
Proof.
  intros H Hcsv. rewrite <- !length_time_col. f_equal.
  now apply (returned_time_col f).
Qed.

(** X7. When the file has no [velocity] column the returned table has one
    that is 0 in every row, and so is [delta_velocity]. *)
Theorem velocity_placeholder (f : raw_file) (out df : DataFrame) :
  preprocess_file f = Table out -> csv f = Some df ->
  "velocity" ∉ columns df ->
  "velocity" ∈ columns out /\
  num_col "velocity" out = replicate (length (rows out)) F64.zero /\
  num_col "delta_velocity" out = replicate (length (rows out)) F64.zero.
Proof.
  intros H Hcsv Hno.
  assert (Hv : num_col "velocity" out = replicate (length (rows out)) F64.zero).
  { rewrite (returned_filled f out df "velocity" H Hcsv)
      by (unfold numeric_cols; in_list).
    rewrite (length_rows_returned f out df H Hcsv), velocity_placeholder_mid by exact Hno.
    now apply fill_gaps_no_nan, replicate_no_nan. }
  pose proof H as (df' & deltas & v & Hcsv' & Hess & _ & Hlen & Hout)%returned_table.
  rewrite Hcsv in Hcsv'. injection Hcsv' as <-.
  split; [|split; [exact Hv|]].
  - rewrite Hout. apply columns_enrich. right. right.
    rewrite columns_fill_numeric_cols by (now apply numeric_in_mid).
    apply numeric_in_mid; [exact Hess | unfold numeric_cols; in_list].
  - rewrite <- Hv at 1. rewrite Hout at 1.
    rewrite delta_velocity_enrich by exact Hlen.
    rewrite <- (base_col_enrich deltas v _ "velocity") by (unfold numeric_cols; in_list).
    rewrite <- Hout, Hv. apply safe_diff_zeros.
Qed.

Lemma velocity_placeholder_witness :
  exists out,
    preprocess_file
      (raw "bare.csv" essential_cols
         [ sample (TNum (F64.of_Z 0))
             [("latitude", F64.of_Z 48); ("longitude", F64.of_Z 2);
              ("baro_altitude", F64.of_Z 1000)];
           sample (TNum (F64.of_Z 10))
             [("latitude", F64.of_Z 49); ("longitude", F64.of_Z 2);
              ("baro_altitude", F64.of_Z 1010)] ]) = Table out /\
    num_col "velocity" out = replicate (length (rows out)) F64.zero.
Proof.
  match goal with |- exists out, preprocess_file ?f = _ /\ _ =>
    destruct (is_table_Table (preprocess_file f)) as [out E];
      [vm_compute; reflexivity|];
    exists out; split; [exact E|];
    refine (proj1 (proj2 (velocity_placeholder f out _ E eq_refl _)))
  end.
  cbn [columns]. unfold essential_cols. intros H.
  repeat (apply elem_of_cons in H as [H|H]; [discriminate H|]).
  now apply elem_of_nil in H.
Defined.

(** X8. In every returned table the velocities and accelerations [vx], [vy],
    [v_vertical], [ax], [ay], [a_vertical] are finite in every row, and the
    difference columns hold no missing value. *)
Theorem derived_features_defined (f : raw_file) (out : DataFrame) :
  preprocess_file f = Table out ->
  (forall c, c ∈ rate_cols ->
     Forall (fun x => F64.is_finite x = true) (num_col c out)) /\
  (forall c, c ∈ delta_cols -> no_nan (num_col c out)).
Proof.
  intros (df & deltas & v & Hcsv & Hess & _ & Hlen & ->)%returned_table.
  split; intros c Hc.
  - unfold rate_cols in Hc. rewrite !elem_of_cons, elem_of_nil in Hc.
    destruct Hc as [->|[->|[->|[->|[->|[->|[]]]]]]].
    + rewrite vx_enrich by exact Hlen. apply safe_div_finite.
    + rewrite vy_enrich by exact Hlen. apply safe_div_finite.
    + rewrite v_vertical_enrich by exact Hlen. apply safe_div_finite.
    + rewrite ax_enrich by exact Hlen. apply safe_div_finite.
    + rewrite ay_enrich by exact Hlen. apply safe_div_finite.
    + rewrite a_vertical_enrich by exact Hlen. apply safe_div_finite.
  - unfold delta_cols in Hc. rewrite !elem_of_cons, elem_of_nil in Hc.
    destruct Hc as [->|[->|[->|[->|[->|[]]]]]].
    + rewrite delta_lat_enrich by exact Hlen. apply safe_diff_no_nan.
    + rewrite delta_lon_enrich by exact Hlen. apply safe_diff_no_nan.
    + rewrite delta_altitude_enrich by exact Hlen. apply safe_diff_no_nan.
    + rewrite delta_velocity_enrich by exact Hlen. apply safe_diff_no_nan.
    + rewrite delta_heading_enrich by exact Hlen.
      destruct (has_col "heading" _); [apply safe_diff_no_nan|].
      rewrite map_const. now apply replicate_no_nan.
Qed.

Lemma derived_features_defined_witness :
  exists out,
    preprocess_file three_points_file = Table out /\
    Forall (fun x => F64.is_finite x = true) (num_col "ax" out).
Proof.
  destruct (is_table_Table (preprocess_file three_points_file)) as [out E];
    [vm_compute; reflexivity|].
  exists out. split; [exact E|].
  apply (proj1 (derived_features_defined three_points_file out E)).
  unfold rate_cols. in_list.
Defined.

Lemma fill_gaps_all_nan_inv (s : list f64) : all_nan (fill_gaps s) -> all_nan s.
Proof.
  intros H. unfold all_nan in *. apply Forall_lookup. intros i x Hi.
  destruct (F64.is_nan x) eqn:E; [reflexivity|].
  pose proof (fill_gaps_valid s i x Hi E) as Hv.
  rewrite Forall_lookup in H. specialize (H i x Hv). congruence.
Qed.

(** X9. Gaps in [velocity] are closed unless there is nothing to close them
    with: in a returned table the [velocity] column holds no missing value,
    or it holds nothing else, the latter exactly when no row that was kept
    has a velocity; [delta_velocity] is then 0 in every row. *)
Theorem velocity_filled_or_absent (f : raw_file) (out df : DataFrame) :
  preprocess_file f = Table out -> csv f = Some df ->
  (no_nan (num_col "velocity" out) \/ all_nan (num_col "velocity" out)) /\
  (all_nan (num_col "velocity" out) <->
   all_nan (num_col "velocity" (parse_sort_dedup (usable_rows df)))) /\
  (all_nan (num_col "velocity" out) ->
   num_col "delta_velocity" out = replicate (length (rows out)) F64.zero).
Proof.
  intros H Hcsv.
  pose proof (returned_filled f out df "velocity" H Hcsv) as Hv.
  rewrite Hv by (unfold numeric_cols; in_list).
  split; [apply fill_gaps_shape|]. split.
  - split; [apply fill_gaps_all_nan_inv|].
    intros Hall. now rewrite fill_gaps_all_nan.
  - intros Hall.
    pose proof H as (df' & deltas & v & Hcsv' & Hess & _ & Hlen & Hout)%returned_table.
    rewrite Hout at 1. rewrite delta_velocity_enrich by exact Hlen.
    rewrite <- (base_col_enrich deltas v _ "velocity") by (unfold numeric_cols; in_list).
    rewrite <- Hout, Hv by (unfold numeric_cols; in_list).
    rewrite (all_nan_eq _ Hall), length_fill_gaps, length_num_col.
    rewrite <- (length_rows_returned f out df H Hcsv).
    generalize (length (rows out)). intros n. destruct n as [|n]; [reflexivity|].
    unfold safe_diff. cbn [replicate series_diff fillna map]. f_equal.
    assert (Hd : forall m, diff_from NaN (replicate m NaN) = replicate m NaN).
    { intros m. induction m as [|m IH]; [reflexivity|].
      cbn [replicate diff_from]. now rewrite IH. }
    rewrite Hd. induction n as [|n IH]; [reflexivity|].
    cbn [replicate map]. now rewrite IH.
Qed.

Lemma velocity_filled_or_absent_witness :
  exists out,
    preprocess_file velocity_gap_file = Table out /\
    (no_nan (num_col "velocity" out) \/ all_nan (num_col "velocity" out)).
Proof.
  destruct (is_table_Table (preprocess_file velocity_gap_file)) as [out E];
    [vm_compute; reflexivity|].
  exists out. split; [exact E|].
  exact (proj1 (velocity_filled_or_absent velocity_gap_file out _ E eq_refl)).
Defined.

(** *** The [icao24] column, the heading change, the schema *)

Lemma rows_agree_head cs r l r' l' :
  rows_agree cs (r :: l) (r' :: l') -> txt r' = txt r.
Proof. intros H. inversion H as [|? ? ? ? (_ & E & _)]; subst. exact E. Qed.

Lemma rows_agree_nil_l cs l : rows_agree cs [] l -> l = [].
Proof. intros H. now inversion H. Qed.

(** The value [derive] writes to the [icao24] column *)
Lemma derive_icao24 cleaned out :
  derive cleaned = Table out ->
  exists deltas v,
    length deltas = length (rows cleaned) /\
    out = enrich deltas v cleaned /\
    let d := add_delta_heading (add_features deltas cleaned) in
    (has_col "icao24" d = false -> v = Some "unknown") /\
    (has_col "icao24" d = true ->
     exists r rest, rows cleaned = r :: rest /\ v = txt r !! "icao24").
Proof.
  unfold derive. destruct (time_diff (time_col cleaned)) as [deltas|] eqn:Hd;
    [|intros H; discriminate H].
  apply time_diff_length in Hd. rewrite length_time_col in Hd.
  unfold set_icao24.
  pose proof (rows_agree_features deltas cleaned) as Hagree.
  destruct (has_col "icao24" _) eqn:Hc.
  - destruct (rows (add_delta_heading (add_features deltas cleaned)))
      as [|r' l'] eqn:Hrows; [intros H; discriminate H|].
    intros [= <-]. exists deltas, (txt r' !! "icao24").
    split; [exact Hd|]. split; [reflexivity|]. cbv zeta. rewrite Hc.
    split; [intros H; discriminate H|]. intros _.
    destruct (rows cleaned) as [|r l]; [now inversion Hagree|].
    exists r, l. split; [reflexivity|].
    now rewrite (rows_agree_head _ _ _ _ _ Hagree).
  - intros [= <-]. exists deltas, (Some "unknown").
    split; [exact Hd|]. split; [reflexivity|]. cbv zeta. rewrite Hc.
    split; [reflexivity|]. intros H; discriminate H.
Qed.

Lemma txt_fill_numeric_cols_head mid r rest :
  rows (fill_numeric_cols mid) = r :: rest ->
  exists r0 rest0, rows mid = r0 :: rest0 /\ txt r = txt r0.
Proof.
  intros E. pose proof (rows_agree_fill_numeric_cols mid) as H. rewrite E in H.
  destruct (rows mid) as [|r0 rest0]; [now inversion H|].
  exists r0, rest0. split; [reflexivity|]. exact (rows_agree_head _ _ _ _ _ H).
Qed.

(** X10. The returned table has an [icao24] column holding one value in all
    rows: "unknown" when the file has no such column, else the value of the
    earliest sample that was kept. *)
Theorem icao24_constant (f : raw_file) (out df : DataFrame) :
  preprocess_file f = Table out -> csv f = Some df ->
  "icao24" ∈ columns out /\
  exists v,
    Forall (fun r => txt r !! "icao24" = v) (rows out) /\
    ("icao24" ∉ columns df -> v = Some "unknown") /\
    ("icao24" ∈ columns df ->
     exists r0 rest,
       rows (parse_sort_dedup (usable_rows df)) = r0 :: rest /\
       v = txt r0 !! "icao24").
Proof.
  intros (df' & cleaned & _ & Hcsv & Hclean & Hd)%preprocess_file_Table E.
  rewrite Hcsv in E. injection E as ->.
  apply clean_inl in Hclean as (Hess & _ & ->).
  apply derive_icao24 in Hd as (deltas & v & Hlen & -> & Hno & Hyes).
  cbv zeta in Hno, Hyes.
  split; [apply columns_enrich; auto|].
  exists v. split; [apply txt_assign_txt_const|].
  pose proof (columns_features df Hess deltas "icao24") as Hcols.
  assert (Hiff : "icao24" ∈ columns (add_delta_heading (add_features deltas
                   (fill_numeric_cols (parse_sort_dedup (usable_rows df))))) <->
                 "icao24" ∈ columns df).
  { rewrite Hcols. split; [|auto].
    intros [H|[H|H]]; [| discriminate H | exact H].
    unfold derived_cols, difference_cols in H.
    repeat (apply elem_of_cons in H as [H|H]; [discriminate H|]).
    now apply elem_of_nil in H. }
  split.
  - intros Habs. apply Hno. apply bool_decide_eq_false_2. now rewrite Hiff.
  - intros Hin. destruct Hyes as (r & rest & Hrows & ->).
    + apply bool_decide_eq_true_2. now rewrite Hiff.
    + apply txt_fill_numeric_cols_head in Hrows as (r0 & rest0 & Hrows & ->).
      eauto.
Qed.

Lemma icao24_constant_witness :
  exists out,
    preprocess_file three_points_file = Table out /\
    Forall (fun r => txt r !! "icao24" = Some "unknown") (rows out).
Proof.
  destruct (is_table_Table (preprocess_file three_points_file)) as [out E];
    [vm_compute; reflexivity|].
  exists out. split; [exact E|].
  destruct (icao24_constant three_points_file out _ E eq_refl)
    as (_ & v & Hall & Hno & _).
  rewrite <- Hno; [exact Hall|].
  cbn [columns]. unfold track_cols. intros H.
  repeat (apply elem_of_cons in H as [H|H]; [discriminate H|]).
  now apply elem_of_nil in H.
Defined.

(** X11. [delta_heading] is the first difference of the [heading] column,
    0 in front and wherever a heading is missing, when the file has that
    column, and 0 in every row when it has not. *)
Theorem delta_heading_values (f : raw_file) (out df : DataFrame) :
  preprocess_file f = Table out -> csv f = Some df ->
  num_col "delta_heading" out =
  if has_col "heading" df
  then safe_diff (num_col "heading" out)
  else replicate (length (rows out)) F64.zero.
Proof.
  intros H E.
  pose proof H as (df' & deltas & v & Hcsv & Hess & _ & Hlen & Hout)%returned_table.
  rewrite Hcsv in E. injection E as ->.
  rewrite Hout. rewrite delta_heading_enrich by exact Hlen.
  rewrite (num_col_enrich_other deltas v _ "heading") by apply heading_not_derived.
  rewrite length_rows_enrich, map_const.
  replace (has_col "heading" (add_features deltas _)) with (has_col "heading" df);
    [reflexivity|].
  unfold has_col. apply bool_decide_ext.
  rewrite columns_add_features, columns_fill_numeric_cols,
    columns_parse_sort_dedup, columns_usable_rows_iff by (now apply numeric_in_mid).
  split; [auto|].
  intros [Hc|[Hc|Hc]]; [| discriminate Hc | exact Hc].
  repeat (apply elem_of_cons in Hc as [Hc|Hc]; [discriminate Hc|]).
  now apply elem_of_nil in Hc.
Qed.

Lemma delta_heading_values_witness :
  exists out,
    preprocess_file three_points_file = Table out /\
    num_col "delta_heading" out = replicate (length (rows out)) F64.zero.
Proof.
  destruct (is_table_Table (preprocess_file three_points_file)) as [out E];
    [vm_compute; reflexivity|].
  exists out. split; [exact E|].
  exact (delta_heading_values three_points_file out _ E eq_refl).
Defined.

Lemma prefix_add_col c cols : cols `prefix_of` add_col c cols.
Proof.
  unfold add_col. case_bool_decide; [reflexivity|]. now apply prefix_app_r.
Qed.

Lemma prefix_steps (steps : list (DataFrame -> DataFrame)) (df : DataFrame) :
  Forall (fun step => forall d, columns d `prefix_of` columns (step d)) steps ->
  columns df `prefix_of` columns (foldl (fun df step => step df) df steps).
Proof.
  intros H. revert df. induction H as [|step steps Hs _ IH]; intros df; [reflexivity|].
  cbn [foldl]. etransitivity; [apply Hs | apply IH].
Qed.

Lemma prefix_enrich deltas v df :
  columns df `prefix_of` columns (enrich deltas v df).
Proof.
  unfold enrich. rewrite columns_assign_txt_const.
  etransitivity; [|apply prefix_add_col].
  etransitivity; [apply (prefix_steps (feature_steps deltas))|].
  - unfold feature_steps.
    repeat (constructor; [intros d; rewrite columns_with_column; apply prefix_add_col|]).
    constructor.
  - fold (add_features deltas df). unfold add_delta_heading.
    destruct (has_col "heading" _).
    + rewrite columns_assign_num. apply prefix_add_col.
    + rewrite columns_assign_num_const. apply prefix_add_col.
Qed.

(** X12. The schema of a returned table: the columns of the file come
    first, in their order, and the table has exactly these, [velocity], the
    twelve derived columns and [icao24]. *)
Theorem returned_columns (f : raw_file) (out df : DataFrame) :
  preprocess_file f = Table out -> csv f = Some df ->
  columns df `prefix_of` columns out /\
  forall c, c ∈ columns out <->
    c ∈ columns df \/ c = "velocity" \/ c ∈ derived_cols \/ c = "icao24".
Proof.
  intros H E.
  pose proof H as (df' & deltas & v & Hcsv & Hess & _ & Hlen & Hout)%returned_table.
  rewrite Hcsv in E. injection E as ->. rewrite Hout. split.
  - etransitivity; [|apply prefix_enrich].
    rewrite columns_fill_numeric_cols, columns_parse_sort_dedup
      by (now apply numeric_in_mid).
    unfold usable_rows, dropna. cbn [columns].
    destruct (has_col "velocity" df); [reflexivity|].
    rewrite columns_assign_num_const. apply prefix_add_col.
  - intros c.
    rewrite columns_enrich, columns_fill_numeric_cols, columns_parse_sort_dedup,
      columns_usable_rows_iff by (now apply numeric_in_mid).
    tauto.
Qed.

Lemma returned_columns_witness :
  exists out,
    preprocess_file three_points_file = Table out /\
    track_cols `prefix_of` columns out /\ "ax" ∈ columns out.
Proof.
  destruct (is_table_Table (preprocess_file three_points_file)) as [out E];
    [vm_compute; reflexivity|].
  exists out. split; [exact E|].
  destruct (returned_columns three_points_file out _ E eq_refl) as [Hpre Hcols].
  split; [exact Hpre|].
  apply Hcols. right. right. left. unfold derived_cols, difference_cols. in_list.
Defined.

(** ** Further properties of the batch *)

Lemma process_files_other (files : list raw_file) (w : world) (p : string) :
  p <> OUTPUT_CSV -> disk (fst (process_files files w)) !! p = disk w !! p.
Proof.
  intros Hp. revert w. induction files as [|f files IH]; intros w; [reflexivity|].
  cbn [process_files]. destruct (preprocess_file f) as [df|why|e].
  - rewrite IH. cbn [print to_csv disk]. now apply lookup_insert_ne.
  - now rewrite IH.
  - reflexivity.
Qed.

Lemma process_files_output (files : list raw_file) (w : world) :
  disk (fst (process_files files w)) !! OUTPUT_CSV = disk w !! OUTPUT_CSV \/
  exists f out,
    f ∈ files /\ preprocess_file f = Table out /\
    disk (fst (process_files files w)) !! OUTPUT_CSV = Some out.
Proof.
  revert w. induction files as [|f files IH]; intros w; [now left|].
  cbn [process_files]. destruct (preprocess_file f) as [df|why|e] eqn:E.
  - right.
    destruct (IH (print (InfoSaved OUTPUT_CSV) (to_csv OUTPUT_CSV df w)))
      as [H|(g & out & Hg & Hout & H)].
    + exists f, df. split; [apply list_elem_of_here|]. split; [exact E|].
      rewrite H. cbn [print to_csv disk]. apply lookup_insert_eq.
    + exists g, out. split; [now apply list_elem_of_further | auto].
  - destruct (IH (print (InfoSkipped (basename (path f))) (print (Warning why) w)))
      as [H|(g & out & Hg & Hout & H)].
    + now left.
    + right. exists g, out. split; [now apply list_elem_of_further | auto].
  - now left.
Qed.

(** X13. Whatever the files hold, and whether the batch ends or raises,
    [preprocess_all] changes no file other than its one output file, and
    that file then holds what it held before or the table returned for one
    of the files of the batch. *)
Theorem only_output_written (files : list raw_file) (w : world) :
  (forall p, p <> OUTPUT_CSV ->
     disk (fst (preprocess_all files w)) !! p = disk w !! p) /\
  (disk (fst (preprocess_all files w)) !! OUTPUT_CSV = disk w !! OUTPUT_CSV \/
   exists f out,
     f ∈ files /\ preprocess_file f = Table out /\
     disk (fst (preprocess_all files w)) !! OUTPUT_CSV = Some out).
Proof.
  unfold preprocess_all. split.
  - intros p Hp. now rewrite process_files_other.
  - apply (process_files_output files (print (InfoFound (length files)) w)).
Qed.

Lemma only_output_written_witness :
  disk (fst (preprocess_all [unparsed_icao_file; three_points_file] only_merged))
    !! Merge.OUTPUT_CSV = Some (Frame ["time"; "flight_id"] []).
Proof.
  rewrite (proj1 (only_output_written [unparsed_icao_file; three_points_file]
                    only_merged) Merge.OUTPUT_CSV).
  - reflexivity.
  - intros H. discriminate H.
Defined.

Lemma process_files_app (pre post : list raw_file) (w : world) :
  Forall (fun f => is_raise (preprocess_file f) = false) pre ->
  process_files (pre ++ post) w = process_files post (fst (process_files pre w)).
Proof.
  intros H. revert w. induction H as [|f pre Hf _ IH]; intros w; [reflexivity|].
  cbn [app process_files].
  destruct (preprocess_file f) as [df|why|e]; [apply IH | apply IH | discriminate Hf].
Qed.

(** X14. The first file that raises ends the batch there: the error leaves
    [preprocess_all], the files after it are not processed, and the output
    file and the console are as the files before it left them. *)
Theorem raise_stops_batch (pre post : list raw_file) (f : raw_file) (e : exn)
    (w : world) :
  Forall (fun f => is_raise (preprocess_file f) = false) pre ->
  preprocess_file f = Raise e ->
  snd (preprocess_all (pre ++ f :: post) w) = Some e /\
  disk (fst (preprocess_all (pre ++ f :: post) w)) =
    disk (fst (preprocess_all pre w)) /\
  console (fst (preprocess_all (pre ++ f :: post) w)) =
    console w ++ InfoFound (length pre + S (length post)) :: flat_map entries_of pre.
Proof.
  intros Hpre Hf. unfold preprocess_all.
  rewrite process_files_app by exact Hpre.
  cbn [process_files]. rewrite Hf. cbn [fst snd].
  split; [reflexivity|].
  rewrite length_app. cbn [length].
  destruct (process_files_no_raise pre
              (print (InfoFound (length pre + S (length post))) w) Hpre)
    as (_ & Hlog & Hdisk).
  destruct (process_files_no_raise pre (print (InfoFound (length pre)) w) Hpre)
    as (_ & _ & Hdisk').
  split.
  - now rewrite Hdisk, Hdisk'.
  - rewrite Hlog. cbn [print console]. now rewrite <- app_assoc.
Qed.

Lemma raise_stops_batch_witness :
  snd (preprocess_all [empty_file; unparsed_icao_file; three_points_file] fresh)
    = Some IndexError /\
  console (fst (preprocess_all [empty_file; unparsed_icao_file; three_points_file]
                  fresh))
    = [InfoFound 3; Warning EmptyFile; InfoSkipped "empty.csv"].
Proof.
  destruct (raise_stops_batch [empty_file] [three_points_file] unparsed_icao_file
              IndexError fresh) as (Hend & _ & Hlog).
  - repeat constructor.
  - vm_compute. reflexivity.
  - split; [exact Hend|]. etransitivity; [exact Hlog|]. vm_compute. reflexivity.
Defined.

Lemma last_table_skipped (files : list raw_file) :
  Forall (fun f => is_skip (preprocess_file f) = true) files ->
  last_table files = None.
Proof.
  induction 1 as [|f files Hf _ IH]; [reflexivity|].
  cbn [last_table]. rewrite IH.
  destruct (preprocess_file f); [discriminate Hf | reflexivity | reflexivity].
Qed.

Lemma last_table_app (pre post : list raw_file) (out : DataFrame) :
  last_table post = Some out -> last_table (pre ++ post) = Some out.
Proof.
  intros H. induction pre as [|f pre IH]; [exact H|].
  cbn [app last_table]. now rewrite IH.
Qed.

Lemma skip_no_raise (files : list raw_file) :
  Forall (fun f => is_skip (preprocess_file f) = true) files ->
  Forall (fun f => is_raise (preprocess_file f) = false) files.
Proof.
  intros H. eapply Forall_impl; [exact H|].
  intros f. cbv beta. destruct (preprocess_file f); cbn; intros Hf;
    first [reflexivity | discriminate Hf].
Qed.

Lemma disk_after_batch (pre post : list raw_file) (f : raw_file) (out : DataFrame)
    (w : world) :
  Forall (fun f => is_raise (preprocess_file f) = false) pre ->
  preprocess_file f = Table out ->
  Forall (fun f => is_skip (preprocess_file f) = true) post ->
  snd (preprocess_all (pre ++ f :: post) w) = None /\
  disk (fst (preprocess_all (pre ++ f :: post) w)) = <[OUTPUT_CSV := out]> (disk w).
Proof.
  intros Hpre Hf Hpost. unfold preprocess_all.
  assert (Hall : Forall (fun f => is_raise (preprocess_file f) = false)
                        (pre ++ f :: post)).
  { apply Forall_app. split; [exact Hpre|]. constructor.
    - now rewrite Hf.
    - now apply skip_no_raise. }
  destruct (process_files_no_raise (pre ++ f :: post)
              (print (InfoFound (length (pre ++ f :: post))) w) Hall)
    as (-> & _ & ->).
  split; [reflexivity|].
  rewrite (last_table_app pre (f :: post) out); [reflexivity|].
  cbn [last_table]. now rewrite last_table_skipped, Hf.
Qed.

(** X15. Skipped files write nothing.  When every file is skipped, the disk
    is as before; when no file raises, the output file holds the table of
    the last file that was not skipped, whatever was skipped after it. *)
Theorem skipped_files_write_nothing (post : list raw_file) (w : world) :
  Forall (fun f => is_skip (preprocess_file f) = true) post ->
  disk (fst (preprocess_all post w)) = disk w /\
  forall pre f out,
    Forall (fun f => is_raise (preprocess_file f) = false) pre ->
    preprocess_file f = Table out ->
    snd (preprocess_all (pre ++ f :: post) w) = None /\
    disk (fst (preprocess_all (pre ++ f :: post) w)) = <[OUTPUT_CSV := out]> (disk w).
Proof.
  intros Hpost. split.
  - unfold preprocess_all.
    destruct (process_files_no_raise post (print (InfoFound (length post)) w)
                (skip_no_raise post Hpost)) as (_ & _ & ->).
    now rewrite last_table_skipped.
  - intros pre f out Hpre Hf. now apply disk_after_batch.
Qed.

Lemma skipped_files_write_nothing_witness :
  disk (fst (preprocess_all [empty_file] fresh)) = disk fresh /\
  exists out,
    preprocess_file three_points_file = Table out /\
    disk (fst (preprocess_all [half_second_file; three_points_file; empty_file] fresh))
      = <[OUTPUT_CSV := out]> (disk fresh).
Proof.
  destruct (skipped_files_write_nothing [empty_file] fresh) as [Hnone Hlast];
    [repeat constructor|].
  split; [exact Hnone|].
  destruct (is_table_Table (preprocess_file three_points_file)) as [out E];
    [vm_compute; reflexivity|].
  exists out. split; [exact E|].
  apply (Hlast [half_second_file] three_points_file out); [|exact E].
  repeat constructor.
Defined.

(** ** Flight identifiers *)

Lemma pretty_N_go_length (x : N) (s : string) :
  (String.length s <= String.length (pretty_N_go x s))%nat.
Proof.
  revert s. induction (N.lt_wf_0 x) as [x _ IH]; intros s.
  destruct (decide (x = 0)%N) as [->|Hx]; [now rewrite pretty_N_go_0|].
  rewrite pretty_N_go_step by lia.
  etransitivity; [|apply IH; apply N.div_lt; lia]. simpl. lia.
Qed.

Lemma pretty_nat_long (k : nat) :
  (1000 <= k)%nat -> (4 <= String.length (pretty k))%nat.
Proof.
  intros H. unfold pretty, pretty_nat, pretty, pretty_N.
  rewrite decide_False by lia.
  assert (H1 : (100 <= N.of_nat k / 10)%N)
    by (apply N.div_le_lower_bound; lia).
  assert (H2 : (10 <= N.of_nat k / 10 / 10)%N)
    by (apply N.div_le_lower_bound; lia).
  assert (H3 : (1 <= N.of_nat k / 10 / 10 / 10)%N)
    by (apply N.div_le_lower_bound; lia).
  rewrite 4!pretty_N_go_step by lia.
  etransitivity; [|apply pretty_N_go_length]. simpl. lia.
Qed.

Lemma digit_inj (a b : nat) : Merge.digit a = Merge.digit b -> a mod 10 = b mod 10.
Proof.
  unfold Merge.digit.
  pose proof (Nat.mod_upper_bound a 10 ltac:(lia)) as Ha.
  pose proof (Nat.mod_upper_bound b 10 ltac:(lia)) as Hb.
  remember (48 + a mod 10)%nat as x eqn:Hx.
  remember (48 + b mod 10)%nat as y eqn:Hy.
  intros [= E]. apply (f_equal Ascii.nat_of_ascii) in E.
  rewrite !Ascii.nat_ascii_embedding in E by lia. lia.
Qed.

Lemma three_digits (k : nat) :
  (k < 1000)%nat -> k = ((k / 100) mod 10 * 100 + (k / 10) mod 10 * 10 + k mod 10)%nat.
Proof.
  intros H.
  pose proof (Nat.div_mod_eq k 10). pose proof (Nat.div_mod_eq (k / 10) 10).
  pose proof (Nat.div_mod_eq (k / 100) 10).
  assert (E : (k / 100 = k / 10 / 10)%nat)
    by (rewrite Nat.Div0.div_div; reflexivity).
  assert (Hs : (k / 100 < 10)%nat) by (apply Nat.Div0.div_lt_upper_bound; lia).
  rewrite (Nat.mod_small (k / 100) 10) by exact Hs. lia.
Qed.

Lemma flight_id_inj (i j : nat) : Merge.flight_id i = Merge.flight_id j -> i = j.
Proof.
  unfold Merge.flight_id. cbv zeta. intros E%(inj (String.app "flight_")).
  destruct (S i <? 1000)%nat eqn:Hi, (S j <? 1000)%nat eqn:Hj.
  - apply Nat.ltb_lt in Hi, Hj.
    assert (D1 : Merge.digit (S i / 100) = Merge.digit (S j / 100))
      by (apply (f_equal (fun s => String.substring 0 1 s)) in E; exact E).
    assert (D2 : Merge.digit (S i / 10) = Merge.digit (S j / 10))
      by (apply (f_equal (fun s => String.substring 1 1 s)) in E; exact E).
    assert (D3 : Merge.digit (S i) = Merge.digit (S j))
      by (apply (f_equal (fun s => String.substring 2 1 s)) in E; exact E).
    apply digit_inj in D1, D2, D3.
    pose proof (three_digits (S i) Hi). pose proof (three_digits (S j) Hj). lia.
  - apply Nat.ltb_ge in Hj. apply pretty_nat_long in Hj.
    rewrite <- E in Hj. change (4 <= 3)%nat in Hj. lia.
  - apply Nat.ltb_ge in Hi. apply pretty_nat_long in Hi.
    rewrite E in Hi. change (4 <= 3)%nat in Hi. lia.
  - apply (inj pretty) in E. lia.
Qed.

(** X16. Distinct positions in the list of loaded files get distinct
    flight identifiers, and up to the 999th file an identifier is "flight_"
    followed by three digits. *)
Theorem flight_id_distinct (i j : nat) :
  (Merge.flight_id i = Merge.flight_id j -> i = j) /\
  ((i < 999)%nat ->
   exists a b c : nat,
     (a < 10 /\ b < 10 /\ c < 10)%nat /\ S i = (100 * a + 10 * b + c)%nat /\
     Merge.flight_id i = "flight_" +:+ Merge.digit a +:+ Merge.digit b +:+ Merge.digit c).
Proof.
  split; [apply flight_id_inj|]. intros H.
  exists ((S i / 100) mod 10)%nat, ((S i / 10) mod 10)%nat, (S i mod 10)%nat.
  split; [repeat split; apply Nat.mod_upper_bound; lia|].
  split; [pose proof (three_digits (S i)); lia|].
  unfold Merge.flight_id. cbv zeta.
  rewrite (proj2 (Nat.ltb_lt (S i) 1000)) by lia.
  unfold Merge.digit. now rewrite !Nat.Div0.mod_mod.
Qed.

Lemma flight_id_distinct_witness :
  Merge.flight_id 6 = "flight_007" /\
  (Merge.flight_id 6 = Merge.flight_id 6 -> 6 = 6)%nat.
Proof.
  split; [|exact (proj1 (flight_id_distinct 6 6))].
  destruct (proj2 (flight_id_distinct 6 6))
    as (a & b & c & (Ha & Hb & Hc) & Hsum & E); [lia|].
  assert (Ea : a = 0%nat) by lia. assert (Eb : b = 0%nat) by lia.
  assert (Ec : c = 7%nat) by lia.
  rewrite Ea, Eb, Ec in E. exact E.
Defined.

(** ** The merged data set *)
















(** *** The rows of one flight *)







(** *** The merge and the files on the disk *)















Lemma read_csv_to_csv (w : world) (p : string) (df : DataFrame) :
  Merge.read_csv (to_csv p df w) p = df.
Proof. unfold Merge.read_csv, to_csv. cbn [disk]. now rewrite lookup_insert_eq. Qed.



(** *** The order of the merged rows *)













(* ===================================================================== *)
(** * The loader *)
(* ===================================================================== *)

(** ** Running the computations *)

Ltac run_loader :=
  unfold Loader.get_access_token, Loader.catch_request,
    mbind, Loader.M_bind, Loader.bind, Loader.ret, Loader.raise, Loader.print,
    Loader.sleep, Loader.time_time, Loader.requests_post, Loader.requests_get,
    Loader.get_self, Loader.set_self;
  cbn [fst snd Loader.self Loader.posts Loader.gets Loader.readings Loader.slept
       Loader.console Loader.token Loader.token_time Loader.token_ttl Loader.headers].

Lemma run_bind {A B} (m : Loader.M A) (k : A -> Loader.M B) (s : Loader.state) :
  (m ≫= k) s =
  match m s with
  | (inl a, s') => k a s'
  | (inr e, s') => (inr e, s')
  end.
Proof. reflexivity. Qed.

Lemma run_get_access_token (net : Loader.network) (s : Loader.state) :
  Loader.get_access_token net s =
  if has_credentials net then
    match Loader.post_reply net (Loader.posts s) with
    | Loader.TokenReply code tok =>
        if (code =? 200)%Z
        then match tok with
             | Some t => (inl t, after_post s)
             | None => (inr Loader.KeyError, after_post s)
             end
        else (inr (Loader.TokenRequestFailed code), after_post s)
    | Loader.PostFailed => (inr Loader.RequestException, after_post s)
    end
  else (inr Loader.ValueError, s).
Proof.
  unfold has_credentials. run_loader.
  destruct (Loader.truthy (Loader.client_id net)),
    (Loader.truthy (Loader.client_secret net)); cbn; try reflexivity.
  destruct (Loader.post_reply net (Loader.posts s)) as [code [t|]|]; try reflexivity;
    destruct (code =? 200)%Z; reflexivity.
Qed.

Lemma run_ensure_token (net : Loader.network) (s : Loader.state) :
  Loader._ensure_token net s =
  if token_fresh net s then (inl tt, after_reading s)
  else match Loader.get_access_token net (after_reading s) with
       | (inl t, s') =>
           (inl tt,
            logged Loader.NewToken
              (Loader.State
                 (Loader.Client (Some t) (Loader.clock net (Loader.readings s))
                                (Loader.token_ttl (Loader.self s)) (Some t))
                 (Loader.posts s') (Loader.gets s') (Loader.readings s')
                 (Loader.slept s') (Loader.console s')))
       | (inr e, s') => (inr e, s')
       end.
Proof.
  unfold token_fresh. unfold Loader._ensure_token.
  unfold mbind, Loader.M_bind, Loader.bind at 1. unfold Loader.time_time at 1.
  unfold Loader.bind at 1. unfold Loader.get_self at 1.
  fold (after_reading s). cbn [Loader.self after_reading Loader.readings].
  destruct (Loader.truthy (Loader.token (Loader.self s))); cbn [negb orb andb].
  - destruct (Qle_bool _ _); cbn [negb]; [reflexivity|].
    unfold Loader.bind.
    destruct (Loader.get_access_token net (after_reading s)) as [[t|e] s'];
      reflexivity.
  - unfold Loader.bind.
    destruct (Loader.get_access_token net (after_reading s)) as [[t|e] s'];
      reflexivity.
Qed.

(** ** Bounds on what a call costs *)

Lemma within_refl (s : Loader.state) : within 0 0 0 s s.
Proof. unfold within. lia. Qed.

Lemma within_trans g1 p1 z1 g2 p2 z2 (s1 s2 s3 : Loader.state) :
  within g1 p1 z1 s1 s2 -> within g2 p2 z2 s2 s3 ->
  within (g1 + g2) (p1 + p2) (z1 + z2) s1 s3.
Proof. unfold within. lia. Qed.

Lemma within_le g p z g' p' z' (s s' : Loader.state) :
  within g p z s s' -> (g <= g')%nat -> (p <= p')%nat -> (z <= z')%Z ->
  within g' p' z' s s'.
Proof. unfold within. lia. Qed.

Lemma within_bind {A B} g1 p1 z1 g2 p2 z2 (m : Loader.M A) (k : A -> Loader.M B) :
  (forall s, within g1 p1 z1 s (snd (m s))) ->
  (forall a s, within g2 p2 z2 s (snd (k a s))) ->
  (0 <= z2)%Z ->
  forall s, within (g1 + g2) (p1 + p2) (z1 + z2) s (snd ((m ≫= k) s)).
Proof.
  intros Hm Hk Hz s. rewrite run_bind. specialize (Hm s).
  destruct (m s) as [[a|e] s1]; cbn [snd] in *.
  - eapply within_trans; [exact Hm | apply Hk].
  - eapply within_le; [exact Hm | lia..].
Qed.

Lemma within_catch {A} g1 p1 z1 g2 p2 z2 (m handler : Loader.M A) :
  (forall s, within g1 p1 z1 s (snd (m s))) ->
  (forall s, within g2 p2 z2 s (snd (handler s))) ->
  (0 <= z2)%Z ->
  forall s, within (g1 + g2) (p1 + p2) (z1 + z2) s
                   (snd (Loader.catch_request m handler s)).
Proof.
  intros Hm Hh Hz s. unfold Loader.catch_request. specialize (Hm s).
  destruct (m s) as [[a|e] s1]; cbn [snd] in *.
  - eapply within_le; [exact Hm | lia..].
  - destruct e; try (eapply within_le; [exact Hm | lia..]).
    eapply within_trans; [exact Hm | apply Hh].
Qed.

Lemma within_print (l : Loader.line) (s : Loader.state) :
  within 0 0 0 s (snd (Loader.print l s)).
Proof. run_loader; unfold within; cbn; lia. Qed.

Lemma within_get_access_token (net : Loader.network) (s : Loader.state) :
  within 0 1 0 s (snd (Loader.get_access_token net s)).
Proof.
  rewrite run_get_access_token.
  destruct (has_credentials net); [|run_loader; unfold within; cbn; lia].
  destruct (Loader.post_reply net (Loader.posts s)) as [code [t|]|];
    [destruct (code =? 200)%Z | destruct (code =? 200)%Z |];
    run_loader; unfold within; cbn; lia.
Qed.

Lemma within_ensure_token (net : Loader.network) (s : Loader.state) :
  within 0 1 0 s (snd (Loader._ensure_token net s)).
Proof.
  rewrite run_ensure_token.
  destruct (token_fresh net s); [run_loader; unfold within; cbn; lia|].
  pose proof (within_get_access_token net (after_reading s)) as H.
  destruct (Loader.get_access_token net (after_reading s)) as [[t|e] s'];
    revert H; run_loader; unfold within; cbn; lia.
Qed.

Lemma within_step g p z g' p' z' (s s1 s' : Loader.state) :
  within 1 0 0 s s1 -> within g p z s1 s' ->
  (1 + g <= g')%nat -> (p <= p')%nat -> (z <= z')%Z ->
  within g' p' z' s s'.
Proof. unfold within. lia. Qed.

Lemma within_unauthorized (net : Loader.network) (attempt : nat) (s : Loader.state) :
  within 0 1 2 s
    (snd (Loader.catch_request
            (Loader.print Loader.Unauthorized;;
             c ← Loader.get_self;
             Loader.set_self (Loader.Client None (Loader.token_time c)
                                            (Loader.token_ttl c) (Loader.headers c));;
             Loader._ensure_token net)
            (Loader.print (Loader.ErrorAttempt attempt);; Loader.sleep 2) s)).
Proof.
  apply (within_catch 0 1 0 0 0 2); [| |lia].
  - intros s0. apply (within_bind 0 0 0 0 1 0); [apply within_print| |lia].
    intros _ s1. apply (within_bind 0 0 0 0 1 0); [| |lia].
    + intros s2. apply within_refl.
    + intros c s2. apply (within_bind 0 0 0 0 1 0); [| |lia].
      * intros s3. run_loader; unfold within; cbn; lia.
      * intros _ s3. apply within_ensure_token.
  - intros s0. apply (within_bind 0 0 0 0 0 2); [apply within_print| |lia].
    intros _ s1. run_loader; unfold within; cbn; lia.
Qed.

Lemma within_attempts (net : Loader.network) (icao24 : string) (timestamp retries : Z)
    (attempt n : nat) (s : Loader.state) :
  within n n (2 * Z.of_nat n) s
         (snd (Loader.attempts net icao24 timestamp retries attempt n s)).
Proof.
  revert attempt s. induction n as [|n IH]; intros attempt s.
  - cbn [Loader.attempts]. run_loader; unfold within; cbn; lia.
  - cbn [Loader.attempts]. rewrite run_bind.
    unfold Loader.requests_get at 1. fold (after_get s).
    assert (Hget : within 1 0 0 s (after_get s))
      by (run_loader; unfold within; cbn; lia).
    assert (Hend : forall l s0,
              within 0 0 0 s0
                (snd ((Loader.print l;; Loader.ret (@None Loader.Track)) s0)))
      by (intros l s0; run_loader; unfold within; cbn; lia).
    destruct (Loader.get_reply net (Loader.gets s)) as [code path|].
    + destruct (code =? 401)%Z;
        [|destruct (code =? 404)%Z;
          [|destruct (negb (code =? 200)%Z); [|destruct path as [[|wp path]|]]]].
      * apply (within_step n (S n) (2 + 2 * Z.of_nat n) _ _ _ s (after_get s));
          [exact Hget| |lia..].
        apply (within_bind 0 1 2 n n (2 * Z.of_nat n)); [| |lia].
        -- apply within_unauthorized.
        -- intros _ s0. apply IH.
      * apply (within_step 0 0 0 _ _ _ s (after_get s)); [exact Hget|apply Hend|lia..].
      * apply (within_step 0 0 0 _ _ _ s (after_get s)); [exact Hget|apply Hend|lia..].
      * apply (within_step 0 0 0 _ _ _ s (after_get s)); [exact Hget|apply Hend|lia..].
      * apply (within_step 0 0 0 _ _ _ s (after_get s)); [exact Hget| |lia..].
        unfold Loader.make_track. cbv zeta.
        destruct (_ =? _)%nat; apply within_refl.
      * apply (within_step 0 0 0 _ _ _ s (after_get s)); [exact Hget|apply Hend|lia..].
    + apply (within_step n n (2 + 2 * Z.of_nat n) _ _ _ s (after_get s));
        [exact Hget| |lia..].
      apply (within_bind 0 0 0 n n (2 + 2 * Z.of_nat n)); [apply within_print| |lia].
      intros _ s0. apply (within_bind 0 0 2 n n (2 * Z.of_nat n)); [| |lia].
      * intros s1. run_loader; unfold within; cbn; lia.
      * intros _ s1. apply IH.
Qed.

Lemma within_get_track (net : Loader.network) (icao24 : string) (timestamp retries : Z)
    (s : Loader.state) :
  within (Z.to_nat retries) (S (Z.to_nat retries)) (2 * Z.of_nat (Z.to_nat retries)) s
         (snd (Loader.get_track net icao24 timestamp retries s)).
Proof.
  unfold Loader.get_track.
  eapply within_le;
    [apply (within_bind 0 1 0 (Z.to_nat retries) (Z.to_nat retries)
              (2 * Z.of_nat (Z.to_nat retries))); [| |lia] | lia..].
  - apply within_ensure_token.
  - intros _ s0.
    apply (within_bind 0 0 0 (Z.to_nat retries) (Z.to_nat retries)
             (2 * Z.of_nat (Z.to_nat retries))); [apply within_print| |lia].
    intros _ s1. apply within_attempts.
Qed.

(** X23. Whatever the network answers, one call of [get_track] makes at most
    [retries] requests to the track endpoint (none when [retries] is 0 or
    negative), asks for at most one token more than that, and sleeps at most
    two seconds per attempt. *)
Theorem get_track_bounded (net : Loader.network) (icao24 : string)
    (timestamp retries : Z) (s : Loader.state) :
  let s' := snd (Loader.get_track net icao24 timestamp retries s) in
  (Loader.gets s <= Loader.gets s' <= Loader.gets s + Z.to_nat retries)%nat /\
  (Loader.posts s <= Loader.posts s' <= Loader.posts s + S (Z.to_nat retries))%nat /\
  (Loader.slept s <= Loader.slept s' <= Loader.slept s + 2 * Z.max 0 retries)%Z.
Proof.
  cbv zeta. pose proof (within_get_track net icao24 timestamp retries s) as H.
  unfold within in H. lia.
Qed.

(** ** One call of [get_track], attempt by attempt *)

Lemma run_get_track (net : Loader.network) (icao24 : string) (timestamp retries : Z)
    (s : Loader.state) :
  Loader.get_track net icao24 timestamp retries s =
  match Loader._ensure_token net s with
  | (inl _, s1) =>
      Loader.attempts net icao24 timestamp retries 1 (Z.to_nat retries)
        (logged (Loader.Requesting icao24 timestamp) s1)
  | (inr e, s1) => (inr e, s1)
  end.
Proof.
  unfold Loader.get_track. rewrite run_bind.
  destruct (Loader._ensure_token net s) as [[[]|e] s1]; reflexivity.
Qed.

Lemma run_attempts_failed (net : Loader.network) (icao24 : string)
    (timestamp retries : Z) (attempt n : nat) (s : Loader.state) :
  Loader.get_reply net (Loader.gets s) = Loader.GetFailed ->
  Loader.attempts net icao24 timestamp retries attempt (S n) s =
  Loader.attempts net icao24 timestamp retries (S attempt) n (after_failure attempt s).
Proof.
  intros H. cbn [Loader.attempts]. rewrite run_bind.
  unfold Loader.requests_get at 1. rewrite H. reflexivity.
Qed.

Lemma gets_after_failures (attempt j : nat) (s : Loader.state) :
  Loader.gets (after_failures attempt j s) = (Loader.gets s + j)%nat /\
  Loader.posts (after_failures attempt j s) = Loader.posts s /\
  Loader.slept (after_failures attempt j s) = (Loader.slept s + 2 * Z.of_nat j)%Z /\
  Loader.self (after_failures attempt j s) = Loader.self s.
Proof.
  revert attempt s. induction j as [|j IH]; intros attempt s.
  - cbn. repeat split; lia.
  - cbn [after_failures]. destruct (IH (S attempt) (after_failure attempt s))
      as (-> & -> & -> & ->).
    cbn. repeat split; lia.
Qed.

Lemma run_attempts_failures (net : Loader.network) (icao24 : string)
    (timestamp retries : Z) (j n attempt : nat) (s : Loader.state) :
  (forall k, (k < j)%nat ->
     Loader.get_reply net (Loader.gets s + k) = Loader.GetFailed) ->
  Loader.attempts net icao24 timestamp retries attempt (j + n) s =
  Loader.attempts net icao24 timestamp retries (attempt + j) n
    (after_failures attempt j s).
Proof.
  revert attempt s. induction j as [|j IH]; intros attempt s H.
  - now rewrite Nat.add_0_r.
  - cbn [Nat.add after_failures]. rewrite run_attempts_failed.
    + rewrite IH; [now rewrite Nat.add_succ_r|].
      intros k Hk. cbn [after_failure Loader.gets].
      replace (S (Loader.gets s) + k)%nat with (Loader.gets s + S k)%nat by lia.
      apply H. lia.
    + rewrite <- (Nat.add_0_r (Loader.gets s)). apply H. lia.
Qed.

Lemma run_attempts_final (net : Loader.network) (icao24 : string)
    (timestamp retries : Z) (attempt n : nat) (s : Loader.state)
    (code : Z) (path : option (list (list Loader.json))) :
  Loader.get_reply net (Loader.gets s) = Loader.Reply code path ->
  code <> 401%Z ->
  code <> 200%Z \/ path = None \/ path = Some [] ->
  exists l,
    Loader.attempts net icao24 timestamp retries attempt (S n) s =
    (inl None, logged l (after_get s)).
Proof.
  intros H H401 Hfinal. cbn [Loader.attempts]. rewrite run_bind.
  unfold Loader.requests_get at 1. rewrite H. fold (after_get s).
  rewrite (proj2 (Z.eqb_neq code 401) H401).
  destruct (code =? 404)%Z; [eexists; reflexivity|].
  destruct (code =? 200)%Z eqn:E; cbn [negb]; [|eexists; reflexivity].
  apply Z.eqb_eq in E. destruct Hfinal as [Hc|[->| ->]]; [contradiction| |];
    eexists; reflexivity.
Qed.

Lemma make_track_ok (icao24 : string) (path : list (list Loader.json))
    (s : Loader.state) :
  (Loader.width path <= 9)%nat ->
  Loader.make_track icao24 path s = (inl (Some (track_of icao24 path)), s).
Proof.
  intros H. unfold Loader.make_track. cbv zeta.
  rewrite (proj2 (Nat.eqb_eq _ _)); [reflexivity|].
  rewrite length_take. change (length Loader.columns_expected) with 9%nat. lia.
Qed.

Lemma make_track_inv (icao24 : string) (path : list (list Loader.json))
    (s : Loader.state) (tr : Loader.Track) :
  fst (Loader.make_track icao24 path s) = inl (Some tr) ->
  (Loader.width path <= 9)%nat /\ tr = track_of icao24 path.
Proof.
  unfold Loader.make_track. cbv zeta.
  destruct (_ =? _)%nat eqn:E; [|intros H; discriminate H].
  apply Nat.eqb_eq in E. rewrite length_take in E.
  change (length Loader.columns_expected) with 9%nat in E.
  intros [= <-]. split; [lia | reflexivity].
Qed.

Lemma run_attempts_track (net : Loader.network) (icao24 : string)
    (timestamp retries : Z) (attempt n : nat) (s : Loader.state)
    (path : list (list Loader.json)) :
  Loader.get_reply net (Loader.gets s) = Loader.Reply 200 (Some path) ->
  path <> [] -> (Loader.width path <= 9)%nat ->
  Loader.attempts net icao24 timestamp retries attempt (S n) s =
  (inl (Some (track_of icao24 path)), after_get s).
Proof.
  intros H Hne Hw. cbn [Loader.attempts]. rewrite run_bind.
  unfold Loader.requests_get at 1. rewrite H. fold (after_get s).
  cbn [Z.eqb Pos.eqb negb].
  destruct path as [|wp path]; [contradiction|].
  now apply make_track_ok.
Qed.

Lemma ensure_token_ok (net : Loader.network) (s : Loader.state) :
  fst (Loader._ensure_token net s) = inl tt ->
  exists s1,
    Loader._ensure_token net s = (inl tt, s1) /\
    Loader.gets s1 = Loader.gets s /\ Loader.slept s1 = Loader.slept s.
Proof.
  intros H. pose proof (within_ensure_token net s) as W.
  destruct (Loader._ensure_token net s) as [[[]|e] s1]; [|discriminate H].
  exists s1. split; [reflexivity|]. unfold within in W. cbn [snd] in W. lia.
Qed.

(** X24. A 404, any status other than 200 and 401, and a 200 without
    waypoints are final: [get_track] returns [None] after that one request,
    without another attempt and without a pause. *)
Theorem final_answer_not_retried (net : Loader.network) (icao24 : string)
    (timestamp retries : Z) (s : Loader.state) (code : Z)
    (path : option (list (list Loader.json))) :
  (0 < retries)%Z ->
  fst (Loader._ensure_token net s) = inl tt ->
  Loader.get_reply net (Loader.gets s) = Loader.Reply code path ->
  code <> 401%Z ->
  code <> 200%Z \/ path = None \/ path = Some [] ->
  let r := Loader.get_track net icao24 timestamp retries s in
  fst r = inl None /\
  Loader.gets (snd r) = S (Loader.gets s) /\
  Loader.slept (snd r) = Loader.slept s /\
  Loader.posts (snd r) = Loader.posts (snd (Loader._ensure_token net s)).
Proof.
  intros Hr (s1 & E & Hg & Hs)%ensure_token_ok Hreply H401 Hfinal. cbv zeta.
  rewrite run_get_track, E. cbn [snd].
  destruct (Z.to_nat retries) as [|n] eqn:En; [lia|].
  destruct (run_attempts_final net icao24 timestamp retries 1 n
              (logged (Loader.Requesting icao24 timestamp) s1) code path)
    as [l ->]; [cbn; now rewrite Hg | exact H401 | exact Hfinal |].
  cbn. repeat split; lia.
Qed.

Lemma final_answer_not_retried_witness :
  fst (Loader.get_track (granting "t" (replies [Loader.Reply 500 None])) "3c4b26" 0 3
         start) = inl None /\
  Loader.gets (snd (Loader.get_track (granting "t" (replies [Loader.Reply 500 None]))
                      "3c4b26" 0 3 start)) = 1%nat.
Proof.
  destruct (final_answer_not_retried (granting "t" (replies [Loader.Reply 500 None]))
              "3c4b26" 0 3 start 500 None) as (H1 & H2 & _).
  - lia.
  - reflexivity.
  - reflexivity.
  - discriminate.
  - left. discriminate.
  - split; [exact H1 | exact H2].
Defined.

(** X25. When every attempt ends in a [RequestException], [get_track]
    gives up after exactly [retries] requests and two seconds of sleep after
    each, prints that it failed and returns [None]. *)
Theorem all_attempts_fail (net : Loader.network) (icao24 : string)
    (timestamp retries : Z) (s : Loader.state) :
  fst (Loader._ensure_token net s) = inl tt ->
  (forall k, (k < Z.to_nat retries)%nat ->
     Loader.get_reply net (Loader.gets s + k) = Loader.GetFailed) ->
  let r := Loader.get_track net icao24 timestamp retries s in
  fst r = inl None /\
  Loader.gets (snd r) = (Loader.gets s + Z.to_nat retries)%nat /\
  Loader.slept (snd r) = (Loader.slept s + 2 * Z.max 0 retries)%Z /\
  last (Loader.console (snd r)) = Some (Loader.Failed icao24 retries).
Proof.
  intros (s1 & E & Hg & Hs)%ensure_token_ok Hfail. cbv zeta.
  rewrite run_get_track, E.
  set (s2 := logged (Loader.Requesting icao24 timestamp) s1).
  rewrite <- (Nat.add_0_r (Z.to_nat retries)).
  rewrite (run_attempts_failures net icao24 timestamp retries (Z.to_nat retries) 0 1 s2)
    by (intros k Hk; cbn; rewrite Hg; now apply Hfail).
  destruct (gets_after_failures 1 (Z.to_nat retries) s2) as (G & _ & Z & _).
  cbn [Loader.attempts]. run_loader. rewrite G, Z. cbn.
  repeat split; [lia | lia | apply last_snoc].
Qed.

Lemma all_attempts_fail_witness :
  fst (Loader.get_track (granting "t" (fun _ => Loader.GetFailed)) "3c4b26" 0 3 start)
    = inl None /\
  Loader.slept (snd (Loader.get_track (granting "t" (fun _ => Loader.GetFailed))
                       "3c4b26" 0 3 start)) = 6%Z.
Proof.
  destruct (all_attempts_fail (granting "t" (fun _ => Loader.GetFailed))
              "3c4b26" 0 3 start) as (H1 & _ & H2 & _).
  - reflexivity.
  - reflexivity.
  - split; [exact H1 | exact H2].
Defined.

(** X26. Attempts that end in a [RequestException] are repeated: when the
    first [j] do, [j] below [retries], and the next answer is a 200 with
    waypoints in at most nine fields, [get_track] returns their table, after
    [j + 1] requests and [2 j] seconds of sleep. *)
Theorem track_after_failures (net : Loader.network) (icao24 : string)
    (timestamp retries : Z) (s : Loader.state) (j : nat)
    (path : list (list Loader.json)) :
  fst (Loader._ensure_token net s) = inl tt ->
  (j < Z.to_nat retries)%nat ->
  (forall k, (k < j)%nat ->
     Loader.get_reply net (Loader.gets s + k) = Loader.GetFailed) ->
  Loader.get_reply net (Loader.gets s + j) = Loader.Reply 200 (Some path) ->
  path <> [] -> (Loader.width path <= 9)%nat ->
  let r := Loader.get_track net icao24 timestamp retries s in
  fst r = inl (Some (track_of icao24 path)) /\
  Loader.gets (snd r) = (Loader.gets s + S j)%nat /\
  Loader.slept (snd r) = (Loader.slept s + 2 * Z.of_nat j)%Z.
Proof.
  intros (s1 & E & Hg & Hs)%ensure_token_ok Hj Hfail Hreply Hne Hw. cbv zeta.
  rewrite run_get_track, E.
  set (s2 := logged (Loader.Requesting icao24 timestamp) s1).
  replace (Z.to_nat retries) with (j + S (Z.to_nat retries - S j))%nat by lia.
  rewrite (run_attempts_failures net icao24 timestamp retries j _ 1 s2)
    by (intros k Hk; cbn; rewrite Hg; now apply Hfail).
  destruct (gets_after_failures 1 j s2) as (G & _ & Z & _).
  rewrite (run_attempts_track _ _ _ _ _ _ _ path); [| |exact Hne|exact Hw].
  - cbn. rewrite G, Z. cbn. repeat split; lia.
  - rewrite G. cbn. now rewrite Hg.
Qed.

Lemma track_after_failures_witness :
  fst (Loader.get_track
         (granting "t" (replies [Loader.GetFailed; Loader.Reply 200 (Some two_waypoints)]))
         "3c4b26" 0 3 start) = inl (Some (track_of "3c4b26" two_waypoints)) /\
  Loader.slept (snd (Loader.get_track
         (granting "t" (replies [Loader.GetFailed; Loader.Reply 200 (Some two_waypoints)]))
         "3c4b26" 0 3 start)) = 2%Z.
Proof.
  destruct (track_after_failures
              (granting "t" (replies [Loader.GetFailed;
                                      Loader.Reply 200 (Some two_waypoints)]))
              "3c4b26" 0 3 start 1 two_waypoints) as (H1 & _ & H2).
  - reflexivity.
  - cbn. lia.
  - intros k Hk. assert (k = 0%nat) as -> by lia. reflexivity.
  - reflexivity.
  - discriminate.
  - cbn. lia.
  - split; [exact H1 | exact H2].
Defined.

(** ** Tokens *)

Lemma token_fresh_no_token (net : Loader.network) (s : Loader.state) :
  Loader.token (Loader.self s) = None -> token_fresh net s = false.
Proof. intros H. unfold token_fresh. now rewrite H. Qed.

Lemma run_ensure_token_granted (net : Loader.network) (s : Loader.state) (t : string) :
  token_fresh net s = false ->
  has_credentials net = true ->
  Loader.post_reply net (Loader.posts s) = Loader.TokenReply 200 (Some t) ->
  Loader._ensure_token net s =
  (inl tt,
   Loader.State (Loader.Client (Some t) (Loader.clock net (Loader.readings s))
                               (Loader.token_ttl (Loader.self s)) (Some t))
                (S (Loader.posts s)) (Loader.gets s) (S (Loader.readings s))
                (Loader.slept s) (Loader.console s ++ [Loader.NewToken])).
Proof.
  intros Hf Hc Hp. rewrite run_ensure_token, Hf, run_get_access_token, Hc.
  cbn [after_reading Loader.posts]. rewrite Hp. reflexivity.
Qed.

(** The 401 branch of an attempt, when the token endpoint grants [t] *)
Lemma run_attempts_unauthorized (net : Loader.network) (icao24 : string)
    (timestamp retries : Z) (attempt n : nat) (s : Loader.state)
    (p0 : option (list (list Loader.json))) (t : string) :
  Loader.get_reply net (Loader.gets s) = Loader.Reply 401 p0 ->
  has_credentials net = true ->
  Loader.post_reply net (Loader.posts s) = Loader.TokenReply 200 (Some t) ->
  Loader.attempts net icao24 timestamp retries attempt (S n) s =
  Loader.attempts net icao24 timestamp retries (S attempt) n
    (Loader.State (Loader.Client (Some t) (Loader.clock net (Loader.readings s))
                                 (Loader.token_ttl (Loader.self s)) (Some t))
                  (S (Loader.posts s)) (S (Loader.gets s)) (S (Loader.readings s))
                  (Loader.slept s)
                  (Loader.console s ++ [Loader.Unauthorized; Loader.NewToken])).
Proof.
  intros Hreply Hc Hp. cbn [Loader.attempts]. rewrite run_bind.
  unfold Loader.requests_get at 1. rewrite Hreply.
  cbn [Z.eqb Pos.eqb]. rewrite run_bind.
  unfold Loader.catch_request. rewrite run_bind.
  unfold Loader.print at 1. rewrite run_bind. unfold Loader.get_self at 1.
  rewrite run_bind. unfold Loader.set_self at 1.
  cbn [Loader.self Loader.posts Loader.gets Loader.readings Loader.slept
       Loader.console Loader.token_time Loader.token_ttl Loader.headers].
  rewrite run_ensure_token_granted with (t := t);
    [|apply token_fresh_no_token; reflexivity | exact Hc | exact Hp].
  cbn [Loader.self Loader.posts Loader.gets Loader.readings Loader.slept
       Loader.console Loader.token_time Loader.token_ttl Loader.headers].
  now rewrite <- app_assoc.
Qed.

(** X27. A 401 makes [get_track] drop its token and ask for a new one at
    once, whatever the age of the old one, and uses up the attempt: with one
    attempt the call returns [None]; with two or more the next request is
    made with the new token, and its table is returned without any pause. *)
Theorem unauthorized_refreshes_token (net : Loader.network) (icao24 : string)
    (timestamp retries : Z) (s : Loader.state)
    (p0 : option (list (list Loader.json))) (t : string) :
  fst (Loader._ensure_token net s) = inl tt ->
  has_credentials net = true ->
  Loader.get_reply net (Loader.gets s) = Loader.Reply 401 p0 ->
  Loader.post_reply net (Loader.posts (snd (Loader._ensure_token net s)))
    = Loader.TokenReply 200 (Some t) ->
  let r := Loader.get_track net icao24 timestamp retries s in
  (retries = 1%Z ->
   fst r = inl None /\ Loader.token (Loader.self (snd r)) = Some t) /\
  forall path,
    (2 <= retries)%Z ->
    Loader.get_reply net (S (Loader.gets s)) = Loader.Reply 200 (Some path) ->
    path <> [] -> (Loader.width path <= 9)%nat ->
    fst r = inl (Some (track_of icao24 path)) /\
    Loader.token (Loader.self (snd r)) = Some t /\
    Loader.headers (Loader.self (snd r)) = Some t /\
    Loader.gets (snd r) = (Loader.gets s + 2)%nat /\
    Loader.slept (snd r) = Loader.slept s.
Proof.
  intros (s1 & E & Hg & Hs)%ensure_token_ok Hc Hreply Hpost. cbv zeta.
  rewrite E in Hpost. cbn [snd] in Hpost.
  rewrite run_get_track, E.
  set (s2 := logged (Loader.Requesting icao24 timestamp) s1).
  assert (Hstep : forall n,
            Loader.attempts net icao24 timestamp retries 1 (S n) s2 =
            Loader.attempts net icao24 timestamp retries 2 n
              (Loader.State
                 (Loader.Client (Some t) (Loader.clock net (Loader.readings s2))
                                (Loader.token_ttl (Loader.self s2)) (Some t))
                 (S (Loader.posts s2)) (S (Loader.gets s2)) (S (Loader.readings s2))
                 (Loader.slept s2)
                 (Loader.console s2 ++ [Loader.Unauthorized; Loader.NewToken]))).
  { intros n. apply (run_attempts_unauthorized _ _ _ _ _ _ _ p0).
    - cbn. now rewrite Hg.
    - exact Hc.
    - exact Hpost. }
  split.
  - intros ->. change (Z.to_nat 1) with 1%nat. rewrite Hstep.
    cbn [Loader.attempts]. run_loader. split; reflexivity.
  - intros path Hr Hnext Hne Hw.
    replace (Z.to_nat retries) with (S (S (Z.to_nat retries - 2))) by lia.
    rewrite Hstep.
    rewrite (run_attempts_track _ _ _ _ _ _ _ path); [| |exact Hne|exact Hw].
    + cbn. repeat split; lia.
    + cbn. now rewrite Hg.
Qed.

Lemma unauthorized_refreshes_token_witness :
  fst (Loader.get_track
         (granting "t" (replies [Loader.Reply 401 None;
                                 Loader.Reply 200 (Some two_waypoints)]))
         "3c4b26" 0 3 start) = inl (Some (track_of "3c4b26" two_waypoints)) /\
  Loader.posts (snd (Loader.get_track
         (granting "t" (replies [Loader.Reply 401 None;
                                 Loader.Reply 200 (Some two_waypoints)]))
         "3c4b26" 0 3 start)) = 2%nat.
Proof.
  destruct (unauthorized_refreshes_token
              (granting "t" (replies [Loader.Reply 401 None;
                                      Loader.Reply 200 (Some two_waypoints)]))
              "3c4b26" 0 3 start None "t") as [_ H].
  - reflexivity.
  - reflexivity.
  - reflexivity.
  - reflexivity.
  - destruct (H two_waypoints) as (H1 & _).
    + lia.
    + reflexivity.
    + discriminate.
    + cbn. lia.
    + split; [exact H1 | reflexivity].
Defined.

(** X28. The life of a token.  [_ensure_token] makes no request while the
    client holds a non-empty token that the clock shows to be at most its
    lifetime less ten seconds old; otherwise it makes exactly one, and the
    token it obtains is then reused by a next call under that same
    condition. *)
Theorem token_lifetime (net : Loader.network) (s : Loader.state) :
  let r := Loader._ensure_token net s in
  (token_fresh net s = true -> r = (inl tt, after_reading s)) /\
  (token_fresh net s = false ->
   fst r = inl tt ->
   Loader.posts (snd r) = S (Loader.posts s) /\
   Loader.token_time (Loader.self (snd r)) = Loader.clock net (Loader.readings s) /\
   Loader.headers (Loader.self (snd r)) = Loader.token (Loader.self (snd r)) /\
   (Loader.truthy (Loader.token (Loader.self (snd r))) = true ->
    Qle_bool (Loader.clock net (Loader.readings (snd r))
              - Loader.clock net (Loader.readings s))
             (Loader.token_ttl (Loader.self s) - 10) = true ->
    Loader._ensure_token net (snd r) = (inl tt, after_reading (snd r)))).
Proof.
  cbv zeta. rewrite (run_ensure_token net s). split.
  - now intros ->.
  - intros ->. rewrite run_get_access_token.
    destruct (has_credentials net); [|intros H; discriminate H].
    cbn [after_reading Loader.posts].
    destruct (Loader.post_reply net (Loader.posts s)) as [code [t|]|];
      [destruct (code =? 200)%Z | destruct (code =? 200)%Z |];
      intros H; try discriminate H.
    cbn. repeat split.
    intros Ht Hage. rewrite run_ensure_token. unfold token_fresh. cbn.
    now rewrite Ht, Hage.
Qed.

Lemma token_lifetime_witness :
  Loader.posts
    (snd (Loader._ensure_token (granting "t" (replies []))
            (snd (Loader._ensure_token (granting "t" (replies [])) start)))) = 1%nat.
Proof.
  destruct (token_lifetime (granting "t" (replies [])) start) as [_ H].
  destruct H as (Hposts & _ & _ & Hreuse); [reflexivity | reflexivity |].
  rewrite Hreuse; [exact Hposts | reflexivity | reflexivity].
Defined.

(** ** The table [get_track] returns *)

Lemma run_print {A} (l : Loader.line) (k : Loader.M A) (s : Loader.state) :
  (Loader.print l;; k) s = k (logged l s).
Proof. reflexivity. Qed.

Lemma attempts_Some (net : Loader.network) (icao24 : string) (timestamp retries : Z)
    (attempt n : nat) (s : Loader.state) (tr : Loader.Track) :
  fst (Loader.attempts net icao24 timestamp retries attempt n s) = inl (Some tr) ->
  exists path,
    path <> [] /\ (Loader.width path <= 9)%nat /\ tr = track_of icao24 path.
Proof.
  revert attempt s. induction n as [|n IH]; intros attempt s.
  - cbn [Loader.attempts]. rewrite run_print. intros H. discriminate H.
  - cbn [Loader.attempts]. rewrite run_bind. unfold Loader.requests_get at 1.
    destruct (Loader.get_reply net (Loader.gets s)) as [code path|].
    + destruct (code =? 401)%Z.
      * rewrite run_bind.
        destruct (Loader.catch_request _ _ _) as [[u|e] s'];
          [apply IH | intros H; discriminate H].
      * destruct (code =? 404)%Z; [rewrite run_print; intros H; discriminate H|].
        destruct (negb (code =? 200)%Z);
          [rewrite run_print; intros H; discriminate H|].
        destruct path as [[|wp path]|];
          try (rewrite run_print; intros H; discriminate H).
        intros [Hw ->]%make_track_inv. exists (wp :: path).
        split; [discriminate | auto].
    + rewrite run_print, run_bind. unfold Loader.sleep at 1. apply IH.
Qed.

Lemma get_track_Some (net : Loader.network) (icao24 : string) (timestamp retries : Z)
    (s : Loader.state) (tr : Loader.Track) :
  fst (Loader.get_track net icao24 timestamp retries s) = inl (Some tr) ->
  exists path,
    path <> [] /\ (Loader.width path <= 9)%nat /\ tr = track_of icao24 path.
Proof.
  rewrite run_get_track.
  destruct (Loader._ensure_token net s) as [[[]|e] s1];
    [apply attempts_Some | intros H; discriminate H].
Qed.

Lemma width_ge (path : list (list Loader.json)) (wp : list Loader.json) :
  wp ∈ path -> (length wp <= Loader.width path)%nat.
Proof.
  unfold Loader.width. induction path as [|x path IH]; [now intros ?%elem_of_nil|].
  intros [->|H]%elem_of_cons; cbn [map foldr]; [lia|].
  specialize (IH H). lia.
Qed.

Lemma length_pad (k : nat) (wp : list Loader.json) :
  (length wp <= k)%nat -> length (Loader.pad k wp) = k.
Proof. intros H. unfold Loader.pad. rewrite length_app, length_replicate. lia. Qed.

Lemma essential_in_track (k : nat) (c : string) :
  (4 <= k)%nat -> c ∈ essential_cols ->
  c ∈ take k Loader.columns_expected ++ ["icao24"].
Proof.
  intros Hk Hc. apply elem_of_app. left.
  change essential_cols with (take 4 Loader.columns_expected) in Hc.
  replace 4%nat with (Nat.min 4 k) in Hc by lia.
  rewrite <- take_take in Hc.
  apply list_elem_of_lookup in Hc as [i Hi].
  apply lookup_take_Some in Hi as [Hi _].
  now apply list_elem_of_lookup_2 in Hi.
Qed.

Lemma velocity_not_in_track (k : nat) :
  (k < 7)%nat -> "velocity" ∉ take k Loader.columns_expected ++ ["icao24"].
Proof.
  intros Hk H.
  do 7 (destruct k as [|k];
        [cbn in H;
         repeat (apply elem_of_cons in H as [H|H]; [discriminate H|]);
         now apply elem_of_nil in H|]).
  lia.
Qed.

(** X29. A table returned by [get_track] is made of the waypoints of one
    answer: one row per waypoint, in at most nine fields named by the first
    of the expected column names, with the queried [icao24] added at the end
    of every row.  With four fields or more it has the columns
    [preprocess_file] requires; with six or fewer it has no [velocity]
    column, the case in which [preprocess_file] puts its placeholder. *)
Theorem returned_track_shape (net : Loader.network) (icao24 : string)
    (timestamp retries : Z) (s : Loader.state) (tr : Loader.Track) :
  fst (Loader.get_track net icao24 timestamp retries s) = inl (Some tr) ->
  exists path,
    path <> [] /\ (Loader.width path <= 9)%nat /\
    Loader.columns tr = take (Loader.width path) Loader.columns_expected ++ ["icao24"] /\
    length (Loader.rows tr) = length path /\
    Forall (fun r => length r = S (Loader.width path) /\
                     last r = Some (Loader.JStr icao24)) (Loader.rows tr) /\
    ((4 <= Loader.width path)%nat ->
     forall c, c ∈ essential_cols -> c ∈ Loader.columns tr) /\
    ((Loader.width path < 7)%nat -> "velocity" ∉ Loader.columns tr).
Proof.
  intros (path & Hne & Hw & ->)%get_track_Some.
  exists path. unfold track_of. cbn [Loader.columns Loader.rows].
  split; [exact Hne|]. split; [exact Hw|]. split; [reflexivity|].
  split; [apply length_map|]. split.
  - apply Forall_forall. intros r (wp & -> & Hwp)%list_elem_of_fmap.
    rewrite length_app, length_pad by now apply width_ge.
    split; [cbn; lia | apply last_snoc].
  - split.
    + intros Hk c Hc. now apply essential_in_track.
    + apply velocity_not_in_track.
Qed.

Lemma returned_track_shape_witness :
  exists (tr : Loader.Track) (path : list (list Loader.json)),
    fst (Loader.get_track (granting "t" (replies [Loader.Reply 200 (Some two_waypoints)]))
           "3c4b26" 0 3 start) = inl (Some tr) /\
    path <> [] /\ length (Loader.rows tr) = length path /\
    Forall (fun r => last r = Some (Loader.JStr "3c4b26")) (Loader.rows tr).
Proof.
  eexists.
  destruct (returned_track_shape
              (granting "t" (replies [Loader.Reply 200 (Some two_waypoints)]))
              "3c4b26" 0 3 start _ eq_refl)
    as (path & Hne & _ & _ & Hlen & Hrows & _).
  exists path. split; [reflexivity|]. split; [exact Hne|]. split; [exact Hlen|].
  eapply Forall_impl; [exact Hrows|]. now intros r [_ H].
Defined.

(** ** The batch of tracks *)

Lemma for_timestamps_spec (net : Loader.network) (icao : string)
    (timestamps : list Z) (results : list Loader.Track) (s : Loader.state) :
  let r := Loader.for_timestamps net icao timestamps results s in
  (Loader.gets (snd r) <= Loader.gets s + 3 * length timestamps)%nat /\
  forall res, fst r = inl res ->
    exists new,
      res = results ++ new /\ (length new <= length timestamps)%nat /\
      Forall (fun tr => exists path, path <> [] /\ tr = track_of icao path) new.
Proof.
  cbv zeta. revert results s.
  induction timestamps as [|ts rest IH]; intros results s.
  - cbn. split; [lia|]. intros res [= <-]. exists []. rewrite app_nil_r. auto.
  - cbn [Loader.for_timestamps length]. rewrite run_bind.
    pose proof (within_get_track net icao ts 3 s) as W.
    pose proof (get_track_Some net icao ts 3 s) as Hsome.
    destruct (Loader.get_track net icao ts 3 s) as [[df|e] s1].
    + cbn [snd fst] in *.
      destruct (IH (match df with Some t => results ++ [t] | None => results end) s1)
        as [Hg Hres].
      destruct W as [[_ W] _]. change (Z.to_nat 3) with 3%nat in W.
      split; [lia|].
      intros res (new & -> & Hlen & Hall)%Hres.
      destruct df as [tr|].
      * exists (tr :: new). rewrite <- app_assoc. split; [reflexivity|].
        split; [cbn; lia|]. constructor; [|exact Hall].
        destruct (Hsome tr eq_refl) as (path & Hne & _ & ->). eauto.
      * exists new. split; [reflexivity|]. split; [lia | exact Hall].
    + cbn [snd fst] in *. destruct W as [[_ W] _].
      change (Z.to_nat 3) with 3%nat in W. split; [lia|].
      intros res H. discriminate H.
Qed.

Lemma for_icao24_spec (net : Loader.network) (icao24_list : list string)
    (timestamps : list Z) (results : list Loader.Track) (s : Loader.state) :
  let r := Loader.for_icao24 net icao24_list timestamps results s in
  (Loader.gets (snd r)
   <= Loader.gets s + 3 * (length icao24_list * length timestamps))%nat /\
  forall res, fst r = inl res ->
    exists new,
      res = results ++ new /\
      (length new <= length icao24_list * length timestamps)%nat /\
      Forall (fun tr => exists icao path,
                icao ∈ icao24_list /\ path <> [] /\ tr = track_of icao path) new.
Proof.
  cbv zeta. revert results s.
  induction icao24_list as [|icao rest IH]; intros results s.
  - cbn. split; [lia|]. intros res [= <-]. exists []. rewrite app_nil_r. auto.
  - cbn [Loader.for_icao24 length]. rewrite run_bind.
    pose proof (for_timestamps_spec net icao timestamps results s) as H.
    cbv zeta in H.
    destruct (Loader.for_timestamps net icao timestamps results s) as [[res1|e] s1].
    + cbn [snd fst] in *. destruct H as [Hg H].
      destruct (H res1 eq_refl) as (new1 & -> & Hlen1 & Hall1).
      destruct (IH (results ++ new1) s1) as [Hg' Hres].
      split; [lia|].
      intros res (new & -> & Hlen & Hall)%Hres.
      exists (new1 ++ new). rewrite app_assoc. split; [reflexivity|].
      split; [rewrite length_app; lia|].
      apply Forall_app. split.
      * eapply Forall_impl; [exact Hall1|].
        intros tr (path & Hne & ->). exists icao, path.
        split; [apply list_elem_of_here | auto].
      * eapply Forall_impl; [exact Hall|].
        intros tr (i & path & Hi & Hne & ->). exists i, path.
        split; [now apply list_elem_of_further | auto].
    + cbn [snd fst] in *. destruct H as [Hg _]. split; [lia|].
      intros res H. discriminate H.
Qed.

(** X30. [get_tracks_batch] asks for each aircraft at each timestamp once,
    with three attempts: it makes at most three requests per pair, and what
    it returns holds at most one table per pair, each the table of an
    aircraft of the list. *)
Theorem batch_bounded (net : Loader.network) (icao24_list : list string)
    (timestamps : list Z) (s : Loader.state) :
  let r := Loader.get_tracks_batch net icao24_list timestamps s in
  (Loader.gets (snd r)
   <= Loader.gets s + 3 * (length icao24_list * length timestamps))%nat /\
  forall results, fst r = inl results ->
    (length results <= length icao24_list * length timestamps)%nat /\
    Forall (fun tr => exists icao path,
              icao ∈ icao24_list /\ path <> [] /\ tr = track_of icao path) results.
Proof.
  cbv zeta. unfold Loader.get_tracks_batch.
  destruct (for_icao24_spec net icao24_list timestamps [] s) as [Hg H].
  split; [exact Hg|].
  intros results (new & -> & Hlen & Hall)%H. auto.
Qed.

Lemma batch_bounded_witness :
  exists results,
    fst (Loader.get_tracks_batch
           (granting "t" (replies [Loader.Reply 200 (Some two_waypoints)]))
           ["3c4b26"; "a24f71"] [0%Z] start) = inl results /\
    (length results <= 2)%nat.
Proof.
  eexists. split; [reflexivity|].
  exact (proj1 (proj2 (batch_bounded
                         (granting "t" (replies [Loader.Reply 200 (Some two_waypoints)]))
                         ["3c4b26"; "a24f71"] [0%Z] start) _ eq_refl)).
Defined.
